(** * CredentialShield: secret verification and risk classification engine

    A shallow embedding of the decision logic of

      - [backend/app/services/agents/secret_verifier.py]
        ([normalize], [extract_commands], [run_command]),
      - [backend/app/services/agents/Api_Exposure_classifier.py]
        ([parse_secret_file]),
      - [backend/app/services/tools/json_report.py]
        ([_verify_secret_type], [build_json_report]),

    together with the properties of the engine that the specification
    states.

    Python [str] values are modelled as lists of characters whose code
    points lie in 0..255 (the Latin-1 range of [str]); the handful of
    [str] methods and [re] features that the three files use are modelled
    in the modules [Str] and [Re]. *)

From Stdlib Require Import Ascii String.
From Stdlib Require Import List Bool Arith NArith ZArith QArith Lia.
From Stdlib Require Import Permutation Sorted.
Import ListNotations.
Close Scope Q_scope.

Set Implicit Arguments.

(* ================================================================== *)
(** * Python strings *)
(* ================================================================== *)

Definition str := list ascii.

(** String literal. *)
Definition py (s : string) : str := list_ascii_of_string s.

Definition LF : ascii := ascii_of_N 10.
Definition CR : ascii := ascii_of_N 13.
Definition DQ : ascii := ascii_of_N 34.
Definition BS : ascii := ascii_of_N 92.

Module Str.

Definition code (c : ascii) : N := N_of_ascii c.

Definition between (lo hi : N) (c : ascii) : bool :=
  (lo <=? code c)%N && (code c <=? hi)%N.

Definition is_digit (c : ascii) : bool := between 48 57 c.
Definition is_ascii_upper (c : ascii) : bool := between 65 90 c.
Definition is_ascii_lower (c : ascii) : bool := between 97 122 c.

(** The class [[a-z0-9]]. *)
Definition is_lower_alnum (c : ascii) : bool := is_ascii_lower c || is_digit c.

(** The class [[A-Za-z0-9]]. *)
Definition is_ascii_alnum (c : ascii) : bool :=
  is_ascii_upper c || is_ascii_lower c || is_digit c.

(** Code points with an upper-case form below 256: A-Z, and the Latin-1
    capitals U+00C0..U+00DE except the multiplication sign U+00D7. *)
Definition is_upper (c : ascii) : bool :=
  is_ascii_upper c || between 192 214 c || between 216 222 c.

Definition lower_char (c : ascii) : ascii :=
  if is_upper c then ascii_of_N (code c + 32) else c.

(** [s.lower()] *)
Definition lower (s : str) : str := map lower_char s.

(** [c.isspace()] for code points below 256. *)
Definition is_space (c : ascii) : bool :=
  between 9 13 c || between 28 32 c || (code c =? 133)%N || (code c =? 160)%N.

Fixpoint lstrip (s : str) : str :=
  match s with
  | c :: s' => if is_space c then lstrip s' else s
  | [] => []
  end.

Definition rstrip (s : str) : str := rev (lstrip (rev s)).

(** [s.strip()] *)
Definition strip (s : str) : str := rstrip (lstrip s).

Definition eqb (a b : str) : bool :=
  if list_eq_dec ascii_dec a b then true else false.

(** [s.startswith(p)] *)
Fixpoint startswith (p s : str) : bool :=
  match p, s with
  | [], _ => true
  | a :: p', b :: s' => Ascii.eqb a b && startswith p' s'
  | _ :: _, [] => false
  end.

(** [needle in s] *)
Fixpoint contains (needle s : str) : bool :=
  startswith needle s ||
  match s with
  | [] => false
  | _ :: s' => contains needle s'
  end.

(** [s.split(sep)] for a non-empty [sep]: the pieces between the
    non-overlapping occurrences of [sep], found left to right.  [skip]
    counts the characters of an occurrence still to be passed over and
    [cur] holds the piece being read, last character first. *)
Fixpoint split_go (sep : str) (skip : nat) (cur s : str) : list str :=
  match s with
  | [] => [rev cur]
  | c :: s' =>
      match skip with
      | S k => split_go sep k cur s'
      | O =>
          if startswith sep s
          then rev cur :: split_go sep (length sep - 1) [] s'
          else split_go sep 0 (c :: cur) s'
      end
  end.

Definition split (sep s : str) : list str := split_go sep 0 [] s.

(** [s.split(sep, maxsplit)] for a non-empty [sep]: at most [maxsplit]
    cuts, the last piece holding the rest of the text. *)
Fixpoint splitn_go (sep : str) (maxsplit skip : nat) (cur s : str) : list str :=
  match s with
  | [] => [rev cur]
  | c :: s' =>
      match skip with
      | S k => splitn_go sep maxsplit k cur s'
      | O =>
          match maxsplit with
          | O => [rev cur ++ s]
          | S m =>
              if startswith sep s
              then rev cur :: splitn_go sep m (length sep - 1) [] s'
              else splitn_go sep maxsplit 0 (c :: cur) s'
          end
      end
  end.

Definition splitn (sep : str) (maxsplit : nat) (s : str) : list str :=
  splitn_go sep maxsplit 0 [] s.

(** [s.replace(old, new)] for a non-empty [old]. *)
Fixpoint replace_go (old new : str) (skip : nat) (s : str) : str :=
  match s with
  | [] => []
  | c :: s' =>
      match skip with
      | S k => replace_go old new k s'
      | O =>
          if startswith old s
          then new ++ replace_go old new (length old - 1) s'
          else c :: replace_go old new 0 s'
      end
  end.

Definition replace (old new s : str) : str := replace_go old new 0 s.

(** Line boundaries of [str.splitlines] below code point 256. *)
Definition is_linebreak (c : ascii) : bool :=
  between 10 13 c || between 28 30 c || (code c =? 133)%N.

(** The lines of a text for a given class of boundary characters: CR LF
    counts as one boundary, and a final boundary opens no empty last
    line. *)
Fixpoint lines_go (brk : ascii -> bool) (cur s : str) : list str :=
  match s with
  | [] => match cur with [] => [] | _ => [rev cur] end
  | c :: s' =>
      if brk c then
        match s' with
        | d :: s'' =>
            if Ascii.eqb c CR && Ascii.eqb d LF
            then rev cur :: lines_go brk [] s''
            else rev cur :: lines_go brk [] s'
        | [] => [rev cur]
        end
      else lines_go brk (c :: cur) s'
  end.

(** [s.splitlines()] *)
Definition splitlines (s : str) : list str := lines_go is_linebreak [] s.

(** The lines that iterating over a file opened in text mode yields
    (universal newlines: LF, CR and CR LF end a line), without their
    line ends. *)
Definition file_lines (s : str) : list str :=
  lines_go (fun c => Ascii.eqb c LF || Ascii.eqb c CR) [] s.

(** [sep.join(parts)] *)
Fixpoint join (sep : str) (parts : list str) : str :=
  match parts with
  | [] => []
  | [p] => p
  | p :: rest => p ++ sep ++ join sep rest
  end.

(** [x in xs] for a list of strings. *)
Definition mem (x : str) (xs : list str) : bool := existsb (eqb x) xs.

End Str.

(* ================================================================== *)
(** * The fragment of Python's [re] that the sources use *)
(* ================================================================== *)

(** A backtracking matcher with the priorities of [re]: a greedy
    repetition tries the longest run first, a lazy one the shortest.
    Every repetition in the patterns of this program ranges over a single
    character class, so repetition is defined by recursion on the text. *)

Module Re.

Inductive regex : Type :=
| Chr (p : ascii -> bool)                    (* one character of a class *)
| Rep (greedy : bool) (lo : nat) (p : ascii -> bool)
                                             (* [p{lo,}] or [p{lo,}?] *)
| Seq (r1 r2 : regex)
| Grp (n : nat) (r : regex)                  (* capturing group number n *)
| Ref (n : nat)                              (* backreference \n *)
| Bol (multiline : bool)                     (* ^ *)
| Eol (multiline : bool).                    (* $ *)

(** Captured groups, most recent binding first. *)
Definition groups := list (nat * str).

Fixpoint group (n : nat) (g : groups) : option str :=
  match g with
  | [] => None
  | (m, w) :: g' => if Nat.eqb n m then Some w else group n g'
  end.

(** The mandatory [lo] characters of a repetition.  The first component
    of the result is the character just before the new position. *)
Fixpoint rep_min (p : ascii -> bool) (lo : nat) (prev : option ascii) (s : str)
  : option (option ascii * str) :=
  match lo with
  | O => Some (prev, s)
  | S n =>
      match s with
      | c :: s' => if p c then rep_min p n (Some c) s' else None
      | [] => None
      end
  end.

Fixpoint star_greedy (R : Type) (p : ascii -> bool) (prev : option ascii) (s : str)
  (k : option ascii -> str -> option R) : option R :=
  match s with
  | c :: s' =>
      if p c then
        match star_greedy p (Some c) s' k with
        | Some r => Some r
        | None => k prev s
        end
      else k prev s
  | [] => k prev s
  end.

Fixpoint star_lazy (R : Type) (p : ascii -> bool) (prev : option ascii) (s : str)
  (k : option ascii -> str -> option R) : option R :=
  match k prev s with
  | Some r => Some r
  | None =>
      match s with
      | c :: s' => if p c then star_lazy p (Some c) s' k else None
      | [] => None
      end
  end.

Definition is_lf (o : option ascii) : bool :=
  match o with Some c => Ascii.eqb c LF | None => false end.

Definition last_char (w : str) (prev : option ascii) : option ascii :=
  match rev w with c :: _ => Some c | [] => prev end.

(** [rmatch r prev s g k]: match [r] at the head of [s], where [prev] is
    the character before [s] in the subject ([None] at its start), then
    hand the rest to the continuation [k]; the answer is the text left
    after the whole match, with the groups. *)
Fixpoint rmatch (r : regex) (prev : option ascii) (s : str) (g : groups)
  (k : option ascii -> str -> groups -> option (str * groups))
  : option (str * groups) :=
  match r with
  | Chr p =>
      match s with
      | c :: s' => if p c then k (Some c) s' g else None
      | [] => None
      end
  | Rep greedy lo p =>
      match rep_min p lo prev s with
      | None => None
      | Some (prev', s') =>
          if greedy
          then star_greedy p prev' s' (fun pv t => k pv t g)
          else star_lazy p prev' s' (fun pv t => k pv t g)
      end
  | Seq r1 r2 => rmatch r1 prev s g (fun pv t g' => rmatch r2 pv t g' k)
  | Grp n r1 =>
      rmatch r1 prev s g
        (fun pv t g' => k pv t ((n, firstn (length s - length t) s) :: g'))
  | Ref n =>
      match group n g with
      | None => None
      | Some w =>
          if Str.startswith w s
          then k (last_char w prev) (skipn (length w) s) g
          else None
      end
  | Bol multiline =>
      match prev with
      | None => k prev s g
      | Some c => if multiline && Ascii.eqb c LF then k prev s g else None
      end
  | Eol multiline =>
      match s with
      | [] => k prev s g
      | c :: s' =>
          if Ascii.eqb c LF && (multiline || match s' with [] => true | _ => false end)
          then k prev s g
          else None
      end
  end.

Definition stop (_ : option ascii) (t : str) (g : groups) : option (str * groups) :=
  Some (t, g).

(** The scan shared by [re.sub] and [re.findall]: the subject cut into
    unmatched characters ([inl]) and non-overlapping matches ([inr], the
    matched text with its groups), leftmost first.  [skip] counts the
    characters of the last match still to be passed over.  No pattern of
    this program matches the empty string, so only non-empty matches are
    reported. *)
Fixpoint pieces (r : regex) (skip : nat) (prev : option ascii) (s : str)
  : list (ascii + str * groups) :=
  match s with
  | [] => []
  | c :: s' =>
      match skip with
      | S k => pieces r k (Some c) s'
      | O =>
          match rmatch r prev s [] stop with
          | Some (t, g) =>
              match length s - length t with
              | O => inl c :: pieces r 0 (Some c) s'
              | S k => inr (firstn (S k) s, g) :: pieces r k (Some c) s'
              end
          | None => inl c :: pieces r 0 (Some c) s'
          end
      end
  end.

(** [re.sub(r, repl, s)], the replacement computed from the groups. *)
Definition sub (r : regex) (repl : groups -> str) (s : str) : str :=
  flat_map (fun x => match x with inl c => [c] | inr (_, g) => repl g end)
           (pieces r 0 None s).

(** [re.findall(r, s)]: the matches, each with its text and groups. *)
Definition findall (r : regex) (s : str) : list (str * groups) :=
  flat_map (fun x => match x with inl _ => [] | inr m => [m] end)
           (pieces r 0 None s).

(** A literal, matched with or without [re.IGNORECASE] (letters a-z). *)
Definition chr_eq (ignorecase : bool) (c : ascii) : regex :=
  Chr (fun d => if ignorecase
                then Ascii.eqb (Str.lower_char d) (Str.lower_char c)
                else Ascii.eqb d c).

Fixpoint lit (ignorecase : bool) (w : str) (rest : regex) : regex :=
  match w with
  | [] => rest
  | c :: w' => Seq (chr_eq ignorecase c) (lit ignorecase w' rest)
  end.

Definition any_char (_ : ascii) : bool := true.
Definition is_char (c : ascii) (d : ascii) : bool := Ascii.eqb d c.
Definition not_char (c : ascii) (d : ascii) : bool := negb (Ascii.eqb d c).

End Re.

(* ================================================================== *)
(** * Command matcher ([secret_verifier.py]) *)
(* ================================================================== *)

Module Catalog.

(** [[^a-z0-9]+] *)
Definition non_lower_alnum_run : Re.regex :=
  Re.Rep true 1 (fun c => negb (Str.is_lower_alnum c)).

(** [normalize]: [re.sub(r"[^a-z0-9]+", "", s.lower())]. *)
Definition normalize (s : str) : str :=
  Re.sub non_lower_alnum_run (fun _ => []) (Str.lower s).

(** [\[([^]]+)\].*] *)
Definition md_link : Re.regex :=
  Re.Seq (Re.Chr (Re.is_char "["))
    (Re.Seq (Re.Grp 1 (Re.Rep true 1 (Re.not_char "]")))
       (Re.Seq (Re.Chr (Re.is_char "]"))
               (Re.Rep true 0 (Re.not_char LF)))).

(** [\([^)]*\)$] *)
Definition paren_tail : Re.regex :=
  Re.Seq (Re.Chr (Re.is_char "("))
    (Re.Seq (Re.Rep true 0 (Re.not_char ")"))
       (Re.Seq (Re.Chr (Re.is_char ")")) (Re.Eol false))).

(** [(`{3,}).*?\n(.*?)\n\1] with [re.DOTALL] *)
Definition code_fence : Re.regex :=
  Re.Seq (Re.Grp 1 (Re.Rep true 3 (Re.is_char "`")))
    (Re.Seq (Re.Rep false 0 Re.any_char)
       (Re.Seq (Re.Chr (Re.is_char LF))
          (Re.Seq (Re.Grp 2 (Re.Rep false 0 Re.any_char))
             (Re.Seq (Re.Chr (Re.is_char LF)) (Re.Ref 1))))).

(** [^curl[^\n\r]*$] with [re.MULTILINE | re.IGNORECASE] *)
Definition inline_curl : Re.regex :=
  Re.Seq (Re.Bol true)
    (Re.lit true (py "curl")
       (Re.Seq (Re.Rep true 0 (fun c => negb (Ascii.eqb c LF) && negb (Ascii.eqb c CR)))
               (Re.Eol true))).

Definition group_text (n : nat) (g : Re.groups) : str :=
  match Re.group n g with Some w => w | None => [] end.

(** The title of a section, from its first line:
    [re.sub(r"\([^)]*\)$", "", re.sub(r"\[([^]]+)\].*", r"\1", line.strip())).strip()] *)
Definition section_title (line0 : str) : str :=
  Str.strip
    (Re.sub paren_tail (fun _ => [])
       (Re.sub md_link (group_text 1) (Str.strip line0))).

(** [(normalized_title in wanted) or (wanted in normalized_title)] *)
Definition title_matches (wanted normalized_title : str) : bool :=
  Str.contains normalized_title wanted || Str.contains wanted normalized_title.

(** Whether the loop of [extract_commands] reads the body of section
    [sec]: it has a first line, its title is not empty, and the title
    matches. *)
Definition section_selected (wanted : str) (sec : str) : bool :=
  match Str.splitlines sec with
  | [] => false
  | line0 :: _ =>
      let title := section_title line0 in
      match title with
      | [] => false
      | _ => title_matches wanted (normalize title)
      end
  end.

(** The curl lines of one fenced block, appended to [commands]. *)
Definition block_commands (commands : list str) (block : str * Re.groups) : list str :=
  fold_left
    (fun acc line =>
       if Str.startswith (py "curl") (Str.lower (Str.strip line))
       then acc ++ [Str.strip line] else acc)
    (Str.splitlines (group_text 2 (snd block)))
    commands.

(** The commands of one selected section, appended to [commands]: first
    the curl lines of its fenced blocks, then its inline curl lines that
    are not in [commands] yet. *)
Definition section_commands (commands : list str) (body : str) : list str :=
  let code_blocks := Re.findall code_fence body in
  let commands := fold_left block_commands code_blocks commands in
  let inline_curls := Re.findall inline_curl body in
  fold_left
    (fun acc m =>
       let line := fst m in
       if Str.mem (Str.strip line) acc then acc else acc ++ [Str.strip line])
    inline_curls commands.

Definition section_body (sec : str) : str :=
  Str.join [LF] (tl (Str.splitlines sec)).

(** [extract_commands(secret_type, md_text)] *)
Definition extract_commands (secret_type md_text : str) : list str :=
  let wanted := normalize secret_type in
  fold_left
    (fun commands sec =>
       if section_selected wanted sec
       then section_commands commands (section_body sec)
       else commands)
    (Str.split (py "## ") md_text)
    [].

(** A catalog with one section, titled [GitHub Token], whose fenced block
    holds one curl template. *)
Definition github_template : str :=
  py "curl -H " ++ [DQ] ++ py "Authorization: token $TOKEN" ++ [DQ]
     ++ py " https://api.github.com/user".

Definition github_catalog : str :=
  py "## GitHub Token" ++ [LF] ++
  py "```" ++ [LF] ++
  github_template ++ [LF] ++
  py "```" ++ [LF].

End Catalog.

(* ================================================================== *)
(** * Evidence parser ([Api_Exposure_classifier.py]) *)
(* ================================================================== *)

(** One parsed evidence line: the dict
    [{"evidence": ..., "filename": ..., "url": ...}]. *)
Record EvidenceRecord : Type := mkEvidence {
  evidence : str;
  filename : str;
  url : str
}.

(** [Dict[str, List[Dict]]], keys in insertion order. *)
Definition Buckets := list (str * list EvidenceRecord).

Module Parser.

Definition Unknown : str := py "Unknown".

(** [secrets[secret_type].append(record)] on a [defaultdict(list)]: a new
    key goes last. *)
Fixpoint bucket_append (secret_type : str) (r : EvidenceRecord) (secrets : Buckets)
  : Buckets :=
  match secrets with
  | [] => [(secret_type, [r])]
  | (k, v) :: rest =>
      if Str.eqb secret_type k
      then (k, v ++ [r]) :: rest
      else (k, v) :: bucket_append secret_type r rest
  end.

Fixpoint lookup (k : str) (secrets : Buckets) : option (list EvidenceRecord) :=
  match secrets with
  | [] => None
  | (k', v) :: rest => if Str.eqb k k' then Some v else lookup k rest
  end.

(** [xs[-1]] of a list that [split] returned (never empty). *)
Definition last_piece (xs : list str) : str := last xs [].

(** [line.startswith("[ + ] URL:")] *)
Definition is_url_line (line : str) : bool := Str.startswith (py "[ + ] URL:") line.

(** [line.split("URL:", 1)[1].strip()], [Unknown] if that raises. *)
Definition url_of_line (line : str) : str :=
  match Str.splitn (py "URL:") 1 line with
  | _ :: u :: _ => Str.strip u
  | _ => Unknown
  end.

(** [map(str.strip, line.split("->", 1))], for a line that holds [->]. *)
Definition split_arrow (line : str) : str * str :=
  match Str.splitn (py "->") 1 line with
  | a :: b :: _ => (Str.strip a, Str.strip b)
  | _ => (Str.strip line, [])
  end.

Section WithUrlparse.

(** [urlparse(u).path] of the standard library; [None] when [urlparse]
    raises. *)
Variable urlparse_path : str -> option str.

(** The file name recorded for an evidence text under the current URL. *)
Definition filename_of (evidence current_url : str) : str :=
  if Str.contains (py ":") evidence then
    match Str.splitn (py ":") 2 evidence with
    | p0 :: _ :: _ =>
        if Str.contains (py "/") p0 then last_piece (Str.split (py "/") p0)
        else if Str.contains [BS] p0 then last_piece (Str.split [BS] p0)
        else p0
    | _ => Unknown
    end
  else if negb (Str.eqb current_url Unknown) then
    match urlparse_path current_url with
    | Some path =>
        let name := match path with
                    | [] => Unknown
                    | _ => last_piece (Str.split (py "/") path)
                    end in
        match name with [] => Unknown | _ => name end
    | None => Unknown
    end
  else Unknown.

(** One iteration of the loop over the lines of the dump; the state is
    the pair of [secrets] and [current_url]. *)
Definition parse_line (state : Buckets * str) (raw : str) : Buckets * str :=
  let (secrets, current_url) := state in
  let line := Str.strip raw in
  if is_url_line line then (secrets, url_of_line line)
  else if negb (Str.contains (py "->") line) then (secrets, current_url)
  else
    let (secret_type, evidence) := split_arrow line in
    let filename := filename_of evidence current_url in
    (bucket_append secret_type (mkEvidence evidence filename current_url) secrets,
     current_url).

(** [parse_secret_file], on the text of the file. *)
Definition parse_secret_file (dump : str) : Buckets :=
  fst (fold_left parse_line (Str.file_lines dump) ([], Unknown)).

End WithUrlparse.

(** The path of a URL of the plain shape [scheme://host/path]: what
    follows the host, up to [?] or [#].  It stands for [urlparse] in the
    worked examples. *)
Definition simple_url_path (u : str) : option str :=
  match Str.splitn (py "://") 1 u with
  | _ :: rest :: _ =>
      match Str.splitn (py "/") 1 rest with
      | _ :: p :: _ =>
          Some ("/"%char :: hd [] (Str.splitn (py "?") 1 (hd [] (Str.splitn (py "#") 1 p))))
      | _ => Some []
      end
  | _ => Some u
  end.

Definition aws_dump : str :=
  py "[ + ] URL: https://x.com/app.js" ++ [LF] ++
  py "AWS Key -> AKIA1234567890ABCD12" ++ [LF].

End Parser.

(* ================================================================== *)
(** * Effects: oracles, subprocesses and the trace of calls *)
(* ================================================================== *)

(** Exceptions that the modelled code can meet.  [TimeoutError] is what
    [asyncio.wait_for] raises; [UnboundLocal] is the reading of a local
    variable that no assignment has reached; [Raised] is any other
    exception, with its text. *)
Inductive exn : Type :=
| TimeoutError
| UnboundLocal (name : str)
| KeyError (key : str)
| Raised (msg : str).

(** [str(ex)] *)
Definition str_of_exn (ex : exn) : str :=
  match ex with
  | TimeoutError => []
  | UnboundLocal name =>
      py "cannot access local variable '" ++ name
         ++ py "' where it is not associated with a value"
  | KeyError key => key
  | Raised msg => msg
  end.

Definition pid := nat.

(** What a run leaves behind besides its result: the calls made to the
    oracles and the subprocesses started, in order.  [EvSpawn] carries the
    template that [run_command] was given and the argument vector it
    started. *)
Inductive event : Type :=
| EvClassify (secret_type : str) (resp : exn + str * str)
| EvRemediate (secret_type : str)
| EvGuidance (secret_type evidence command : str) (resp : exn + str * str)
| EvSpawn (template : str) (args : list str).

(** The collaborators of the engine, over a state of the outside world:
    the three requests of the AI oracle, [shlex.split], the two
    subprocess operations of [run_command], the catalog file and the
    clock. *)
Class Runtime (World : Type) : Type := {
  (** [classify(secret_type)] of [ai_classifier.py] *)
  classify : str -> World -> (exn + str * str) * World;
  (** [Remediation_Agent(secret_type)] of [ai_classifier.py] *)
  Remediation_Agent : str -> World -> (exn + list str) * World;
  (** [verifier(secret_type, evidence, command)] of [secret_verifier.py] *)
  verifier : str -> str -> str -> World -> (exn + str * str) * World;
  (** [shlex.split(cmd)] *)
  shlex_split : str -> exn + list str;
  (** [asyncio.create_subprocess_exec] on the argument vector *)
  create_subprocess_exec : list str -> World -> (exn + pid) * World;
  (** [asyncio.wait_for(proc.communicate(), timeout)], then
      [proc.returncode] and the two decoded outputs *)
  wait_for_communicate : pid -> nat -> World -> (exn + Z * str * str) * World;
  (** the text of [key_verifier.md], [None] when the file does not exist *)
  read_key_verifier_md : World -> exn + option str;
  (** [datetime.now().isoformat()] *)
  now_isoformat : World -> str
}.

(** Computations over the world that also emit events. *)
Definition M (World A : Type) : Type := World -> A * World * list event.

Definition ret {World A : Type} (a : A) : M World A := fun w => (a, w, []).

Definition bind {World A B : Type} (m : M World A) (f : A -> M World B) : M World B :=
  fun w =>
    let '(a, w1, t1) := m w in
    let '(b, w2, t2) := f a w1 in
    (b, w2, t1 ++ t2).

Notation "x <- m ;; k" := (bind m (fun x => k))
  (at level 61, m at next level, right associativity).

(* ================================================================== *)
(** * Live verifier ([run_command], [_verify_secret_type]) *)
(* ================================================================== *)

(** One entry of [results].  The three dict shapes that
    [_verify_secret_type] builds differ in the keys they carry; an absent
    key is [None]. *)
Record AttemptResult : Type := mkResult {
  command : str;
  executed_command : option str;
  exit_code : option Z;
  stdout : option str;
  stderr : option str;
  error : option str;
  success : bool;
  ai_status : str;
  ai_analysis : str;
  evidence_used : str
}.

(** The dict that [_verify_secret_type] returns. *)
Record Verification : Type := mkVerification {
  commands : list str;
  attempted : bool;
  verified : bool;
  verification_error : option str;
  results : list AttemptResult
}.

Module Verifier.

(** The keys of [replacements] in [run_command], in insertion order. *)
Definition replacements : list str :=
  [py "<your_token>"; py "API_KEY_HERE"; py "TOKEN_HERE"; py "$TOKEN";
   py "$API_KEY"; py "TOKEN"].

(** The placeholder substitution of [run_command]; an empty token is
    falsy and leaves the command as it is. *)
Definition substitute (cmd token : str) : str :=
  match token with
  | [] => cmd
  | _ => fold_left (fun c placeholder => Str.replace placeholder token c)
                   replacements cmd
  end.

(** [placeholder_terms] of [_verify_secret_type]. *)
Definition placeholder_terms : list str :=
  [py "<your_token>"; py "API_KEY_HERE"; py "TOKEN"; py "TOKEN_HERE"].

(** [any(term in cmd for term in placeholder_terms)] *)
Definition has_placeholder (cmd : str) : bool :=
  existsb (fun term => Str.contains term cmd) placeholder_terms.

Definition failure_markers : list str :=
  [py "unauthorized"; py "forbidden"; py "invalid"; py "denied"].

(** [any(word in combined for word in [...])] where [combined] is the
    lower-cased [out], a line feed and [err] put together. *)
Definition looks_auth_error (out err : str) : bool :=
  let combined := Str.lower (out ++ [LF] ++ err) in
  existsb (fun word => Str.contains word combined) failure_markers.

(** [(code == 0) and not looks_auth_error and len(out.strip()) > 0] *)
Definition is_success (code : Z) (out err : str) : bool :=
  (code =? 0)%Z && negb (looks_auth_error out err)
  && (0 <? length (Str.strip out)).

(** [evidence[:50] + "..." if len(evidence) > 50 else evidence] *)
Definition evidence_label (ev : str) : str :=
  if 50 <? length ev then firstn 50 ev ++ py "..." else ev.

Definition no_candidates : str := py "No token candidates found".

(** The result recorded when the subprocess ran to its end. *)
Definition executed_result (cmd ev : str) (ai : str * str)
  (code : Z) (out err executed_cmd : str) : AttemptResult :=
  {| command := cmd;
     executed_command := Some executed_cmd;
     exit_code := Some code;
     stdout := Some (firstn 4000 out);
     stderr := Some (firstn 4000 err);
     error := None;
     success := is_success code out err;
     ai_status := fst ai;
     ai_analysis := snd ai;
     evidence_used := evidence_label ev |}.

(** The result recorded when [run_command] raised. *)
Definition failed_result (cmd ev : str) (ai : str * str) (ex : exn) : AttemptResult :=
  {| command := cmd;
     executed_command := None;
     exit_code := None;
     stdout := None;
     stderr := None;
     error := Some (str_of_exn ex);
     success := false;
     ai_status := fst ai;
     ai_analysis := snd ai;
     evidence_used := evidence_label ev |}.

(** The result recorded when no runnable attempt was made. *)
Definition guidance_only_result (cmd : str) (ai : str * str) : AttemptResult :=
  {| command := cmd;
     executed_command := None;
     exit_code := None;
     stdout := None;
     stderr := None;
     error := None;
     success := false;
     ai_status := fst ai;
     ai_analysis := snd ai;
     evidence_used := no_candidates |}.

(** What [ai_status, ai_analysis] are bound to after the guarded call
    of [verifier]. *)
Definition guidance (r : exn + str * str) : str * str :=
  match r with
  | inr p => p
  | inl ex => (py "ERROR", str_of_exn ex)
  end.

(** The local variables of [_verify_secret_type] that its loops update.
    [l_ai] is the pair [ai_status, ai_analysis], [None] while the two
    names are unbound. *)
Record locals : Type := mkLocals {
  l_attempted : bool;
  l_verified : bool;
  l_results : list AttemptResult;
  l_ai : option (str * str);
  l_cmd_attempted : bool;
  l_cmd_verified : bool;
  l_best_result : option AttemptResult
}.

Definition initial_locals : locals :=
  mkLocals false false [] None false false None.

Definition set_ai (ai : str * str) (l : locals) : locals :=
  mkLocals (l_attempted l) (l_verified l) (l_results l) (Some ai)
           (l_cmd_attempted l) (l_cmd_verified l) (l_best_result l).

(** [cmd_attempted = True; attempted = True] *)
Definition mark_attempted (l : locals) : locals :=
  mkLocals true (l_verified l) (l_results l) (l_ai l)
           true (l_cmd_verified l) (l_best_result l).

(** [cmd_verified = True; verified = True] *)
Definition mark_verified (l : locals) : locals :=
  mkLocals (l_attempted l) true (l_results l) (l_ai l)
           (l_cmd_attempted l) true (l_best_result l).

Definition set_best (r : AttemptResult) (l : locals) : locals :=
  mkLocals (l_attempted l) (l_verified l) (l_results l) (l_ai l)
           (l_cmd_attempted l) (l_cmd_verified l) (Some r).

(** [cmd_attempted = False; cmd_verified = False; best_result = None] *)
Definition next_template (l : locals) : locals :=
  mkLocals (l_attempted l) (l_verified l) (l_results l) (l_ai l)
           false false None.

(** [if best_result: results.append(best_result)] *)
Definition append_best (l : locals) : locals :=
  match l_best_result l with
  | Some r =>
      mkLocals (l_attempted l) (l_verified l) (l_results l ++ [r]) (l_ai l)
               (l_cmd_attempted l) (l_cmd_verified l) (l_best_result l)
  | None => l
  end.

(** The result of a completed run enters [best_result] when there is none
    yet, or when it succeeded and the kept one did not. *)
Definition keep_executed (r : AttemptResult) (l : locals) : locals :=
  match l_best_result l with
  | None => set_best r l
  | Some b => if success r && negb (success b) then set_best r l else l
  end.

(** The result of a failed run enters [best_result] only when there is
    none yet. *)
Definition keep_failed (r : AttemptResult) (l : locals) : locals :=
  match l_best_result l with
  | None => set_best r l
  | Some _ => l
  end.

Section WithRuntime.

Context {World : Type} {RT : Runtime World}.

Definition ask_verifier (secret_type ev cmd : str) : M World (exn + str * str) :=
  fun w =>
    let (r, w') := verifier secret_type ev cmd w in
    (r, w', [EvGuidance secret_type ev cmd r]).

Definition spawn (template : str) (args : list str) : M World (exn + pid) :=
  fun w =>
    let (r, w') := create_subprocess_exec args w in
    (r, w', [EvSpawn template args]).

Definition communicate (proc : pid) (timeout : nat) : M World (exn + Z * str * str) :=
  fun w =>
    let (r, w') := wait_for_communicate proc timeout w in
    (r, w', []).

(** [run_command(cmd, token, timeout)]: the exit code, the two outputs
    and the command as executed, or the exception raised on the way. *)
Definition run_command (cmd token : str) (timeout : nat)
  : M World (exn + Z * str * str * str) :=
  let executed_cmd := substitute cmd token in
  match shlex_split executed_cmd with
  | inl ex => ret (inl ex)
  | inr args =>
      p <- spawn cmd args ;;
      match p with
      | inl ex => ret (inl ex)
      | inr proc =>
          o <- communicate proc timeout ;;
          match o with
          | inl ex => ret (inl ex)
          | inr (code, out, err) => ret (inr (code, out, err, executed_cmd))
          end
      end
  end.

(** The body of the loop over the evidence values, up to the test of
    [cmd_verified]. *)
Definition attempt (secret_type cmd ev : str) (l : locals) : M World locals :=
  a <- ask_verifier secret_type ev cmd ;;
  let ai := guidance a in
  let l := set_ai ai l in
  if has_placeholder cmd then
    let l := mark_attempted l in
    r <- run_command cmd ev 20 ;;
    match r with
    | inr (code, out, err, executed_cmd) =>
        let l := if is_success code out err then mark_verified l else l in
        ret (keep_executed (executed_result cmd ev ai code out err executed_cmd) l)
    | inl ex =>
        ret (keep_failed (failed_result cmd ev ai ex) l)
    end
  else ret l.

(** [for i, evidence in enumerate(evidence_strings[:5])], with its
    [break] on [cmd_verified]. *)
Fixpoint try_evidence (secret_type cmd : str) (evs : list str) (l : locals)
  : M World locals :=
  match evs with
  | [] => ret l
  | ev :: rest =>
      l' <- attempt secret_type cmd ev l ;;
      if l_cmd_verified l' then ret l'
      else try_evidence secret_type cmd rest l'
  end.

(** The body of the loop over the templates.  Reading [ai_status] while
    it is unbound raises. *)
Definition verify_template (secret_type : str) (evidence_strings : list str)
  (l : locals) (cmd : str) : M World (exn + locals) :=
  l <- try_evidence secret_type cmd (firstn 5 evidence_strings) (next_template l) ;;
  if negb (l_cmd_attempted l) then
    match l_ai l with
    | None => ret (inl (UnboundLocal (py "ai_status")))
    | Some ai => ret (inr (append_best (set_best (guidance_only_result cmd ai) l)))
    end
  else ret (inr (append_best l)).

(** [for cmd in commands[:3]] *)
Fixpoint verify_templates (secret_type : str) (evidence_strings : list str)
  (cmds : list str) (l : locals) : M World (exn + locals) :=
  match cmds with
  | [] => ret (inr l)
  | cmd :: rest =>
      r <- verify_template secret_type evidence_strings l cmd ;;
      match r with
      | inl ex => ret (inl ex)
      | inr l' => verify_templates secret_type evidence_strings rest l'
      end
  end.

(** The dict of the outer [except] branch. *)
Definition failed_verification (ex : exn) : Verification :=
  {| commands := [];
     attempted := false;
     verified := false;
     verification_error := Some (str_of_exn ex);
     results := [] |}.

(** [commands = extract_commands(secret_type, md_text) if md_text else []] *)
Definition catalog_commands (secret_type : str) (md : option str) : list str :=
  match md with
  | Some (c :: t) => Catalog.extract_commands secret_type (c :: t)
  | _ => []
  end.

(** [_verify_secret_type(secret_type, evid_list)] *)
Definition _verify_secret_type (secret_type : str) (evid_list : list EvidenceRecord)
  : M World Verification :=
  fun w =>
    match read_key_verifier_md w with
    | inl ex => (failed_verification ex, w, [])
    | inr md =>
        let cmds := catalog_commands secret_type md in
        let evidence_strings := map evidence evid_list in
        let '(r, w', t) :=
          verify_templates secret_type evidence_strings (firstn 3 cmds)
                           initial_locals w in
        match r with
        | inl ex => (failed_verification ex, w', t)
        | inr l =>
            ({| commands := firstn 3 cmds;
                attempted := l_attempted l;
                verified := l_verified l;
                verification_error := None;
                results := l_results l |}, w', t)
        end
    end.

End WithRuntime.

End Verifier.

(* ================================================================== *)
(** * Finding aggregator ([build_json_report]) *)
(* ================================================================== *)

Record Finding : Type := mkFinding {
  finding_id : str;
  title : str;
  severity : str;
  status : str;
  endpoint : str;
  description : str;
  impact : str;
  remediation_steps : list str;
  validation_commands : list str;
  verification : Verification;
  finding_evidence : list str;
  evidence_data : list EvidenceRecord;
  secret_type : str;
  risk_score : Q;
  confidence_level : str;
  timestamp : str;
  category : str
}.

Record Summary : Type := mkSummary {
  total_findings : nat;
  critical_findings : nat;
  high_findings : nat;
  medium_findings : nat;
  low_findings : nat;
  total_secret_types : nat;
  total_evidences : nat
}.

Record Report : Type := mkReport {
  overall_risk : str;
  summary : Summary;
  findings : list Finding;
  analysis_type : str;
  report_timestamp : str
}.

Module Aggregator.

Definition CRITICAL : str := py "CRITICAL".
Definition HIGH : str := py "HIGH".
Definition MEDIUM : str := py "MEDIUM".
Definition LOW : str := py "LOW".
Definition INFO : str := py "INFO".

(** [highest_rank] *)
Definition highest_rank : list (str * nat) :=
  [(CRITICAL, 4); (HIGH, 3); (MEDIUM, 2); (LOW, 1); (INFO, 0)].

(** [d.get(key, default)] *)
Fixpoint dict_get (A : Type) (d : list (str * A)) (key : str) (default : A) : A :=
  match d with
  | [] => default
  | (k, v) :: rest => if Str.eqb key k then v else dict_get rest key default
  end.

(** [highest_rank.get(risk, 0)] *)
Definition rank (risk : str) : nat := dict_get highest_rank risk 0.

(** [{v: k for k, v in highest_rank.items()}[score]]; the five ranks are
    distinct, so the inverted dict holds one label per rank. *)
Fixpoint label_of_rank (d : list (str * nat)) (score : nat) : option str :=
  match d with
  | [] => None
  | (k, v) :: rest => if Nat.eqb score v then Some k else label_of_rank rest score
  end.

(** [get_impact_description(risk, secret_type)] *)
Definition get_impact_description (risk stype : str) : str :=
  dict_get
    [(CRITICAL, py "Attackers could potentially access, modify, or delete sensitive data using the exposed "
                  ++ stype ++ py ". This represents a severe security breach.");
     (HIGH, py "Attackers could potentially access sensitive information or perform unauthorized actions using the exposed "
              ++ stype ++ py ".");
     (MEDIUM, py "The exposed " ++ stype
                ++ py " could potentially be used for unauthorized access or data exposure.");
     (LOW, py "The exposed " ++ stype
             ++ py " may pose minimal risk but should be reviewed for potential security implications.");
     (INFO, py "The exposed " ++ stype
              ++ py " should be validated to determine if it represents a security risk.")]
    risk (py "Unknown risk level.").

(** [get_risk_score(risk)] *)
Definition get_risk_score (risk : str) : Q :=
  dict_get [(CRITICAL, 9 # 10); (HIGH, 7 # 10); (MEDIUM, 5 # 10);
            (LOW, 3 # 10); (INFO, 1 # 10)]%Q risk 0%Q.

(** [sorted(xs, key=key, reverse=True)]: descending by key, elements of
    equal key in their original order. *)
Fixpoint insert_desc (A : Type) (key : A -> nat) (x : A) (l : list A) : list A :=
  match l with
  | [] => [x]
  | y :: l' => if key x <? key y then y :: insert_desc key x l' else x :: l
  end.

Fixpoint sorted_reverse (A : Type) (key : A -> nat) (l : list A) : list A :=
  match l with
  | [] => []
  | x :: l' => insert_desc key x (sorted_reverse key l')
  end.

(** [len([f for f in findings if f["severity"] == label])] *)
Definition count_severity (label : str) (fs : list Finding) : nat :=
  length (filter (fun f => Str.eqb (severity f) label) fs).

Section WithRuntime.

Context {World : Type} {RT : Runtime World}.

Definition ask_classify (stype : str) : M World (exn + str * str) :=
  fun w =>
    let (r, w') := classify stype w in
    (r, w', [EvClassify stype r]).

Definition ask_remediation (stype : str) : M World (exn + list str) :=
  fun w =>
    let (r, w') := Remediation_Agent stype w in
    (r, w', [EvRemediate stype]).

Definition now : M World str := fun w => (now_isoformat w, w, []).

(** The finding dict of one bucket. *)
Definition make_finding (stype : str) (evid_list : list EvidenceRecord)
  (risk desc : str) (ai_remediation_steps : list str) (v : Verification)
  (ts : str) : Finding :=
  {| finding_id := py "api_exposure_" ++ Str.replace (py " ") (py "_") (Str.lower stype);
     title := py "API Exposure - " ++ stype;
     severity := risk;
     status := py "OPEN";
     endpoint := py "JavaScript Files";
     description := desc;
     impact := get_impact_description risk stype;
     remediation_steps := ai_remediation_steps;
     validation_commands := commands v;
     verification := v;
     finding_evidence := map evidence (firstn 5 evid_list);
     evidence_data := firstn 5 evid_list;
     secret_type := stype;
     risk_score := get_risk_score risk;
     confidence_level := py "high";
     timestamp := ts;
     category := py "api_exposure" |}.

(** [for stype, evid_list in secrets.items()]: the state is the pair of
    [findings] and [max_score]; an exception of [classify] or of
    [Remediation_Agent] leaves the loop and the function. *)
Fixpoint build_findings (secrets : Buckets) (acc : list Finding) (max_score : nat)
  : M World (exn + list Finding * nat) :=
  match secrets with
  | [] => ret (inr (acc, max_score))
  | (stype, evid_list) :: rest =>
      c <- ask_classify stype ;;
      match c with
      | inl ex => ret (inl ex)
      | inr (risk, desc) =>
          let max_score := Nat.max max_score (rank risk) in
          s <- ask_remediation stype ;;
          match s with
          | inl ex => ret (inl ex)
          | inr ai_remediation_steps =>
              v <- Verifier._verify_secret_type stype evid_list ;;
              ts <- now ;;
              build_findings rest
                (acc ++ [make_finding stype evid_list risk desc
                                      ai_remediation_steps v ts])
                max_score
          end
      end
  end.

Definition make_summary (secrets : Buckets) (fs : list Finding) : Summary :=
  {| total_findings := length fs;
     critical_findings := count_severity CRITICAL fs;
     high_findings := count_severity HIGH fs;
     medium_findings := count_severity MEDIUM fs;
     low_findings := count_severity LOW fs;
     total_secret_types := length secrets;
     total_evidences := list_sum (map (fun kv => length (snd kv)) secrets) |}.

(** [build_json_report(secrets)] *)
Definition build_json_report (secrets : Buckets) : M World (exn + Report) :=
  r <- build_findings secrets [] 0 ;;
  match r with
  | inl ex => ret (inl ex)
  | inr (fs, max_score) =>
      let risk :=
        match fs with
        | [] => Some INFO
        | _ => label_of_rank highest_rank max_score
        end in
      match risk with
      | None => ret (inl (KeyError []))
      | Some overall =>
          ts <- now ;;
          ret (inr {| overall_risk := overall;
                      summary := make_summary secrets fs;
                      findings := sorted_reverse (fun f => rank (severity f)) fs;
                      analysis_type := py "api_exposure";
                      report_timestamp := ts |})
      end
  end.

End WithRuntime.

End Aggregator.

(* ================================================================== *)
(** * A small world to run the engine in *)
(* ================================================================== *)

(** A concrete instance of [Runtime], used to run the model on examples:
    a table of child processes, three HTTP endpoints of which one never
    answers, a fixed catalog, and oracles with canned answers. *)

Module Demo.

Record world : Type := mkWorld {
  live : list pid;                    (* children that have not exited *)
  started : list (pid * list str);    (* every child started, newest first *)
  next_pid : pid
}.

Definition boot : world := mkWorld [] [] 0.

Definition push (c : ascii) (cur : option str) : option str :=
  match cur with
  | Some t => Some (c :: t)
  | None => Some [c]
  end.

Definition flush (cur : option str) (rest : list str) : list str :=
  match cur with
  | Some t => rev t :: rest
  | None => rest
  end.

(** Words separated by white space, with single and double quotes
    grouping; [None] on an unclosed quote. *)
Fixpoint words (quote : option ascii) (cur : option str) (s : str) : option (list str) :=
  match s with
  | [] =>
      match quote with
      | Some _ => None
      | None => Some (flush cur [])
      end
  | c :: s' =>
      match quote with
      | Some q =>
          if Ascii.eqb c q then words None cur s'
          else words quote (push c cur) s'
      | None =>
          if Str.is_space c then option_map (flush cur) (words None None s')
          else if Ascii.eqb c DQ || Ascii.eqb c "'"
               then words (Some c) (match cur with None => Some [] | _ => cur end) s'
               else words None (push c cur) s'
      end
  end.

Definition split_words (cmd : str) : exn + list str :=
  match words None None cmd with
  | Some ws => inr ws
  | None => inl (Raised (py "No closing quotation"))
  end.

Definition good_token : str := py "ghp_live0123456789abcdefghij".
Definition dead_token : str := py "ghp_dead0123456789abcdefghij".

(** What the child started with [args] does: [None] when it never ends. *)
Definition service (args : list str) : option (Z * str * str) :=
  if Str.mem (py "https://slow.example.com/ping") args then None
  else if Str.mem (py "https://api.github.com/user") args then
    if Str.mem (py "Authorization: token " ++ good_token) args
    then Some (0%Z, py "{login: octocat}" ++ [LF], [])
    else Some (0%Z, py "{message: 401 Unauthorized}" ++ [LF], [])
  else if Str.mem (py "https://status.example.com/health") args then
    Some (0%Z, py "ok" ++ [LF], [])
  else Some (6%Z, [], py "curl: (6) Could not resolve host").

Definition start (args : list str) (w : world) : (exn + pid) * world :=
  match args with
  | [] => (inl (Raised (py "missing program")), w)
  | _ =>
      let p := next_pid w in
      (inr p, mkWorld (p :: live w) ((p, args) :: started w) (S p))
  end.

Fixpoint args_of (p : pid) (tbl : list (pid * list str)) : list str :=
  match tbl with
  | [] => []
  | (q, a) :: rest => if Nat.eqb p q then a else args_of p rest
  end.

(** Waiting for a child under a timeout: a child that ends is reaped and
    leaves the table; when the timeout fires the wait is abandoned and
    the table stays as it is. *)
Definition wait (p : pid) (timeout : nat) (w : world)
  : (exn + Z * str * str) * world :=
  match service (args_of p (started w)) with
  | Some r =>
      (inr r, mkWorld (filter (fun q => negb (Nat.eqb q p)) (live w))
                      (started w) (next_pid w))
  | None => (inl TimeoutError, w)
  end.

Definition catalog : str :=
  py "# Key verifier" ++ [LF] ++ [LF] ++
  py "## GitHub Token" ++ [LF] ++
  py "```" ++ [LF] ++
  Catalog.github_template ++ [LF] ++
  py "```" ++ [LF] ++ [LF] ++
  py "## Slow Service" ++ [LF] ++
  py "```bash" ++ [LF] ++
  py "curl https://slow.example.com/ping -d key=API_KEY_HERE" ++ [LF] ++
  py "curl -H 'Authorization: token TOKEN_HERE' https://api.github.com/user" ++ [LF] ++
  py "```" ++ [LF] ++ [LF] ++
  py "## Static Check" ++ [LF] ++
  py "curl https://status.example.com/health" ++ [LF].

Definition demo_classify (stype : str) (w : world) : (exn + str * str) * world :=
  if Str.eqb stype (py "Broken Type") then (inl (Raised (py "classification failed")), w)
  else if Str.eqb stype (py "AWS Key") then (inr (Aggregator.CRITICAL, py "Cloud account key."), w)
  else if Str.eqb stype (py "GitHub Token") then (inr (Aggregator.HIGH, py "Repository access token."), w)
  else if Str.eqb stype (py "Static Check") then (inr (Aggregator.HIGH, py "Status page key."), w)
  else if Str.eqb stype (py "Slow Service") then (inr (Aggregator.LOW, py "Test key."), w)
  else (inr (Aggregator.INFO, py "Unclassified."), w).

Definition demo_remediation (stype : str) (w : world) : (exn + list str) * world :=
  (inr [py "Revoke the exposed credential."; py "Rotate it."; py "Scan for leaks."], w).

Definition demo_verifier (stype ev cmd : str) (w : world) : (exn + str * str) * world :=
  if Str.eqb stype (py "Static Check") then (inl (Raised (py "oracle unavailable")), w)
  else (inr (py "UNKNOWN", py "Run the command to find out."), w).

#[export] Instance runtime : Runtime world := {
  classify := demo_classify;
  Remediation_Agent := demo_remediation;
  verifier := demo_verifier;
  shlex_split := split_words;
  create_subprocess_exec := start;
  wait_for_communicate := wait;
  read_key_verifier_md := fun _ => inr (Some catalog);
  now_isoformat := fun _ => py "2025-01-01T00:00:00"
}.

Definition dump : str :=
  py "[ + ] URL: https://shop.example.com/static/app.js" ++ [LF] ++
  py "GitHub Token -> " ++ dead_token ++ [LF] ++
  py "AWS Key -> AKIA1234567890ABCD12" ++ [LF] ++
  py "not an evidence line" ++ [LF] ++
  py "GitHub Token -> " ++ good_token ++ [LF] ++
  py "Slow Service -> sk_test_abcdefghijklmnop" ++ [LF] ++
  py "Static Check -> status-page-key" ++ [LF].

Definition secrets : Buckets := Parser.parse_secret_file Parser.simple_url_path dump.

Definition rec (ev : str) : EvidenceRecord :=
  mkEvidence ev (py "app.js") (py "https://shop.example.com/static/app.js").

(** The engine in this world. *)
Definition verify (stype : str) (evid_list : list EvidenceRecord)
  : M world Verification :=
  Verifier._verify_secret_type stype evid_list.

Definition report (secrets : Buckets) : M world (exn + Report) :=
  Aggregator.build_json_report secrets.

End Demo.


(* ================================================================== *)
(** * Vocabulary of the properties *)
(* ================================================================== *)

(** [a] occurs in [b] as a run of consecutive characters. *)
Definition Substring (a b : str) : Prop := exists l r, b = l ++ a ++ r.

Fixpoint dropwhile (q : ascii -> bool) (s : str) : str :=
  match s with
  | c :: s' => if q c then dropwhile q s' else s
  | [] => []
  end.

Fixpoint takewhile (q : ascii -> bool) (s : str) : str :=
  match s with
  | c :: s' => if q c then c :: takewhile q s' else []
  | [] => []
  end.

(** The complement of a character class. *)
Definition outside (p : ascii -> bool) (c : ascii) : bool := negb (p c).

(** What [re.sub] with an empty replacement keeps of a piece of the
    subject. *)
Definition kept (x : ascii + str * Re.groups) : str :=
  match x with inl c => [c] | inr (_, _) => [] end.

(** No failure marker occurs in [s], whatever the case of its letters. *)
Definition marker_free (s : str) : Prop :=
  forall w, In w Verifier.failure_markers -> ~ Substring w (Str.lower s).


(** [satisfies m Q]: whatever the world, the result of [m] and the events
    it emits are related by [Q]. *)
Definition satisfies {World A : Type} (m : M World A) (Q : A -> list event -> Prop)
  : Prop :=
  forall w a w' t, m w = (a, w', t) -> Q a t.

Module VerifierSpec.

(** [verified] implies [attempted], on the local variables. *)
Definition flags_ok (l : Verifier.locals) : Prop :=
  Verifier.l_verified l = true -> Verifier.l_attempted l = true.

(** [x] records a run of template [cmd]: one that raised, or one that
    ran to its end. *)
Definition ran (cmd : str) (x : AttemptResult) : Prop :=
  (exists ev ai ex, x = Verifier.failed_result cmd ev ai ex) \/
  (exists ev ai code out err executed_cmd,
      x = Verifier.executed_result cmd ev ai code out err executed_cmd).

(** The per-template variables while the evidence of [cmd] is tried: a
    template without placeholder is never attempted nor verified and
    keeps no result; the kept result records a run of [cmd]; an attempted
    template has one. *)
Definition template_ok (cmd : str) (l : Verifier.locals) : Prop :=
  (Verifier.has_placeholder cmd = false ->
   Verifier.l_cmd_attempted l = false /\ Verifier.l_best_result l = None /\
   Verifier.l_cmd_verified l = false) /\
  (forall x, Verifier.l_best_result l = Some x -> ran cmd x) /\
  (Verifier.l_cmd_attempted l = true <-> Verifier.l_best_result l <> None).

(** Between two templates, [verified] tells whether [results] holds a
    success. *)
Definition verified_ok (l : Verifier.locals) : Prop :=
  Verifier.l_verified l = true <->
  exists x, In x (Verifier.l_results l) /\ success x = true.

(** While the evidence of a template is tried, [cmd_verified] tells
    whether the kept result is a success, and [verified] whether that or
    an earlier entry is. *)
Definition success_ok (l : Verifier.locals) : Prop :=
  (Verifier.l_cmd_verified l = true <->
   exists x, Verifier.l_best_result l = Some x /\ success x = true) /\
  (Verifier.l_verified l = true <->
   Verifier.l_cmd_verified l = true \/
   exists x, In x (Verifier.l_results l) /\ success x = true).

(** The events that the work on template [cmd] may emit: requests for
    guidance on [cmd], and subprocesses started for [cmd], the latter only
    if [cmd] holds a placeholder. *)
Definition about (secret_type cmd : str) (e : event) : Prop :=
  match e with
  | EvGuidance s _ c _ => s = secret_type /\ c = cmd
  | EvSpawn template _ => template = cmd /\ Verifier.has_placeholder cmd = true
  | _ => False
  end.

(** [ai] is what [ai_status, ai_analysis] were bound to after a request
    for guidance on evidence [ev] and template [cmd] made during [t]. *)
Definition guided (secret_type ev cmd : str) (t : list event) (ai : str * str) : Prop :=
  exists resp,
    In (EvGuidance secret_type ev cmd resp) t /\ ai = Verifier.guidance resp.

(** The evidence value tried last for a template that is never run. *)
Definition last_tried (evidence_strings : list str) : str :=
  last (firstn 5 evidence_strings) [].

(** [x] is the entry of [results] for template [cmd]: the record of a
    run if [cmd] holds a placeholder, and otherwise the record without
    a run, with the guidance given on the last evidence value tried. *)
Definition entry_for (secret_type : str) (evidence_strings : list str)
  (t : list event) (cmd : str) (x : AttemptResult) : Prop :=
  command x = cmd /\
  (Verifier.has_placeholder cmd = true -> ran cmd x) /\
  (Verifier.has_placeholder cmd = false ->
   exists ai,
     x = Verifier.guidance_only_result cmd ai /\
     guided secret_type (last_tried evidence_strings) cmd t ai).

End VerifierSpec.

(** The three components of a run. *)
Definition run_result {World A : Type} (m : M World A) (w : World) : A :=
  fst (fst (m w)).

Definition run_world {World A : Type} (m : M World A) (w : World) : World :=
  snd (fst (m w)).

Definition run_events {World A : Type} (m : M World A) (w : World) : list event :=
  snd (m w).

(** The rank of the severity of a finding, the key of the final sort. *)
Definition severity_rank (f : Finding) : nat := Aggregator.rank (severity f).

(** The five labels of [highest_rank]. *)
Definition severity_labels : list str :=
  [Aggregator.CRITICAL; Aggregator.HIGH; Aggregator.MEDIUM; Aggregator.LOW;
   Aggregator.INFO].

Module Examples.

(** Three buckets whose classifications are HIGH, CRITICAL and LOW. *)
Definition three_buckets : Buckets :=
  [(py "GitHub Token", [Demo.rec Demo.good_token]);
   (py "AWS Key", [Demo.rec (py "AKIA1234567890ABCD12")]);
   (py "Slow Service", [Demo.rec (py "sk_test_abcdefghijklmnop")])].

(** Three buckets, the second of which the oracle fails to classify. *)
Definition broken_buckets : Buckets :=
  [(py "GitHub Token", [Demo.rec Demo.good_token]);
   (py "Broken Type", [Demo.rec (py "0123456789abcdef")]);
   (py "AWS Key", [Demo.rec (py "AKIA1234567890ABCD12")])].

Definition classification_failed : exn := Raised (py "classification failed").


(** A dump whose only line is a URL line that holds the separator. *)
Definition url_with_arrow : str := py "[ + ] URL: https://x.com/a->b.js".

(** The evidence of the secret type whose first template reaches the
    endpoint that never answers. *)
Definition slow_evidence : list EvidenceRecord :=
  [Demo.rec (py "sk_test_abcdefghijklmnop")].

Definition slow_args : list str :=
  [py "curl"; py "https://slow.example.com/ping"; py "-d";
   py "key=sk_test_abcdefghijklmnop"].

End Examples.

(** The reading of a dump that the parser is compared with. *)
Module ParserSpec.

Definition arrow : str := py "->".

(** An evidence line: not a URL line, and it holds the separator. *)
Definition is_evidence_line (line : str) : bool :=
  negb (Parser.is_url_line line) && Str.contains arrow line.

(** [a] and [b] are what precedes and what follows the first separator
    of [line]. *)
Definition arrow_sides (line a b : str) : Prop :=
  line = a ++ arrow ++ b /\
  forall p q, line = p ++ arrow ++ q -> length a <= length p.

Section WithUrlparse.

Variable urlparse_path : str -> option str.

(** The rows of a dump: one per evidence line, in line order, each with
    its secret type; URL lines set the URL of the rows that follow. *)
Fixpoint rows (current_url : str) (raws : list str) : list (str * EvidenceRecord) :=
  match raws with
  | [] => []
  | raw :: rest =>
      let line := Str.strip raw in
      if Parser.is_url_line line then rows (Parser.url_of_line line) rest
      else if Str.contains arrow line then
        (fst (Parser.split_arrow line),
         mkEvidence (snd (Parser.split_arrow line))
                    (Parser.filename_of urlparse_path (snd (Parser.split_arrow line))
                                        current_url)
                    current_url)
        :: rows current_url rest
      else rows current_url rest
  end.

Definition rows_of_dump (dump : str) : list (str * EvidenceRecord) :=
  rows Parser.Unknown (Str.file_lines dump).

End WithUrlparse.

(** The records of the rows of secret type [k], in order. *)
Definition bucket_of (k : str) (rs : list (str * EvidenceRecord)) : list EvidenceRecord :=
  map snd (filter (fun row => Str.eqb (fst row) k) rs).

(** A row enters the bucket of its secret type. *)
Definition append_row (d : Buckets) (row : str * EvidenceRecord) : Buckets :=
  Parser.bucket_append (fst row) (snd row) d.

Definition add_key (acc : list str) (k : str) : list str :=
  if Str.mem k acc then acc else acc ++ [k].

(** The keys of a sequence without repetition, in order of first
    appearance. *)
Definition first_seen (keys : list str) : list str := fold_left add_key keys [].

End ParserSpec.


(* ================================================================== *)
(** * The attempts on a template, told one by one *)
(* ================================================================== *)

(** A second account of the loops of [_verify_secret_type], after the
    comment of the source on the result it keeps, "successful ones
    first, then by evidence order": the attempts on a template are made
    and recorded one after the other, and the entry of the template is
    chosen among the records afterwards. *)
Module Attempts.

(** The record kept among those of the attempts on one template: the
    first success, and the first record when no attempt succeeded. *)
Definition best (rs : list AttemptResult) : option AttemptResult :=
  match find success rs with
  | Some r => Some r
  | None => hd_error rs
  end.

Section WithRuntime.

Context {World : Type} {RT : Runtime World}.

(** One attempt: the guidance is asked for, the command is run with the
    evidence value as token, and the outcome is recorded. *)
Definition attempt_record (secret_type cmd ev : str) : M World AttemptResult :=
  a <- Verifier.ask_verifier secret_type ev cmd ;;
  r <- Verifier.run_command cmd ev 20 ;;
  ret (match r with
       | inr (code, out, err, executed_cmd) =>
           Verifier.executed_result cmd ev (Verifier.guidance a)
                                    code out err executed_cmd
       | inl ex => Verifier.failed_result cmd ev (Verifier.guidance a) ex
       end).

(** The attempts on a template, in the order of the evidence values; no
    further attempt is made after a success. *)
Fixpoint attempt_records (secret_type cmd : str) (evs : list str)
  : M World (list AttemptResult) :=
  match evs with
  | [] => ret []
  | ev :: rest =>
      r <- attempt_record secret_type cmd ev ;;
      if success r then ret [r]
      else rs <- attempt_records secret_type cmd rest ;; ret (r :: rs)
  end.

(** The guidance asked for on each evidence value for a template that is
    not run; what is left is the answer to the last request. *)
Fixpoint last_guidance (secret_type cmd : str) (evs : list str)
  (ai : option (str * str)) : M World (option (str * str)) :=
  match evs with
  | [] => ret ai
  | ev :: rest =>
      a <- Verifier.ask_verifier secret_type ev cmd ;;
      last_guidance secret_type cmd rest (Some (Verifier.guidance a))
  end.

(** The entry of one template: the best record of its attempts, or the
    record without a run when the template holds no placeholder. *)
Definition entry (secret_type : str) (evs : list str) (cmd : str)
  : M World (option AttemptResult) :=
  if Verifier.has_placeholder cmd then
    rs <- attempt_records secret_type cmd evs ;;
    ret (best rs)
  else
    ai <- last_guidance secret_type cmd evs None ;;
    ret (option_map (Verifier.guidance_only_result cmd) ai).

(** The entries of the templates, in order. *)
Fixpoint entries (secret_type : str) (evs : list str) (cmds : list str)
  : M World (list AttemptResult) :=
  match cmds with
  | [] => ret []
  | cmd :: rest =>
      x <- entry secret_type evs cmd ;;
      xs <- entries secret_type evs rest ;;
      ret (match x with
           | Some x => x :: xs
           | None => xs
           end)
  end.

End WithRuntime.

End Attempts.

(* ================================================================== *)
(** * The small world with an oracle that answers *)
(* ================================================================== *)

(** The world of [Demo], with a verifier oracle that answers every
    request, naming the evidence value it was asked about. *)
Module Advisor.

Definition advice (stype ev cmd : str) (w : Demo.world)
  : (exn + str * str) * Demo.world :=
  (inr (py "REVIEW", py "No key in the command; evidence seen: " ++ ev), w).

#[export] Instance runtime : Runtime Demo.world := {
  classify := Demo.demo_classify;
  Remediation_Agent := Demo.demo_remediation;
  verifier := advice;
  shlex_split := Demo.split_words;
  create_subprocess_exec := Demo.start;
  wait_for_communicate := Demo.wait;
  read_key_verifier_md := fun _ => inr (Some Demo.catalog);
  now_isoformat := fun _ => py "2025-01-01T00:00:00"
}.

(** The engine in this world. *)
Definition verify (stype : str) (evid_list : list EvidenceRecord)
  : M Demo.world Verification :=
  Verifier._verify_secret_type stype evid_list.

End Advisor.
From Stdlib Require DecimalString.

(* ================================================================== *)
(** * More of Python's [str] and [re] *)
(* ================================================================== *)

(** The methods and functions that the rest of the sources use:
    [str.endswith], [str.strip(chars)], [str(n)], the order of strings,
    [sorted], [list(set(...))] and [re.search]. *)

Module Text.

(** [s.endswith(suffix)] *)
Definition endswith (suffix s : str) : bool :=
  Str.startswith (rev suffix) (rev s).

Fixpoint lstrip_of (chars s : str) : str :=
  match s with
  | c :: s' => if existsb (Ascii.eqb c) chars then lstrip_of chars s' else s
  | [] => []
  end.

(** [s.strip(chars)] *)
Definition strip_of (chars s : str) : str :=
  rev (lstrip_of chars (rev (lstrip_of chars s))).

(** [str(n)] for a natural number. *)
Definition of_nat (n : nat) : str :=
  py (DecimalString.NilZero.string_of_uint (Nat.to_uint n)).

(** [str(z)] for an integer. *)
Definition of_Z (z : Z) : str :=
  py (DecimalString.NilZero.string_of_int (Z.to_int z)).

(** [a < b] on strings: the order of the code points, a proper prefix
    coming first. *)
Fixpoint ltb (a b : str) : bool :=
  match a, b with
  | _, [] => false
  | [], _ :: _ => true
  | x :: a', y :: b' =>
      (Str.code x <? Str.code y)%N || ((Str.code x =? Str.code y)%N && ltb a' b')
  end.

Fixpoint insert_asc (x : str) (l : list str) : list str :=
  match l with
  | [] => [x]
  | y :: l' => if ltb y x then y :: insert_asc x l' else x :: l
  end.

(** [sorted(xs)] for a list of strings. *)
Fixpoint sorted (l : list str) : list str :=
  match l with
  | [] => []
  | x :: l' => insert_asc x (sorted l')
  end.

(** The elements of [set(xs)], each once.  The order in which a set is
    iterated is not specified; the one use of this program sorts the
    elements right away. *)
Definition distinct (xs : list str) : list str :=
  nodup (list_eq_dec ascii_dec) xs.

End Text.

Module Regex.

(** The pattern that matches the empty text. *)
Definition empty : Re.regex := Re.Rep true 0 (fun _ => false).

(** A pattern without special characters (after unescaping). *)
Definition literal (w : str) : Re.regex := Re.lit false w empty.

(** [p{n}] followed by [rest]. *)
Fixpoint times (n : nat) (p : ascii -> bool) (rest : Re.regex) : Re.regex :=
  match n with
  | O => rest
  | S m => Re.Seq (Re.Chr p) (times m p rest)
  end.

(** The scan of [re.search]: the first position, from the left, where
    the pattern matches; the answer is the matched text with its
    groups. *)
Fixpoint search_go (r : Re.regex) (prev : option ascii) (s : str)
  : option (str * Re.groups) :=
  match Re.rmatch r prev s [] Re.stop with
  | Some (t, g) => Some (firstn (length s - length t) s, g)
  | None =>
      match s with
      | [] => None
      | c :: s' => search_go r (Some c) s'
      end
  end.

(** [re.search(r, s)] *)
Definition search (r : Re.regex) (s : str) : option (str * Re.groups) :=
  search_go r None s.

End Regex.

(* ================================================================== *)
(** * Verification of one curl command ([secret_verifier.py]) *)
(* ================================================================== *)

Module Evidence.

(** [token_patterns] of [parse_curl_evidence]: each pattern with its
    source text, which is what the function returns. *)
Definition token_patterns : list (str * Re.regex) :=
  [(BS :: py "$TOKEN", Regex.literal (py "$TOKEN"));
   (BS :: py "$API_KEY", Regex.literal (py "$API_KEY"));
   (BS :: py "$TOKEN_HERE", Regex.literal (py "$TOKEN_HERE"));
   (py "<your_token>", Regex.literal (py "<your_token>"));
   (py "API_KEY_HERE", Regex.literal (py "API_KEY_HERE"));
   (py "TOKEN_HERE", Regex.literal (py "TOKEN_HERE"))].

(** [for pattern in token_patterns: if re.search(pattern, evidence): ...] *)
Fixpoint first_pattern (patterns : list (str * Re.regex)) (evidence : str)
  : option str :=
  match patterns with
  | [] => None
  | (pattern, r) :: rest =>
      match Regex.search r evidence with
      | Some _ => Some pattern
      | None => first_pattern rest evidence
      end
  end.

(** [parse_curl_evidence(evidence)]; the second component is [None] when
    no pattern is found. *)
Definition parse_curl_evidence (evidence : str) : str * option str :=
  (evidence, first_pattern token_patterns evidence).

(** The error words of [verify_secret_with_evidence]. *)
Definition error_words : list str :=
  [py "unauthorized"; py "forbidden"; py "invalid"; py "authentication failed";
   py "access denied"].

(** [a, b, c = t] for a tuple [t] of four values: the assignment raises
    [ValueError]. *)
Definition unpack3 (A B C D : Type) (t : A * B * C * D) : exn + A * B * C :=
  inl (Raised (py "too many values to unpack (expected 3)")).

Definition not_curl : str := py "Error: Evidence must be a curl command".

Definition executing : str := py "Error executing command: ".

Section WithRuntime.

Context {World : Type} {RT : Runtime World}.

(** [verify_secret_with_evidence(evidence, token, timeout)]: the tuple
    [(success, exit_code, stdout, stderr)]. *)
Definition verify_secret_with_evidence (evidence token : str) (timeout : nat)
  : M World (bool * Z * str * str) :=
  let (command, placeholder) := parse_curl_evidence evidence in
  if negb (Str.startswith (py "curl") (Str.lower (Str.strip command))) then
    ret (false, (-1)%Z, [], not_curl)
  else
    r <- Verifier.run_command command token timeout ;;
    match r with
    | inl e => ret (false, (-1)%Z, [], executing ++ str_of_exn e)
    | inr t =>
        match unpack3 t with
        | inl e => ret (false, (-1)%Z, [], executing ++ str_of_exn e)
        | inr (exit_code, stdout, stderr) =>
            let success :=
              (exit_code =? 0)%Z
              && negb (existsb (fun error => Str.contains error (Str.lower stderr))
                               error_words) in
            ret (success, exit_code, stdout, stderr)
        end
    end.

End WithRuntime.

End Evidence.

(* ================================================================== *)
(** * Candidate tokens ([json_report.py]) *)
(* ================================================================== *)

Module Candidate.

(** [[A-Za-z0-9-]] *)
Definition is_alnum_dash (c : ascii) : bool :=
  Str.is_ascii_alnum c || Ascii.eqb c "-".

(** [[0-9A-Za-z\-_]] *)
Definition is_token_char (c : ascii) : bool :=
  Str.is_ascii_alnum c || Ascii.eqb c "-" || Ascii.eqb c "_".

(** [[0-9A-Z]] *)
Definition is_upper_digit (c : ascii) : bool :=
  Str.is_digit c || Str.is_ascii_upper c.

(** [[baprs]] *)
Definition is_baprs (c : ascii) : bool :=
  existsb (Ascii.eqb c) (py "baprs").

(** [token_patterns] of [_extract_candidate_token]. *)
Definition token_patterns : list Re.regex :=
  [ (* sk_live_[A-Za-z0-9]{16,} *)
    Re.lit false (py "sk_live_") (Re.Rep true 16 Str.is_ascii_alnum);
    (* sk_test_[A-Za-z0-9]{16,} *)
    Re.lit false (py "sk_test_") (Re.Rep true 16 Str.is_ascii_alnum);
    (* xox[baprs]-[A-Za-z0-9-]{16,} *)
    Re.lit false (py "xox")
      (Re.Seq (Re.Chr is_baprs)
         (Re.lit false (py "-") (Re.Rep true 16 is_alnum_dash)));
    (* ghp_[A-Za-z0-9]{20,} *)
    Re.lit false (py "ghp_") (Re.Rep true 20 Str.is_ascii_alnum);
    (* AIza[0-9A-Za-z\-_]{20,} *)
    Re.lit false (py "AIza") (Re.Rep true 20 is_token_char);
    (* AKIA[0-9A-Z]{16} *)
    Re.lit false (py "AKIA") (Regex.times 16 is_upper_digit Regex.empty);
    (* EAACEdEose0cBA[0-9A-Za-z]{10,} *)
    Re.lit false (py "EAACEdEose0cBA") (Re.Rep true 10 Str.is_ascii_alnum);
    (* [A-Za-z0-9_\-]{24,} *)
    Re.Rep true 24 is_token_char ].

(** [[A-Za-z0-9_\-]{20,}] *)
Definition chunk : Re.regex := Re.Rep true 20 is_token_char.

(** The inner loop of the first pass: the text of the first pattern, in
    the order of [token_patterns], found in [ev]. *)
Fixpoint first_match (patterns : list Re.regex) (ev : str) : option str :=
  match patterns with
  | [] => None
  | pat :: rest =>
      match Regex.search pat ev with
      | Some m => Some (fst m)
      | None => first_match rest ev
      end
  end.

(** The first pass over the evidence strings. *)
Fixpoint first_pass (evidence_strings : list str) : option str :=
  match evidence_strings with
  | [] => None
  | ev :: rest =>
      match first_match token_patterns ev with
      | Some m => Some m
      | None => first_pass rest
      end
  end.

(** [if best is None or len(chunk) > len(best): best = chunk] *)
Definition longer (best : option str) (c : str) : option str :=
  match best with
  | None => Some c
  | Some b => if length b <? length c then Some c else best
  end.

(** The second pass: the longest chunk, the earliest among equals. *)
Definition second_pass (evidence_strings : list str) : option str :=
  fold_left
    (fun best ev => fold_left longer (map fst (Re.findall chunk ev)) best)
    evidence_strings None.

(** [_extract_candidate_token(evidence_strings)] *)
Definition _extract_candidate_token (evidence_strings : list str) : option str :=
  match first_pass evidence_strings with
  | Some m => Some m
  | None => second_pass evidence_strings
  end.

End Candidate.

(* ================================================================== *)
(** * Names of the report files ([Api_Exposure_classifier.py], [main]) *)
(* ================================================================== *)

Module Classifier.

(** [[^A-Za-z0-9]+] *)
Definition non_alnum_run : Re.regex :=
  Re.Rep true 1 (fun c => negb (Str.is_ascii_alnum c)).

(** The label of a run without target. *)
Definition default_label : str := py "report".

Section WithUrlparse.

(** [urlparse(u).netloc] of the standard library, or the exception. *)
Variable urlparse_netloc : str -> exn + str.

(** [base_label] before it is sanitized: the host of the target URL when
    one is given, the URL itself when it has no host or cannot be
    parsed. *)
Definition raw_label (target_url : option str) : str :=
  match target_url with
  | None => default_label
  | Some [] => default_label
  | Some u =>
      match urlparse_netloc u with
      | inr [] => u
      | inr netloc => netloc
      | inl _ => u
      end
  end.

(** [re.sub(r"[^A-Za-z0-9]+", "_", base_label).strip("_") or "report"] *)
Definition sanitize (base_label : str) : str :=
  match Text.strip_of (py "_")
          (Re.sub non_alnum_run (fun _ => py "_") base_label) with
  | [] => default_label
  | label => label
  end.

(** [base_label] of [main], as it enters the names of the reports. *)
Definition base_label (target_url : option str) : str :=
  sanitize (raw_label target_url).

(** The name of a report file in [reports/], for one of the extensions
    [.json], [.md] and [.pdf]. *)
Definition report_name (target_url : option str) (timestamp ext : str) : str :=
  base_label target_url ++ py "_api_exposure_report_" ++ timestamp ++ ext.

End WithUrlparse.

End Classifier.

(* ================================================================== *)
(** * Discovery of scripts and secrets ([Exposure_Discovery.py]) *)
(* ================================================================== *)

Module Discovery.

(** The dict that [run_secret_analysis] builds for one secret. *)
Record SecretInfo : Type := mkSecret {
  file : str;
  secret : str;
  type : str;
  line : option nat;
  context : str
}.

(** The collaborators of the discovery: the crawler run in Docker and
    SecretFinder. *)
Class Tools (World : Type) : Type := {
  (** [asyncio.create_subprocess_exec] on the command, then
      [communicate()]: the return code and what [stdout.decode()]
      gives, the text or the exception *)
  run_and_communicate : list str -> World -> (exn + Z * (exn + str)) * World;
  (** the import of [find_secrets] *)
  import_find_secrets : World -> option exn;
  (** [find_secrets(input_value=js_url, mode="cli", extract=False)]:
      [Some] for a list, [None] for any other value *)
  find_secrets : str -> World -> (exn + option (list str)) * World
}.

(** The command of the crawler. *)
Definition katana_command (target_url max_pages depth : str) : list str :=
  [py "docker"; py "run"; py "--rm";
   py "--network"; py "host";
   py "projectdiscovery/katana:latest";
   py "-u"; target_url;
   py "-jc"; max_pages;
   py "-d"; depth;
   py "-system-chrome";
   py "-headless"].

(** The script URLs in the output of the crawler. *)
Definition js_files_of (stdout : str) : list str :=
  let urls := Str.split [LF] (Str.strip stdout) in
  let js_files :=
    flat_map (fun url =>
                match Str.strip url with
                | [] => []
                | _ => if Text.endswith (py ".js") (Str.lower url)
                       then [Str.strip url] else []
                end)
             urls in
  Text.sorted (Text.distinct js_files).

Definition unknown_type : str := py "Unknown".

(** [secret_info] for one value that SecretFinder returned. *)
Definition secret_info (js_url s : str) : SecretInfo :=
  {| file := js_url; secret := s; type := unknown_type; line := None; context := s |}.

Section WithTools.

Context {World : Type} {TL : Tools World}.

(** [run_katana_discovery(target_url, max_pages, depth)] *)
Definition run_katana_discovery (target_url max_pages : str) (depth : Z)
  : World -> list str * World :=
  fun w =>
    let cmd := katana_command target_url max_pages (Text.of_Z depth) in
    match run_and_communicate cmd w with
    | (inl _, w') => ([], w')
    | (inr (returncode, decoded), w') =>
        if negb (returncode =? 0)%Z then ([], w')
        else match decoded with
             | inl _ => ([], w')
             | inr stdout => (js_files_of stdout, w')
             end
    end.

(** The loop of [run_secret_analysis] over the URLs: a URL for which
    SecretFinder raises, or returns no list, adds nothing. *)
Fixpoint analyse (js_urls : list str) (all_secrets : list SecretInfo) (w : World)
  : list SecretInfo * World :=
  match js_urls with
  | [] => (all_secrets, w)
  | js_url :: rest =>
      match find_secrets js_url w with
      | (inr (Some secrets), w') =>
          analyse rest (all_secrets ++ map (secret_info js_url) secrets) w'
      | (_, w') => analyse rest all_secrets w'
      end
  end.

(** [run_secret_analysis(js_urls)] *)
Definition run_secret_analysis (js_urls : list str) (w : World)
  : list SecretInfo * World :=
  match import_find_secrets w with
  | Some _ => ([], w)
  | None => analyse js_urls [] w
  end.

End WithTools.

(** The text that [create_secret_dump] writes to its temporary file;
    [generated] is [datetime.now().isoformat()]. *)
Definition secret_dump_text (secrets : list SecretInfo) (generated : str) : str :=
  py "SecretFinder Analysis Results" ++ [LF] ++
  py "Generated: " ++ generated ++ [LF] ++
  py "Total files analyzed: "
     ++ Text.of_nat (length (Text.distinct (map file secrets))) ++ [LF] ++
  py "Total secrets found: " ++ Text.of_nat (length secrets) ++ [LF] ++
  repeat "="%char 60 ++ [LF] ++ [LF] ++
  flat_map (fun secret_info =>
              py "File: " ++ file secret_info ++ [LF] ++
              py "Secret: " ++ secret secret_info ++ [LF] ++
              repeat "-"%char 40 ++ [LF])
           secrets.

End Discovery.

(* ================================================================== *)
(** * Vocabulary of the further properties *)
(* ================================================================== *)

Definition is_spawn (e : event) : bool :=
  match e with EvSpawn _ _ => true | _ => false end.

Definition is_guidance (e : event) : bool :=
  match e with EvGuidance _ _ _ _ => true | _ => false end.

(** The number of subprocesses started, and of requests for guidance
    made, during a run. *)
Definition spawns (t : list event) : nat := length (filter is_spawn t).

Definition requests (t : list event) : nat := length (filter is_guidance t).

(** A character that ends a line of a text file. *)
Definition is_newline (c : ascii) : bool := Ascii.eqb c LF || Ascii.eqb c CR.

(** [s] holds no character of the class [p]. *)
Definition free_of (p : ascii -> bool) (s : str) : Prop :=
  Forall (fun c => p c = false) s.

(** [s] is made of characters of the class [p]. *)
Definition made_of (p : ascii -> bool) (s : str) : Prop :=
  Forall (fun c => p c = true) s.

(** [s] neither starts nor ends with white space. *)
Definition stripped (s : str) : Prop := Str.strip s = s.

(** [s] starts with [curl], in any case of the letters. *)
Definition is_curl (s : str) : bool := Str.startswith (py "curl") (Str.lower s).

Module VerifierTrace.

Section WithRuntime.

Context {World : Type} {RT : Runtime World}.

(** What the work on template [cmd] with the evidence values [evs] may
    do: ask for guidance on [cmd] and one of [evs], and start the
    argument vector that [shlex.split] makes of [cmd] with one of [evs]
    put in. *)
Definition instance_of (secret_type : str) (evs : list str) (cmd : str) (e : event)
  : Prop :=
  match e with
  | EvGuidance s ev c _ => s = secret_type /\ c = cmd /\ In ev evs
  | EvSpawn template args =>
      template = cmd /\
      exists ev, In ev evs /\
                 shlex_split (Verifier.substitute cmd ev) = inr args
  | _ => False
  end.

End WithRuntime.

End VerifierTrace.

(** [bool(xs)] for a list. *)
Definition nonempty (A : Type) (l : list A) : bool :=
  match l with [] => false | _ => true end.

(** Whether a section of the catalog has a first line with a title. *)
Definition has_title (sec : str) : bool :=
  match Str.splitlines sec with
  | [] => false
  | line0 :: _ =>
      match Catalog.section_title line0 with
      | [] => false
      | _ => true
      end
  end.

(** The commands of all the sections of [secs], in order. *)
Definition commands_of_sections (secs : list str) : list str :=
  fold_left
    (fun commands sec => Catalog.section_commands commands (Catalog.section_body sec))
    secs [].

(** [re.sub] of the runs of characters outside the class [p] by the text
    [r]: each maximal run is replaced once. *)
Fixpoint squeeze (p : ascii -> bool) (r : str) (in_run : bool) (s : str) : str :=
  match s with
  | [] => []
  | c :: s' =>
      if p c then c :: squeeze p r false s'
      else if in_run then squeeze p r true s'
           else r ++ squeeze p r true s'
  end.

(** [f] is the finding that [build_json_report] makes of the bucket
    [kv]: the dict built from the answers of the two oracles and from a
    run of [_verify_secret_type] on the bucket. *)
Definition finding_of {World : Type} {RT : Runtime World}
  (kv : str * list EvidenceRecord) (f : Finding) : Prop :=
  exists risk desc steps ts (w : World),
    f = Aggregator.make_finding (fst kv) (snd kv) risk desc steps
          (run_result (Verifier._verify_secret_type (fst kv) (snd kv)) w) ts.

(** The label that the summary counts call for: the highest severity with
    a finding, [INFO] when the four counts are zero. *)
Definition risk_of_counts (s : Summary) : str :=
  if 0 <? critical_findings s then Aggregator.CRITICAL
  else if 0 <? high_findings s then Aggregator.HIGH
  else if 0 <? medium_findings s then Aggregator.MEDIUM
  else if 0 <? low_findings s then Aggregator.LOW
  else Aggregator.INFO.

(** The verification of an empty evidence list against an empty list of
    templates. *)
Definition nothing_to_verify : Verification :=
  {| commands := []; attempted := false; verified := false;
     verification_error := None; results := [] |}.

(** The three shapes of an entry of [results]. *)
Definition executed_shape (x : AttemptResult) : Prop :=
  exists code out err cmd,
    exit_code x = Some code /\ stdout x = Some out /\ stderr x = Some err /\
    executed_command x = Some cmd /\ error x = None /\
    length out <= 4000 /\ length err <= 4000 /\
    (success x = true -> code = 0%Z /\ out <> []).

Definition failed_shape (x : AttemptResult) : Prop :=
  exists msg,
    error x = Some msg /\ exit_code x = None /\ stdout x = None /\
    stderr x = None /\ executed_command x = None /\ success x = false.

Definition guidance_shape (x : AttemptResult) : Prop :=
  error x = None /\ exit_code x = None /\ stdout x = None /\
  stderr x = None /\ executed_command x = None /\ success x = false /\
  evidence_used x = Verifier.no_candidates.

(** [s] neither starts nor ends with white space (an empty [s]
    included). *)
Definition no_space_ends (s : str) : Prop :=
  match s with [] => True | c :: _ => Str.is_space c = false end /\
  match rev s with [] => True | c :: _ => Str.is_space c = false end.

(** [s] neither starts nor ends with the character [u]. *)
Definition no_ends (u : ascii) (s : str) : Prop :=
  match s with [] => True | c :: _ => c <> u end /\
  match rev s with [] => True | c :: _ => c <> u end.

(** An ASCII letter or digit, or the underscore. *)
Definition is_label_char (c : ascii) : bool :=
  Str.is_ascii_alnum c || Ascii.eqb c "_".



(** The URL lines of a dump, stripped. *)
Definition url_lines (dump : str) : list str :=
  filter Parser.is_url_line (map Str.strip (Str.file_lines dump)).

(** The evidence lines of a dump, stripped. *)
Definition evidence_lines (dump : str) : list str :=
  filter ParserSpec.is_evidence_line (map Str.strip (Str.file_lines dump)).

(** What every record of a parsed dump satisfies: its evidence is
    stripped, its file name holds no slash, and its URL is [Unknown] or
    the URL of one of the URL lines of the dump. *)
Definition well_formed_record (dump : str) (r : EvidenceRecord) : Prop :=
  stripped (evidence r) /\
  ~ In "/"%char (filename r) /\
  (url r = Parser.Unknown \/
   exists line, In line (url_lines dump) /\ url r = Parser.url_of_line line).

(** What every command of [extract_commands] satisfies: it starts with
    [curl] (in any case of the letters), it neither starts nor ends with
    white space, and it lies on one line. *)
Definition curl_line (c : str) : Prop :=
  is_curl c = true /\ stripped c /\ free_of is_newline c.

(** What [re.sub] puts for a piece of the subject when the replacement
    is the constant text [r]. *)
Definition put (r : str) (x : ascii + str * Re.groups) : str :=
  match x with inl c => [c] | inr (_, _) => r end.

(** [a < b] on strings. *)
Definition str_lt (a b : str) : Prop := Text.ltb a b = true.

(** What every script URL that [run_katana_discovery] returns satisfies:
    it ends with [.js] in any case of the letters, it has no white space
    at either end, and it lies on one line of the output. *)
Definition js_url (u : str) : Prop :=
  Text.endswith (py ".js") (Str.lower u) = true /\
  stripped u /\
  ~ In LF u.

(** The lines of the text that [create_secret_dump] writes. *)
Definition dump_lines (secrets : list Discovery.SecretInfo) (generated : str)
  : list str :=
  [py "SecretFinder Analysis Results";
   py "Generated: " ++ generated;
   py "Total files analyzed: "
      ++ Text.of_nat (length (Text.distinct (map Discovery.file secrets)));
   py "Total secrets found: " ++ Text.of_nat (length secrets);
   repeat "="%char 60;
   []]
  ++ flat_map (fun s => [py "File: " ++ Discovery.file s;
                         py "Secret: " ++ Discovery.secret s;
                         repeat "-"%char 40])
              secrets.

(** A secret type read from a dump of [create_secret_dump]. *)
Definition dump_key (k : str) : Prop :=
  Str.startswith (py "File:") k = true \/ Str.startswith (py "Secret:") k = true.

(** What SecretFinder answers on the scripts of [js_urls], asked in
    turn, each request in the world that the one before left. *)
Fixpoint finder_answers {World : Type} {TL : Discovery.Tools World}
  (js_urls : list str) (w : World) : list (exn + option (list str)) :=
  match js_urls with
  | [] => []
  | js_url :: rest =>
      fst (Discovery.find_secrets js_url w)
      :: finder_answers rest (snd (Discovery.find_secrets js_url w))
  end.

(** The records that one answer gives for its script: one for each
    secret of a list, in the order of the list, and none for an
    exception or for a value that is not a list. *)
Definition records_of_answer (js_url : str) (answer : exn + option (list str))
  : list Discovery.SecretInfo :=
  match answer with
  | inr (Some secrets) =>
      map (fun s => Discovery.mkSecret js_url s (py "Unknown") None s) secrets
  | inr None => []
  | inl _ => []
  end.

(** A crawler with a fixed output, and a SecretFinder that fails on one
    of the scripts, to run the discovery on. *)
Module DiscoveryDemo.

Definition crawl_output : str :=
  py " https://x.com/b.js" ++ [LF] ++
  py "https://x.com/a.JS" ++ [LF] ++
  py "https://x.com/page.html" ++ [LF] ++
  py "https://x.com/b.js" ++ [LF].

Definition google_key : str := py "google_api -> AIzaSyA1234567890abcdefghijklmnopqrstu".

Definition demo_find_secrets (js_url : str) (w : unit)
  : (exn + option (list str)) * unit :=
  if Str.eqb js_url (py "https://x.com/a.JS")
  then (inl (Raised (py "connection refused")), w)
  else if Str.eqb js_url (py "https://x.com/empty.js")
  then (inr None, w)
  else (inr (Some [google_key; py "ghp_0123456789abcdefghij0123"]), w).

#[export] Instance tools : Discovery.Tools unit := {
  run_and_communicate := fun _ w => (inr (0%Z, inr crawl_output), w);
  import_find_secrets := fun _ => None;
  find_secrets := demo_find_secrets
}.

Definition discover : list str :=
  fst (Discovery.run_katana_discovery (py "https://x.com") (py "x") 2 tt).

Definition analysis : list Discovery.SecretInfo :=
  fst (Discovery.run_secret_analysis discover tt).

Definition generated : str := py "2025-01-01T00:00:00".

End DiscoveryDemo.

(** What a pattern says of the texts it matches. *)
Module RegexSpec.

(** The least number of characters of a match. *)
Fixpoint min_length (r : Re.regex) : nat :=
  match r with
  | Re.Chr _ => 1
  | Re.Rep _ lo _ => lo
  | Re.Seq r1 r2 => min_length r1 + min_length r2
  | Re.Grp _ r1 => min_length r1
  | _ => 0
  end.

(** The characters that a match may hold. *)
Fixpoint in_class (r : Re.regex) (c : ascii) : bool :=
  match r with
  | Re.Chr p => p c
  | Re.Rep _ _ p => p c
  | Re.Seq r1 r2 => in_class r1 c || in_class r2 c
  | Re.Grp _ r1 => in_class r1 c
  | _ => false
  end.

(** The pattern has no backreference. *)
Fixpoint no_ref (r : Re.regex) : bool :=
  match r with
  | Re.Ref _ => false
  | Re.Seq r1 r2 => no_ref r1 && no_ref r2
  | Re.Grp _ r1 => no_ref r1
  | _ => true
  end.

End RegexSpec.

(** A run of at least twenty characters of the class [[A-Za-z0-9_-]]. *)
Definition token_run (w : str) : Prop :=
  20 <= length w /\ made_of Candidate.is_token_char w.

(* ================================================================== *)
(** * Properties of the string operations *)
(* ================================================================== *)

Lemma startswith_iff (p s : str) :
  Str.startswith p s = true <-> exists r, s = p ++ r.
Proof.
  revert s; induction p as [|a p IH]; intros s; simpl.
  - split; [intros _; now exists s | reflexivity].
  - destruct s as [|b s]; simpl.
    + split; [discriminate | intros [r Hr]; discriminate].
    + rewrite andb_true_iff, Ascii.eqb_eq, IH. split.
      * intros [-> [r ->]]. now exists r.
      * intros [r Hr]. injection Hr as -> ->. split; [reflexivity | now exists r].
Qed.

Lemma contains_iff (needle s : str) :
  Str.contains needle s = true <-> Substring needle s.
Proof.
  unfold Substring. induction s as [|c s IH].
  - simpl. rewrite orb_false_r, startswith_iff. split.
    + intros [r Hr]. exists [], r. exact Hr.
    + intros [l [r Hr]]. symmetry in Hr.
      apply app_eq_nil in Hr as [-> Hr]. apply app_eq_nil in Hr as [-> ->].
      now exists [].
  - simpl. rewrite orb_true_iff, startswith_iff, IH. split.
    + intros [[r Hr] | [l [r Hr]]].
      * exists [], r. exact Hr.
      * exists (c :: l), r. simpl. now rewrite Hr.
    + intros [l [r Hr]]. destruct l as [|d l]; simpl in Hr.
      * left. now exists r.
      * right. injection Hr as _ Hr. now exists l, r.
Qed.

Lemma contains_false_iff (needle s : str) :
  Str.contains needle s = false <-> ~ Substring needle s.
Proof.
  rewrite <- contains_iff. destruct (Str.contains needle s); split; intros; congruence.
Qed.

Lemma str_eqb_eq (a b : str) : Str.eqb a b = true <-> a = b.
Proof.
  unfold Str.eqb. destruct (list_eq_dec ascii_dec a b); split; congruence.
Qed.

Lemma str_eqb_refl (a : str) : Str.eqb a a = true.
Proof. now apply str_eqb_eq. Qed.

Lemma str_eqb_neq (a b : str) : Str.eqb a b = false <-> a <> b.
Proof.
  unfold Str.eqb. destruct (list_eq_dec ascii_dec a b); split; congruence.
Qed.

(** A run of consecutive characters that avoids [c] lies on one side of
    an occurrence of [c]. *)
Lemma substring_across (w a b : str) (c : ascii) :
  ~ In c w ->
  Substring w (a ++ c :: b) <-> Substring w a \/ (w <> [] /\ Substring w b) \/ w = [].
Proof.
  intros Hc. split.
  - intros [l [r H]].
    destruct w as [|x w]; [now right; right|].
    apply app_eq_app in H as [m [[Ha Hb] | [Hl Hb]]].
    + (* a = l ++ m, (x :: w) ++ r = m ++ c :: b *)
      apply app_eq_app in Hb as [n [[Hw Hb] | [Hm Hb]]].
      * (* x :: w = m ++ n, c :: b = n ++ r : c is in w, or n is empty *)
        destruct n as [|d n].
        -- simpl in Hb. subst r. rewrite app_nil_r in Hw. subst m.
           left. exists l, []. now rewrite app_nil_r.
        -- exfalso. apply Hc. injection Hb as <- _. rewrite Hw.
           apply in_or_app. right. now left.
      * (* m = (x :: w) ++ n *)
        left. exists l, n. now rewrite Ha, Hm.
    + (* l = a ++ m, c :: b = m ++ (x :: w) ++ r *)
      destruct m as [|d m].
      * exfalso. simpl in Hb. injection Hb as <- _. apply Hc. now left.
      * right; left. split; [discriminate|]. injection Hb as _ Hb.
        now exists m, r.
  - intros [[l [r H]] | [[_ [l [r H]]] | ->]].
    + exists l, (r ++ c :: b). rewrite H. now rewrite <- !app_assoc.
    + exists (a ++ c :: l), r. rewrite H. now rewrite <- app_assoc.
    + now exists [], (a ++ c :: b).
Qed.

Lemma lower_app (a b : str) : Str.lower (a ++ b) = Str.lower a ++ Str.lower b.
Proof. apply map_app. Qed.



(* ================================================================== *)
(** * Properties of the command matcher *)
(* ================================================================== *)

Lemma take_drop_length (q : ascii -> bool) (s : str) :
  length (takewhile q s) + length (dropwhile q s) = length s.
Proof.
  induction s as [|c s IH]; cbn [takewhile dropwhile]; [reflexivity|].
  destruct (q c); cbn [length]; lia.
Qed.

(** A greedy repetition followed by nothing takes the longest run. *)
Lemma star_greedy_stop (q : ascii -> bool) (s : str) (prev : option ascii) :
  Re.star_greedy q prev s (fun pv t => Re.stop pv t []) = Some (dropwhile q s, []).
Proof.
  revert prev; induction s as [|c s IH]; intros prev; simpl; [reflexivity|].
  destruct (q c); [now rewrite IH | reflexivity].
Qed.

(** Deleting every run of characters outside a class keeps exactly the
    characters of the class. *)
Lemma pieces_delete_runs (p : ascii -> bool) (s : str) :
  forall (skip : nat) (prev : option ascii),
    skip <= length (takewhile (outside p) s) ->
    flat_map kept (Re.pieces (Re.Rep true 1 (outside p)) skip prev s) = filter p s.
Proof.
  induction s as [|c s IH]; intros skip prev Hskip; [reflexivity|].
  cbn [Re.pieces]. destruct skip as [|k].
  - cbn [Re.rmatch Re.rep_min]. destruct (outside p c) eqn:Hq.
    + rewrite star_greedy_stop.
      assert (Hp : p c = false) by (unfold outside in Hq; now destruct (p c)).
      assert (Hlen : length (c :: s) - length (dropwhile (outside p) s)
                     = S (length (takewhile (outside p) s))).
      { pose proof (take_drop_length (outside p) s). cbn [length]. lia. }
      rewrite Hlen. cbn [flat_map kept]. simpl app.
      rewrite IH by lia. simpl. now rewrite Hp.
    + assert (Hp : p c = true) by (unfold outside in Hq; now destruct (p c)).
      cbn [flat_map kept]. rewrite IH by lia. simpl. now rewrite Hp.
  - simpl in Hskip. destruct (outside p c) eqn:Hq; simpl in Hskip; [|lia].
    assert (Hp : p c = false) by (unfold outside in Hq; now destruct (p c)).
    rewrite IH by lia. simpl. now rewrite Hp.
Qed.

Lemma normalize_filter (s : str) :
  Catalog.normalize s = filter Str.is_lower_alnum (Str.lower s).
Proof.
  unfold Catalog.normalize, Re.sub, Catalog.non_lower_alnum_run.
  rewrite <- (@pieces_delete_runs Str.is_lower_alnum (Str.lower s) 0 None)
    by lia.
  reflexivity.
Qed.


Lemma title_matches_iff (wanted normalized_title : str) :
  Catalog.title_matches wanted normalized_title = true <->
  Substring normalized_title wanted \/ Substring wanted normalized_title.
Proof.
  unfold Catalog.title_matches. now rewrite orb_true_iff, !contains_iff.
Qed.

Lemma section_selected_iff (wanted sec : str) :
  Catalog.section_selected wanted sec = true <->
  exists line0 rest,
    Str.splitlines sec = line0 :: rest /\
    Catalog.section_title line0 <> [] /\
    (Substring (Catalog.normalize (Catalog.section_title line0)) wanted \/
     Substring wanted (Catalog.normalize (Catalog.section_title line0))).
Proof.
  unfold Catalog.section_selected.
  destruct (Str.splitlines sec) as [|line0 rest].
  - split; [discriminate | intros (? & ? & H & _); discriminate].
  - destruct (Catalog.section_title line0) as [|c t] eqn:Ht.
    + split; [discriminate | intros (l0 & r & H & Hne & _)].
      injection H as <- <-. now rewrite Ht in Hne.
    + rewrite title_matches_iff. split.
      * intros H. exists line0, rest. rewrite Ht. repeat split; [discriminate | exact H].
      * intros (l0 & r & H & _ & Hs). injection H as <- <-. now rewrite Ht in Hs.
Qed.

(** The commands of a catalog are those of its selected sections, read
    in document order. *)
Lemma extract_commands_unfold (secret_type md_text : str) :
  Catalog.extract_commands secret_type md_text =
  fold_left
    (fun commands sec => Catalog.section_commands commands (Catalog.section_body sec))
    (filter (Catalog.section_selected (Catalog.normalize secret_type))
            (Str.split (py "## ") md_text))
    [].
Proof.
  unfold Catalog.extract_commands.
  generalize (@nil str) as acc.
  induction (Str.split (py "## ") md_text) as [|sec secs IH]; intros acc; simpl;
    [reflexivity|].
  destruct (Catalog.section_selected _ sec); simpl; apply IH.
Qed.



(* ================================================================== *)
(** * Properties of the success heuristic *)
(* ================================================================== *)

Lemma existsb_false (A : Type) (f : A -> bool) (l : list A) :
  existsb f l = false <-> forall x, In x l -> f x = false.
Proof.
  induction l as [|y l IH]; simpl.
  - split; [intros _ x [] | reflexivity].
  - rewrite orb_false_iff, IH. split.
    + intros [Hy Hl] x [<- | Hx]; auto.
    + intros H. split; [apply H; now left | intros x Hx; apply H; now right].
Qed.

Lemma marker_shape (w : str) :
  In w Verifier.failure_markers -> ~ In LF w /\ w <> [].
Proof.
  intros H. simpl in H.
  repeat (destruct H as [<- | H];
          [split; [vm_compute; intuition discriminate | discriminate]|]).
  destruct H.
Qed.

Lemma looks_auth_error_false (out err : str) :
  Verifier.looks_auth_error out err = false <-> marker_free out /\ marker_free err.
Proof.
  unfold Verifier.looks_auth_error, marker_free.
  rewrite existsb_false. rewrite !lower_app.
  change (Str.lower [LF]) with [LF]. simpl app.
  split.
  - intros H. split; intros w Hw Hs;
      specialize (H w Hw); apply contains_false_iff in H; apply H;
      destruct (marker_shape Hw) as [Hlf Hne];
      apply (@substring_across w (Str.lower out) (Str.lower err) LF Hlf); auto.
  - intros [Ho He] w Hw. apply contains_false_iff. intros Hs.
    destruct (marker_shape Hw) as [Hlf Hne].
    apply (@substring_across w (Str.lower out) (Str.lower err) LF Hlf) in Hs.
    destruct Hs as [Hs | [[_ Hs] | Hs]].
    + exact (Ho w Hw Hs).
    + exact (He w Hw Hs).
    + exact (Hne Hs).
Qed.

Lemma is_success_iff (code : Z) (out err : str) :
  Verifier.is_success code out err = true <->
  code = 0%Z /\ Str.strip out <> [] /\ marker_free out /\ marker_free err.
Proof.
  unfold Verifier.is_success.
  rewrite !andb_true_iff, Z.eqb_eq, negb_true_iff, looks_auth_error_false,
    Nat.ltb_lt.
  assert (Hlen : 0 < length (Str.strip out) <-> Str.strip out <> []).
  { destruct (Str.strip out); simpl; split; intros; try lia; congruence. }
  rewrite Hlen. tauto.
Qed.

(** C5, as stated, fails on the code: a run that exits with code 0 and
    prints only a line feed has a non-empty standard output free of
    failure markers, yet it is not a success, because the code measures
    the output after stripping white space. *)
Lemma C5_counterexample :
  success (Verifier.executed_result (py "curl x") (py "t") (py "UNKNOWN", [])
             0%Z [LF] [] (py "curl x")) = false /\
  (0 = 0)%Z /\ [LF] <> @nil ascii /\ marker_free [LF] /\ marker_free [].
Proof.
  split; [vm_compute; reflexivity|].
  split; [reflexivity|]. split; [discriminate|].
  apply looks_auth_error_false. vm_compute. reflexivity.
Qed.


(* ================================================================== *)
(** * Properties of the live verifier *)
(* ================================================================== *)

Ltac splits := repeat match goal with |- _ /\ _ => split end.

Section Satisfies.

Context {World : Type}.

Lemma sat_ret (A : Type) (a : A) (Q : A -> list event -> Prop) :
  Q a [] -> satisfies (ret (World := World) a) Q.
Proof. intros H w a' w' t E. unfold ret in E. now inversion E; subst. Qed.

Lemma sat_bind (A B : Type) (m : M World A) (f : A -> M World B)
  (R : A -> list event -> Prop) (Q : B -> list event -> Prop) :
  satisfies m R ->
  (forall a t1, R a t1 -> satisfies (f a) (fun b t2 => Q b (t1 ++ t2))) ->
  satisfies (bind m f) Q.
Proof.
  intros Hm Hf w b w' t E. unfold bind in E.
  destruct (m w) as [[a w1] t1] eqn:E1.
  destruct (f a w1) as [[b' w2] t2] eqn:E2.
  inversion E; subst. exact (Hf a t1 (Hm _ _ _ _ E1) _ _ _ _ E2).
Qed.

Lemma sat_weaken (A : Type) (m : M World A) (P Q : A -> list event -> Prop) :
  satisfies m P -> (forall a t, P a t -> Q a t) -> satisfies m Q.
Proof. intros Hm H w a w' t E. exact (H _ _ (Hm _ _ _ _ E)). Qed.

End Satisfies.

Section VerifierProps.

Import Verifier VerifierSpec.

Context {World : Type} {RT : Runtime World}.

Lemma ask_verifier_spec (st ev cmd : str) :
  satisfies (ask_verifier st ev cmd) (fun r t => t = [EvGuidance st ev cmd r]).
Proof.
  intros w r w' t E. unfold ask_verifier in E.
  destruct (verifier st ev cmd w). now inversion E.
Qed.

(** [run_command] starts at most one subprocess, for the template it was
    given. *)
Lemma run_command_spec (cmd token : str) (timeout : nat) :
  satisfies (run_command cmd token timeout)
            (fun _ t => t = [] \/ exists args, t = [EvSpawn cmd args]).
Proof.
  intros w r w' t E. unfold run_command, bind, spawn, communicate, ret in E.
  destruct (shlex_split (substitute cmd token)) as [ex | args].
  - inversion E. now left.
  - destruct (create_subprocess_exec args w) as [[ex | proc] w1].
    + inversion E. right. now exists args.
    + destruct (wait_for_communicate proc timeout w1) as [[ex | [[code out] err]] w2];
        inversion E; right; now exists args.
Qed.

Lemma keep_executed_best (r : AttemptResult) (l : locals) :
  l_best_result (keep_executed r l) = Some r \/
  (l_best_result (keep_executed r l) = l_best_result l /\ l_best_result l <> None).
Proof.
  unfold keep_executed. destruct (l_best_result l) as [b|] eqn:Hb.
  - destruct (success r && negb (success b)); [now left | right].
    rewrite Hb. split; [reflexivity | discriminate].
  - now left.
Qed.

Lemma keep_failed_best (r : AttemptResult) (l : locals) :
  l_best_result (keep_failed r l) = Some r \/
  (l_best_result (keep_failed r l) = l_best_result l /\ l_best_result l <> None).
Proof.
  unfold keep_failed. destruct (l_best_result l) as [b|] eqn:Hb.
  - right. rewrite Hb. split; [reflexivity | discriminate].
  - now left.
Qed.

Lemma keep_executed_fields (r : AttemptResult) (l : locals) :
  l_attempted (keep_executed r l) = l_attempted l /\
  l_verified (keep_executed r l) = l_verified l /\
  l_results (keep_executed r l) = l_results l /\
  l_ai (keep_executed r l) = l_ai l /\
  l_cmd_attempted (keep_executed r l) = l_cmd_attempted l.
Proof.
  unfold keep_executed. destruct (l_best_result l) as [b|];
    [destruct (success r && negb (success b))|]; repeat split.
Qed.

Lemma keep_failed_fields (r : AttemptResult) (l : locals) :
  l_attempted (keep_failed r l) = l_attempted l /\
  l_verified (keep_failed r l) = l_verified l /\
  l_results (keep_failed r l) = l_results l /\
  l_ai (keep_failed r l) = l_ai l /\
  l_cmd_attempted (keep_failed r l) = l_cmd_attempted l.
Proof.
  unfold keep_failed. destruct (l_best_result l); repeat split.
Qed.

Lemma ran_command (cmd : str) (x : AttemptResult) : ran cmd x -> command x = cmd.
Proof.
  intros [(ev & ai & ex & ->) | (ev & ai & code & out & err & ecmd & ->)];
    reflexivity.
Qed.

Lemma keep_executed_cmd_verified (r : AttemptResult) (l : locals) :
  l_cmd_verified (keep_executed r l) = l_cmd_verified l.
Proof.
  unfold keep_executed. destruct (l_best_result l) as [b|];
    [destruct (success r && negb (success b))|]; reflexivity.
Qed.

Lemma keep_failed_cmd_verified (r : AttemptResult) (l : locals) :
  l_cmd_verified (keep_failed r l) = l_cmd_verified l.
Proof. unfold keep_failed. now destruct (l_best_result l). Qed.

Lemma no_kept_success (r : AttemptResult) (cv : bool) :
  success r = false ->
  (cv = true <-> exists x : AttemptResult, None = Some x /\ success x = true) ->
  (cv = true <-> exists x : AttemptResult, Some r = Some x /\ success x = true).
Proof.
  intros Hs H. rewrite H. split.
  - intros (x & Hx & _). discriminate.
  - intros (x & Hx & Hsx). inversion Hx; subst. congruence.
Qed.

(** A run that ended sets the success flags as its outcome says. *)
Lemma executed_success_ok (ai : str * str) (r : AttemptResult) (l : locals) :
  success_ok l ->
  success_ok (keep_executed r
                (if success r then mark_verified (mark_attempted (set_ai ai l))
                 else mark_attempted (set_ai ai l))).
Proof.
  destruct l as [a v rs ai0 ca cv best].
  unfold success_ok, keep_executed.
  destruct (success r) eqn:Hs; destruct best as [b|]; simpl; rewrite ?Hs; simpl;
    try (destruct (success b) eqn:Hsb; simpl); intros [H1 H2].
  all: try (split; [split; [intros _; eauto | reflexivity]
                   | split; [intros _; left; reflexivity | reflexivity]]).
  all: try (split; [exact H1 | exact H2]).
  split; [now apply no_kept_success | exact H2].
Qed.

(** A run that raised leaves the success flags as they were. *)
Lemma failed_success_ok (ai : str * str) (r : AttemptResult) (l : locals) :
  success r = false ->
  success_ok l ->
  success_ok (keep_failed r (mark_attempted (set_ai ai l))).
Proof.
  destruct l as [a v rs ai0 ca cv best].
  unfold success_ok, keep_failed. intros Hs.
  destruct best as [b|]; simpl; intros [H1 H2].
  - now split.
  - split; [now apply no_kept_success | exact H2].
Qed.

(** One pass of the evidence loop. *)
Lemma attempt_spec (st cmd ev : str) (l : locals) :
  satisfies (attempt st cmd ev l)
    (fun l' t =>
       l_results l' = l_results l /\
       Forall (about st cmd) t /\
       (flags_ok l -> flags_ok l') /\
       (success_ok l -> success_ok l') /\
       (template_ok cmd l -> template_ok cmd l') /\
       (exists resp, In (EvGuidance st ev cmd resp) t /\
                     l_ai l' = Some (guidance resp)) /\
       (has_placeholder cmd = true -> l_cmd_attempted l' = true)).
Proof.
  unfold attempt.
  eapply sat_bind; [apply ask_verifier_spec|].
  intros resp t1 ->. cbv zeta.
  destruct (has_placeholder cmd) eqn:Hp.
  - eapply sat_bind; [apply run_command_spec|].
    intros r t2 Ht2.
    assert (Hev : Forall (about st cmd) ([EvGuidance st ev cmd resp] ++ t2 ++ [])).
    { rewrite app_nil_r. constructor; [now split|].
      destruct Ht2 as [-> | [args ->]]; [constructor|].
      constructor; [now split | constructor]. }
    set (l0 := mark_attempted (set_ai (guidance resp) l)).
    destruct r as [ex | [[[code out] err] executed_cmd]]; apply sat_ret.
    + pose proof (keep_failed_fields (failed_result cmd ev (guidance resp) ex) l0)
        as (Ha & Hv & Hr & Hai & Hca).
      pose proof (keep_failed_best (failed_result cmd ev (guidance resp) ex) l0) as Hb.
      splits.
      * now rewrite Hr.
      * exact Hev.
      * unfold flags_ok. now rewrite Ha.
      * now apply failed_success_ok.
      * intros (_ & Hran & _). unfold template_ok. rewrite Hp, Hca. splits.
        -- discriminate.
        -- intros x Hx. destruct Hb as [Hb | [Hb _]]; rewrite Hb in Hx.
           ++ inversion Hx. left. now exists ev, (guidance resp), ex.
           ++ now apply Hran.
        -- split; [intros _ | reflexivity].
           destruct Hb as [Hb | [Hb Hn]]; rewrite Hb; [discriminate | exact Hn].
      * exists resp. split; [now left | now rewrite Hai].
      * intros _. now rewrite Hca.
    + set (x0 := executed_result cmd ev (guidance resp) code out err executed_cmd).
      change (is_success code out err) with (success x0).
      set (l1 := if success x0 then mark_verified l0 else l0).
      assert (Hl1 : l_attempted l1 = true /\ l_results l1 = l_results l /\
                    l_ai l1 = Some (guidance resp) /\ l_cmd_attempted l1 = true /\
                    l_best_result l1 = l_best_result l).
      { unfold l1. destruct (success x0); splits; reflexivity. }
      destruct Hl1 as (Ha1 & Hr1 & Hai1 & Hca1 & Hb1).
      pose proof (keep_executed_fields x0 l1) as (Ha & Hv & Hr & Hai & Hca).
      pose proof (keep_executed_best x0 l1) as Hb.
      splits.
      * now rewrite Hr.
      * exact Hev.
      * unfold flags_ok. now rewrite Ha.
      * apply executed_success_ok.
      * intros (_ & Hran & _). unfold template_ok. rewrite Hp, Hca, Hca1. splits.
        -- discriminate.
        -- intros x Hx. destruct Hb as [Hb | [Hb _]]; rewrite Hb in Hx.
           ++ inversion Hx. right.
              now exists ev, (guidance resp), code, out, err, executed_cmd.
           ++ apply Hran. now rewrite <- Hb1.
        -- split; [intros _ | reflexivity].
           destruct Hb as [Hb | [Hb Hn]]; rewrite Hb; [discriminate | exact Hn].
      * exists resp. split; [now left | now rewrite Hai].
      * intros _. now rewrite Hca.
  - apply sat_ret. splits.
    + reflexivity.
    + constructor; [now split | constructor].
    + intros H. exact H.
    + intros H. exact H.
    + intros H. exact H.
    + exists resp. split; [now left | reflexivity].
    + discriminate.
Qed.

(** The evidence loop of one template. *)
Lemma try_evidence_spec (st cmd : str) (evs : list str) :
  forall l : locals,
    satisfies (try_evidence st cmd evs l)
      (fun l' t =>
         l_results l' = l_results l /\
         Forall (about st cmd) t /\
         (flags_ok l -> flags_ok l') /\
         (success_ok l -> success_ok l') /\
         (template_ok cmd l -> template_ok cmd l') /\
         (evs <> [] ->
          l_ai l' <> None /\
          (has_placeholder cmd = true -> l_cmd_attempted l' = true) /\
          (has_placeholder cmd = false -> template_ok cmd l ->
           exists ai, l_ai l' = Some ai /\ guided st (last evs []) cmd t ai)) /\
         (evs = [] -> l' = l /\ t = [])).
Proof.
  induction evs as [|ev rest IH]; intros l; cbn [try_evidence].
  - apply sat_ret. splits; auto. congruence.
  - eapply sat_bind; [apply attempt_spec|].
    intros l1 t1 (Hr1 & He1 & Hf1 & Hs1 & Ht1 & (resp & Hin1 & Hai1) & Hca1).
    destruct (l_cmd_verified l1) eqn:Hcv.
    + apply sat_ret. rewrite app_nil_r. splits; auto; try discriminate.
      intros _. splits; [congruence | exact Hca1 |].
      intros Hp Hok. destruct (Ht1 Hok) as [Hnp _].
      destruct (Hnp Hp) as (_ & _ & Hfalse). congruence.
    + eapply sat_weaken; [apply IH|]. cbv beta.
      intros l' t2 (Hr2 & He2 & Hf2 & Hs2 & Ht2 & Hne & Hnil).
      splits; auto; try discriminate.
      * congruence.
      * apply Forall_app. now split.
      * intros _. destruct rest as [|ev2 rest].
        -- destruct (Hnil eq_refl) as [-> ->]. rewrite app_nil_r.
           splits; [congruence | exact Hca1 |].
           intros _ _. exists (guidance resp). split; [exact Hai1|].
           now exists resp.
        -- destruct Hne as (Hai & Hca & Hg); [discriminate|].
           splits; [exact Hai | exact Hca |].
           intros Hp Hok. destruct (Hg Hp (Ht1 Hok)) as (ai & Hai' & resp' & Hin & ->).
           exists (guidance resp'). split; [exact Hai'|].
           exists resp'. split; [|reflexivity].
           apply in_or_app. right. exact Hin.
Qed.

Lemma firstn_nonempty (A : Type) (n : nat) (l : list A) :
  l <> [] -> firstn (S n) l <> [].
Proof. destruct l; [congruence | discriminate]. Qed.

Lemma next_template_ok (cmd : str) (l : locals) : template_ok cmd (next_template l).
Proof.
  unfold template_ok. simpl. splits; auto; try discriminate.
  split; [discriminate | congruence].
Qed.

Lemma next_template_success_ok (l : locals) :
  verified_ok l -> success_ok (next_template l).
Proof.
  unfold verified_ok, success_ok. simpl. intros H. split.
  - split; [discriminate | intros (x & Hx & _); discriminate].
  - rewrite H. split; [now right | intros [Hf | Hx]; [discriminate | exact Hx]].
Qed.

(** Appending the kept result hands the success flags over to
    [results]. *)
Lemma append_success_ok (l : locals) (x : AttemptResult) :
  l_best_result l = Some x -> success_ok l -> verified_ok (append_best l).
Proof.
  intros Hb [Hbest Hver]. unfold verified_ok, append_best. rewrite Hb. simpl.
  rewrite Hver, Hbest. split.
  - intros [(y & Hy & Hsy) | (y & Hy & Hsy)].
    + rewrite Hb in Hy. inversion Hy; subst y. exists x. split; [|exact Hsy].
      apply in_or_app. right. now left.
    + exists y. split; [|exact Hsy]. apply in_or_app. now left.
  - intros (y & Hy & Hsy). apply in_app_or in Hy as [Hy | [<- | []]].
    + right. now exists y.
    + left. now exists x.
Qed.

(** The work on one template: either it appends one entry for [cmd], or
    it raises, which takes an empty evidence list. *)
Lemma verify_template_spec (st : str) (es : list str) (l : locals) (cmd : str) :
  satisfies (verify_template st es l cmd)
    (fun r t =>
       Forall (about st cmd) t /\
       match r with
       | inl _ => es = [] /\ t = []
       | inr l' =>
           (flags_ok l -> flags_ok l') /\
           (verified_ok l -> verified_ok l') /\
           exists x,
             l_results l' = l_results l ++ [x] /\
             (es <> [] -> entry_for st es t cmd x)
       end).
Proof.
  unfold verify_template.
  eapply sat_bind; [apply try_evidence_spec|].
  intros l1 t1 (Hr & He & Hf & Hs & Ht & Hne & Hnil).
  specialize (Ht (next_template_ok cmd l)).
  destruct Ht as (Hnp & Hran & Hbest).
  destruct (l_cmd_attempted l1) eqn:Hca; cbn [negb].
  - (* a runnable attempt was made: the kept result is appended *)
    apply sat_ret. rewrite app_nil_r. split; [exact He|].
    destruct (l_best_result l1) as [x|] eqn:Hb;
      [|now destruct (proj1 Hbest eq_refl)].
    splits.
    + unfold flags_ok, append_best. rewrite Hb. exact Hf.
    + intros Hv. apply (@append_success_ok l1 x Hb).
      apply Hs. now apply next_template_success_ok.
    + exists x. split.
      * unfold append_best. rewrite Hb. simpl. now rewrite Hr.
      * intros _. unfold entry_for. splits.
        -- apply ran_command. now apply Hran.
        -- intros _. now apply Hran.
        -- intros Hp. destruct (Hnp Hp) as (Hfalse & _). congruence.
  - assert (Hnone : l_best_result l1 = None).
    { destruct (l_best_result l1) eqn:Hb; [|reflexivity].
      assert (false = true) by (apply Hbest; discriminate).
      discriminate. }
    destruct (l_ai l1) as [ai|] eqn:Hai; apply sat_ret; rewrite app_nil_r;
      (split; [exact He|]).
    + splits; [exact Hf | |].
      * intros Hv. specialize (Hs (next_template_success_ok Hv)).
        destruct Hs as [Hbs Hver]. unfold verified_ok. simpl.
        rewrite Hver, Hbs, Hnone. split.
        -- intros [(y & Hy & _) | (y & Hy & Hsy)]; [discriminate|].
           exists y. split; [|exact Hsy]. apply in_or_app. now left.
        -- intros (y & Hy & Hsy). apply in_app_or in Hy as [Hy | [<- | []]].
           ++ right. now exists y.
           ++ discriminate.
      * exists (guidance_only_result cmd ai). split.
        -- simpl. now rewrite Hr.
        -- intros Hes. destruct Hne as (_ & Hatt & Hg); [now apply firstn_nonempty|].
           unfold entry_for. splits.
           ++ reflexivity.
           ++ intros Hp. specialize (Hatt Hp). congruence.
           ++ intros Hp.
              destruct (Hg Hp (next_template_ok cmd l)) as (ai' & Hai' & Hgd).
              inversion Hai'; subst ai'. exists ai. split; [reflexivity | exact Hgd].
    + destruct es as [|e es].
      * destruct (Hnil eq_refl) as [_ ->]. now split.
      * destruct Hne as (Hsome & _); [discriminate | congruence].
Qed.

Lemma entry_for_mono (st : str) (es : list str) (t0 t1 t2 : list event)
  (cmd : str) (x : AttemptResult) :
  entry_for st es t1 cmd x -> entry_for st es (t0 ++ t1 ++ t2) cmd x.
Proof.
  intros (Hc & Hr & Hg). unfold entry_for. splits; auto.
  intros Hp. destruct (Hg Hp) as (ai & Hx & resp & Hin & Hai).
  exists ai. split; [exact Hx|]. exists resp. split; [|exact Hai].
  apply in_or_app. right. apply in_or_app. now left.
Qed.

(** The loop over the templates, for a non-empty evidence list: it does
    not raise and appends one entry per template, in order. *)
Lemma verify_templates_spec (st : str) (es : list str) (cmds : list str) :
  es <> [] ->
  forall l : locals,
    satisfies (verify_templates st es cmds l)
      (fun r t =>
         Forall (fun e => exists cmd, In cmd cmds /\ about st cmd e) t /\
         exists l' xs,
           r = inr l' /\
           (flags_ok l -> flags_ok l') /\
           (verified_ok l -> verified_ok l') /\
           l_results l' = l_results l ++ xs /\
           Forall2 (entry_for st es t) cmds xs).
Proof.
  intros Hes. induction cmds as [|cmd rest IH]; intros l; cbn [verify_templates].
  - apply sat_ret. split; [constructor|].
    exists l, []. splits; auto. now rewrite app_nil_r.
  - eapply sat_bind; [apply verify_template_spec|].
    intros r t1 [He1 Hr]. destruct r as [ex | l1].
    + destruct Hr as [Hnil _]. congruence.
    + destruct Hr as (Hf1 & Hv1 & x & Hres1 & Hx).
      eapply sat_weaken; [apply IH|]. cbv beta.
      intros r2 t2 (He2 & l' & xs & -> & Hf2 & Hv2 & Hres2 & Hall).
      split.
      * apply Forall_app. split.
        -- eapply Forall_impl; [|exact He1]. intros e H. exists cmd. split; [now left | exact H].
        -- eapply Forall_impl; [|exact He2]. intros e (c & Hc & H). exists c.
           split; [now right | exact H].
      * exists l', (x :: xs). splits; auto.
        -- rewrite Hres2, Hres1. now rewrite <- app_assoc.
        -- constructor.
           ++ apply (@entry_for_mono st es [] t1 t2 cmd x). exact (Hx Hes).
           ++ eapply Forall2_impl; [|exact Hall]. intros c y Hy.
              apply (@entry_for_mono st es t1 t2 [] c y) in Hy.
              now rewrite app_nil_r in Hy.
Qed.

(** With no evidence the loop over the templates emits nothing, and it
    raises as soon as there is a template. *)
Lemma verify_templates_no_evidence (st : str) (cmds : list str) (l : locals) :
  l_ai l = None ->
  satisfies (verify_templates st [] cmds l)
    (fun r t => t = [] /\ match r with
                           | inl _ => cmds <> []
                           | inr l' => l' = l /\ cmds = []
                           end).
Proof.
  intros Hai. destruct cmds as [|cmd rest]; cbn [verify_templates].
  - apply sat_ret. now split.
  - unfold verify_template. cbn [firstn try_evidence].
    intros w r w' t E. unfold bind, ret in E. simpl in E. rewrite Hai in E.
    inversion E; subst. split; [reflexivity | discriminate].
Qed.

Lemma satisfies_run (A : Type) (m : M World A) (Q : A -> list event -> Prop) :
  satisfies m Q -> forall w, Q (run_result m w) (run_events m w).
Proof.
  intros H w. unfold run_result, run_events.
  destruct (m w) as [[a w'] t] eqn:E. exact (H _ _ _ _ E).
Qed.

Lemma no_success_in_nil :
  false = true <-> exists x : AttemptResult, In x [] /\ success x = true.
Proof. split; [discriminate | intros (x & [] & _)]. Qed.

(** What [_verify_secret_type] returns and emits. *)
Lemma verify_secret_type_spec (st : str) (evid_list : list EvidenceRecord) :
  satisfies (_verify_secret_type st evid_list)
    (fun v t =>
       (verified v = true -> attempted v = true) /\
       (verified v = true <-> exists x, In x (results v) /\ success x = true) /\
       length (commands v) <= 3 /\
       Forall (fun e => exists cmd, In cmd (commands v) /\ about st cmd e) t /\
       (evid_list <> [] ->
        Forall2 (entry_for st (map evidence evid_list) t) (commands v) (results v)) /\
       (evid_list = [] -> results v = [] /\ t = [])).
Proof.
  intros w v w' t E. unfold _verify_secret_type in E.
  destruct (read_key_verifier_md w) as [ex | md].
  { inversion E; subst. simpl.
    splits; auto using no_success_in_nil; try discriminate; try lia. }
  set (cmds := firstn 3 (catalog_commands st md)) in *.
  assert (Hlen : length cmds <= 3) by apply firstn_le_length.
  destruct (verify_templates st (map evidence evid_list) cmds initial_locals w)
    as [[r w1] t1] eqn:Ev.
  destruct evid_list as [|e0 evid_rest].
  - pose proof (@verify_templates_no_evidence st cmds initial_locals eq_refl
                  _ _ _ _ Ev) as [-> Hr].
    destruct r as [ex | l]; [|destruct Hr as [-> _]]; inversion E; subst; simpl;
      splits; auto using no_success_in_nil; try discriminate; try lia;
      try constructor.
    all: intros Hcontra; congruence.
  - assert (Hes : map evidence (e0 :: evid_rest) <> []) by discriminate.
    pose proof (@verify_templates_spec st _ cmds Hes initial_locals _ _ _ _ Ev)
      as (Hev & l' & xs & -> & Hf & Hv & Hres & Hall).
    inversion E; subst. simpl. splits; auto; try discriminate.
    + apply Hf. unfold flags_ok. simpl. discriminate.
    + apply Hv. unfold verified_ok. simpl. apply no_success_in_nil.
    + intros _. now rewrite Hres.
Qed.

(** When the catalog can be read and there is evidence, the verification
    is not the one of the [except] branch: no failure of an oracle or of
    a subprocess aborts it. *)
Lemma verify_secret_type_completes (st : str) (evid_list : list EvidenceRecord)
  (w : World) (md : option str) :
  read_key_verifier_md w = inr md ->
  evid_list <> [] ->
  let v := run_result (_verify_secret_type st evid_list) w in
  verification_error v = None /\
  commands v = firstn 3 (catalog_commands st md).
Proof.
  intros Hmd Hevid. unfold run_result, _verify_secret_type. rewrite Hmd.
  destruct (verify_templates st (map evidence evid_list)
              (firstn 3 (catalog_commands st md)) initial_locals w)
    as [[r w1] t1] eqn:Ev.
  assert (Hes : map evidence evid_list <> []).
  { destruct evid_list; [congruence | discriminate]. }
  pose proof (@verify_templates_spec st _ _ Hes initial_locals _ _ _ _ Ev)
    as (_ & l' & xs & -> & _).
  now split.
Qed.

End VerifierProps.

(** C3.  For every secret type, evidence list and state of the world
    (catalog and oracles included), the verification that
    [_verify_secret_type] returns has [attempted] true whenever it has
    [verified] true. *)
Theorem C3_verified_implies_attempted :
  forall (World : Type) (RT : Runtime World)
         (secret_type : str) (evid_list : list EvidenceRecord) (w : World),
    let v := run_result (Verifier._verify_secret_type secret_type evid_list) w in
    verified v = true -> attempted v = true.
Proof.
  intros World RT st evid_list w.
  exact (proj1 (satisfies_run (verify_secret_type_spec st evid_list) w)).
Qed.

Lemma C3_witness :
  let v := run_result
             (Demo.verify (py "GitHub Token")
                          [Demo.rec Demo.dead_token; Demo.rec Demo.good_token])
             Demo.boot in
  verified v = true /\ attempted v = true.
Proof.
  split; [vm_compute; reflexivity|].
  apply (@C3_verified_implies_attempted Demo.world Demo.runtime
           (py "GitHub Token") [Demo.rec Demo.dead_token; Demo.rec Demo.good_token]
           Demo.boot).
  vm_compute; reflexivity.
Defined.

(** Every entry of [results] names a template of [commands] and has the
    shape that this template calls for. *)
Lemma results_entries (World : Type) (RT : Runtime World)
  (st : str) (evid_list : list EvidenceRecord) (w : World) :
  let v := run_result (Verifier._verify_secret_type st evid_list) w in
  let t := run_events (Verifier._verify_secret_type st evid_list) w in
  forall x,
    In x (results v) ->
    In (command x) (commands v) /\
    VerifierSpec.entry_for st (map evidence evid_list) t (command x) x.
Proof.
  intros v t x Hx.
  pose proof (satisfies_run (verify_secret_type_spec st evid_list) w)
    as (_ & _ & _ & _ & Hne & Hnil).
  fold v in Hne, Hnil. fold t in Hne, Hnil.
  destruct evid_list as [|e0 rest].
  - destruct (Hnil eq_refl) as [Hr _]. rewrite Hr in Hx. destruct Hx.
  - assert (Hall : Forall2 (VerifierSpec.entry_for st (map evidence (e0 :: rest)) t)
                     (commands v) (results v)) by (apply Hne; discriminate).
    clear - Hall Hx. induction Hall as [|c y cs ys Hy _ IH]; [destruct Hx|].
    destruct Hx as [-> | Hx].
    + pose proof Hy as (Hc & _). rewrite Hc. split; [now left | exact Hy].
    + destruct (IH Hx) as [Hin He]. split; [now right | exact He].
Qed.

(** C8.  Whatever the secret type, the evidence and the world: no
    subprocess is ever started for a template that holds no recognized
    placeholder; every entry of [results] for such a template is the
    record without a run: its [evidence_used] is the sentinel
    [No token candidates found], it is not a success and carries no
    command executed, exit code, output or error; and its [ai_status]
    and [ai_analysis] are the guidance of the oracle, that is, the two
    texts that the oracle answered to a request made during the call for
    that template and the last evidence value tried, or [ERROR] and the
    text of the exception if that request raised; and when the evidence
    list is not empty every template has its entry. *)
Theorem C8_no_placeholder_no_subprocess :
  forall (World : Type) (RT : Runtime World)
         (secret_type : str) (evid_list : list EvidenceRecord) (w : World),
    let v := run_result (Verifier._verify_secret_type secret_type evid_list) w in
    let t := run_events (Verifier._verify_secret_type secret_type evid_list) w in
    (forall template args,
        In (EvSpawn template args) t -> Verifier.has_placeholder template = true) /\
    (forall x,
        In x (results v) -> Verifier.has_placeholder (command x) = false ->
        evidence_used x = py "No token candidates found" /\
        success x = false /\
        executed_command x = None /\ exit_code x = None /\
        stdout x = None /\ stderr x = None /\ error x = None /\
        exists resp,
          In (EvGuidance secret_type
                         (VerifierSpec.last_tried (map evidence evid_list))
                         (command x) resp) t /\
          match resp with
          | inr (status, analysis) =>
              ai_status x = status /\ ai_analysis x = analysis
          | inl ex =>
              ai_status x = py "ERROR" /\ ai_analysis x = str_of_exn ex
          end) /\
    (evid_list <> [] ->
     forall cmd, In cmd (commands v) -> exists x, In x (results v) /\ command x = cmd).
Proof.
  intros World RT st evid_list w v t.
  pose proof (satisfies_run (verify_secret_type_spec st evid_list) w)
    as (_ & _ & _ & Hev & Hne & _).
  fold v in Hev, Hne. fold t in Hev, Hne.
  splits.
  - intros template args Hin.
    rewrite Forall_forall in Hev. destruct (Hev _ Hin) as (cmd & _ & Ha).
    simpl in Ha. destruct Ha as [-> Hp]. exact Hp.
  - intros x Hx Hp.
    destruct (results_entries RT st evid_list w x Hx) as [_ (_ & _ & Hg)].
    destruct (Hg Hp) as (ai & Hxeq & resp & Hin & Hai).
    assert (Hfields : evidence_used x = py "No token candidates found" /\
                      success x = false /\
                      executed_command x = None /\ exit_code x = None /\
                      stdout x = None /\ stderr x = None /\ error x = None /\
                      ai_status x = fst ai /\ ai_analysis x = snd ai).
    { rewrite Hxeq. splits; reflexivity. }
    destruct Hfields as (H1 & H2 & H3 & H4 & H5 & H6 & H7 & Hs & Ha).
    splits; auto.
    exists resp. split; [exact Hin|].
    rewrite Hs, Ha, Hai. destruct resp as [ex | [status analysis]]; now split.
  - intros Hevid cmd Hin. specialize (Hne Hevid).
    clear - Hne Hin. induction Hne as [|c y cs ys Hy _ IH]; [destruct Hin|].
    destruct Hin as [-> | Hin].
    + exists y. split; [now left | exact (proj1 Hy)].
    + destruct (IH Hin) as (x & Hx & Hc). exists x. split; [now right | exact Hc].
Qed.

Lemma C8_witness :
  let evid_list := [Demo.rec (py "first-key"); Demo.rec (py "status-page-key")] in
  let v := run_result (Advisor.verify (py "Static Check") evid_list) Demo.boot in
  let t := run_events (Advisor.verify (py "Static Check") evid_list) Demo.boot in
  commands v = [py "curl https://status.example.com/health"] /\
  (exists x,
      results v = [x] /\
      evidence_used x = py "No token candidates found" /\
      ai_status x = py "REVIEW" /\
      ai_analysis x = py "No key in the command; evidence seen: status-page-key") /\
  (forall template args, In (EvSpawn template args) t ->
                         Verifier.has_placeholder template = true) /\
  length t = 2 /\
  map (fun x => (evidence_used x, ai_status x, ai_analysis x))
      (results (run_result (Demo.verify (py "Static Check") evid_list) Demo.boot))
  = [(py "No token candidates found", py "ERROR", py "oracle unavailable")].
Proof.
  intros evid_list v t.
  pose proof (@C8_no_placeholder_no_subprocess Demo.world Advisor.runtime
                (py "Static Check") evid_list Demo.boot)
    as (Hspawn & Hentry & _).
  split; [vm_compute; reflexivity|].
  split; [|split; [exact Hspawn | split; vm_compute; reflexivity]].
  eexists. split; [vm_compute; reflexivity|].
  split; [|split; vm_compute; reflexivity].
  refine (proj1 (Hentry _ _ _)); vm_compute; [now left | reflexivity].
Defined.

(** With some evidence, one entry per template. *)
Lemma one_entry_per_template (World : Type) (RT : Runtime World)
  (st : str) (evid_list : list EvidenceRecord) (w : World) :
  evid_list <> [] ->
  let v := run_result (Verifier._verify_secret_type st evid_list) w in
  length (results v) = length (commands v) /\
  length (results v) <= 3 /\
  Forall2 (fun cmd x => command x = cmd) (commands v) (results v).
Proof.
  intros Hevid v.
  pose proof (satisfies_run (verify_secret_type_spec st evid_list) w)
    as (_ & _ & Hlen & _ & Hne & _).
  fold v in Hlen, Hne. specialize (Hne Hevid).
  assert (Hl : length (results v) = length (commands v)).
  { symmetry. eapply Forall2_length. exact Hne. }
  splits; [exact Hl | lia |].
  eapply Forall2_impl; [|exact Hne]. intros c x [Hc _]. exact Hc.
Qed.

Section AttemptsProps.

Import Verifier.

Context {World : Type} {RT : Runtime World}.

Lemma run_result_bind (A B : Type) (m : M World A) (f : A -> M World B) (w : World) :
  run_result (bind m f) w = run_result (f (run_result m w)) (run_world m w).
Proof.
  unfold run_result, run_world, bind.
  destruct (m w) as [[a w1] t1]. cbn [fst snd].
  now destruct (f a w1) as [[b w2] t2].
Qed.

Lemma run_world_bind (A B : Type) (m : M World A) (f : A -> M World B) (w : World) :
  run_world (bind m f) w = run_world (f (run_result m w)) (run_world m w).
Proof.
  unfold run_result, run_world, bind.
  destruct (m w) as [[a w1] t1]. cbn [fst snd].
  now destruct (f a w1) as [[b w2] t2].
Qed.

Lemma run_result_ret (A : Type) (a : A) (w : World) : run_result (ret a) w = a.
Proof. reflexivity. Qed.

Lemma run_world_ret (A : Type) (a : A) (w : World) : run_world (ret a) w = w.
Proof. reflexivity. Qed.

Ltac run_binds :=
  repeat (rewrite run_result_bind || rewrite run_world_bind); cbv beta.

(** The first success of a list of records is kept against any failure;
    without a success the first record is. *)
Lemma best_cons (r : AttemptResult) (rs : list AttemptResult) :
  Attempts.best (r :: rs) =
  if success r then Some r
  else match find success rs with
       | Some x => Some x
       | None => Some r
       end.
Proof. unfold Attempts.best. cbn [find hd_error]. now destruct (success r). Qed.

(** One pass of the evidence loop on a template that is run does what
    one attempt does to the world, and keeps its record when there is
    none yet or when it is the first success. *)
Lemma attempt_as_record (st cmd ev : str) (l : locals) (w : World) :
  has_placeholder cmd = true ->
  let r := run_result (Attempts.attempt_record st cmd ev) w in
  let l' := run_result (attempt st cmd ev l) w in
  run_world (attempt st cmd ev l) w = run_world (Attempts.attempt_record st cmd ev) w /\
  l_results l' = l_results l /\
  l_cmd_attempted l' = true /\
  l_cmd_verified l' = l_cmd_verified l || success r /\
  l_best_result l' =
    match l_best_result l with
    | None => Some r
    | Some b => if success r && negb (success b) then Some r else Some b
    end.
Proof.
  intros Hp. unfold attempt, Attempts.attempt_record.
  run_binds. cbv zeta. rewrite Hp.
  run_binds.
  set (a := run_result (ask_verifier st ev cmd) w).
  set (w1 := run_world (ask_verifier st ev cmd) w).
  set (w2 := run_world (run_command cmd ev 20) w1).
  destruct (run_result (run_command cmd ev 20) w1)
    as [ex | [[[code out] err] executed_cmd]].
  - unfold run_result, run_world, ret. cbn [fst snd].
    unfold keep_failed, mark_attempted, set_ai, set_best.
    destruct l as [a0 v0 rs0 ai0 ca0 cv0 best0].
    cbn [l_results l_cmd_attempted l_cmd_verified l_best_result success failed_result].
    destruct best0 as [b|]; cbn [l_results l_cmd_attempted l_cmd_verified l_best_result];
      rewrite ?orb_false_r; splits; reflexivity.
  - unfold run_result, run_world, ret. cbn [fst snd].
    set (x := executed_result cmd ev (guidance a) code out err executed_cmd).
    change (is_success code out err) with (success x).
    unfold keep_executed, mark_verified, mark_attempted, set_ai, set_best.
    destruct l as [a0 v0 rs0 ai0 ca0 cv0 best0].
    destruct (success x) eqn:Hs; destruct best0 as [b|];
      cbn [l_results l_cmd_attempted l_cmd_verified l_best_result];
      rewrite ?Hs; cbn [andb];
      try (destruct (negb (success b)));
      cbn [l_results l_cmd_attempted l_cmd_verified l_best_result];
      rewrite ?orb_true_r, ?orb_false_r; splits; reflexivity.
Qed.

(** The evidence loop on a template that is run makes the attempts of
    [Attempts.attempt_records] and keeps the best of their records. *)
Lemma try_evidence_as_records (st cmd : str) (evs : list str) :
  has_placeholder cmd = true ->
  forall (l : locals) (w : World),
    l_cmd_verified l = false ->
    (forall b, l_best_result l = Some b -> success b = false) ->
    let rs := run_result (Attempts.attempt_records st cmd evs) w in
    let l' := run_result (try_evidence st cmd evs l) w in
    run_world (try_evidence st cmd evs l) w
    = run_world (Attempts.attempt_records st cmd evs) w /\
    l_results l' = l_results l /\
    (evs <> [] -> l_cmd_attempted l' = true /\ rs <> []) /\
    l_best_result l' =
      match l_best_result l with
      | None => Attempts.best rs
      | Some b => match find success rs with
                  | Some r => Some r
                  | None => Some b
                  end
      end.
Proof.
  intros Hp. induction evs as [|ev rest IH]; intros l w Hcv Hbest.
  - cbn [try_evidence Attempts.attempt_records].
    unfold run_result, run_world, ret. cbn [fst snd find Attempts.best hd_error].
    splits; [reflexivity | reflexivity | congruence |].
    now destruct (l_best_result l).
  - cbn [try_evidence Attempts.attempt_records]. cbv zeta.
    run_binds.
    destruct (@attempt_as_record st cmd ev l w Hp) as (Hw & Hr & Hca & Hcv1 & Hb1).
    set (r := run_result (Attempts.attempt_record st cmd ev) w) in *.
    set (l1 := run_result (attempt st cmd ev l) w) in *.
    rewrite Hw. set (w1 := run_world (Attempts.attempt_record st cmd ev) w).
    rewrite Hcv in Hcv1. cbn [orb] in Hcv1. rewrite Hcv1.
    destruct (success r) eqn:Hs.
    + unfold run_result, run_world, ret. cbn [fst snd].
      splits; [reflexivity | exact Hr | intros _; split; [exact Hca | discriminate] |].
      rewrite Hb1. unfold Attempts.best. cbn [find hd_error]. rewrite Hs.
      destruct (l_best_result l) as [b|] eqn:Eb; [|reflexivity].
      now rewrite (Hbest b eq_refl).
    + run_binds.
      assert (Hbest1 : forall b, l_best_result l1 = Some b -> success b = false).
      { intros b Hb. rewrite Hb1 in Hb. destruct (l_best_result l) as [b0|] eqn:Eb.
        - cbn [andb] in Hb. inversion Hb; subst. now apply Hbest.
        - inversion Hb; subst. exact Hs. }
      destruct (IH l1 w1 Hcv1 Hbest1) as (Hw2 & Hr2 & Hne2 & Hb2).
      cbv beta. rewrite ?run_result_ret, ?run_world_ret.
      splits.
      * exact Hw2.
      * now rewrite Hr2.
      * intros _. split; [|discriminate].
        destruct rest as [|ev2 rest']; [|apply Hne2; discriminate].
        cbn [try_evidence]. rewrite run_result_ret. exact Hca.
      * rewrite Hb2, Hb1, best_cons. cbn [find]. rewrite Hs.
        destruct (l_best_result l) as [b|]; cbn [andb]; reflexivity.
Qed.

(** The evidence loop on a template that is not run only asks for
    guidance, and leaves the answer to the last request. *)
Lemma try_evidence_as_guidance (st cmd : str) (evs : list str) :
  has_placeholder cmd = false ->
  forall (l : locals) (w : World),
    l_cmd_verified l = false ->
    let l' := run_result (try_evidence st cmd evs l) w in
    run_world (try_evidence st cmd evs l) w
    = run_world (Attempts.last_guidance st cmd evs (l_ai l)) w /\
    l_ai l' = run_result (Attempts.last_guidance st cmd evs (l_ai l)) w /\
    l_results l' = l_results l /\
    l_cmd_attempted l' = l_cmd_attempted l.
Proof.
  intros Hp. induction evs as [|ev rest IH]; intros l w Hcv.
  - cbn [try_evidence Attempts.last_guidance]. now splits.
  - cbn [try_evidence Attempts.last_guidance]. cbv zeta.
    unfold attempt. rewrite Hp.
    run_binds.
    set (a := run_result (ask_verifier st ev cmd) w).
    set (w1 := run_world (ask_verifier st ev cmd) w).
    cbv beta. rewrite ?run_result_ret, ?run_world_ret.
    change (l_cmd_verified (set_ai (guidance a) l)) with (l_cmd_verified l).
    rewrite Hcv.
    destruct (IH (set_ai (guidance a) l) w1 Hcv) as (Hw & Hai & Hr & Hca).
    splits; [exact Hw | exact Hai | exact Hr | exact Hca].
Qed.

Lemma last_guidance_answers (st cmd : str) (evs : list str) :
  forall (ai : option (str * str)) (w : World),
    ai <> None \/ evs <> [] ->
    run_result (Attempts.last_guidance st cmd evs ai) w <> None.
Proof.
  induction evs as [|ev rest IH]; intros ai w H; cbn [Attempts.last_guidance].
  - destruct H as [H | H]; [exact H | congruence].
  - rewrite run_result_bind. apply IH. left. discriminate.
Qed.

Lemma last_guidance_start (st cmd : str) (evs : list str)
  (a b : option (str * str)) :
  evs <> [] ->
  Attempts.last_guidance st cmd evs a = Attempts.last_guidance st cmd evs b.
Proof. destruct evs; [congruence | reflexivity]. Qed.

(** The work on one template appends the entry that [Attempts.entry]
    tells. *)
Lemma verify_template_as_entry (st : str) (es : list str) (l : locals) (cmd : str)
  (w : World) :
  es <> [] ->
  run_world (verify_template st es l cmd) w
  = run_world (Attempts.entry st (firstn 5 es) cmd) w /\
  exists l' x,
    run_result (verify_template st es l cmd) w = inr l' /\
    run_result (Attempts.entry st (firstn 5 es) cmd) w = Some x /\
    l_results l' = l_results l ++ [x].
Proof.
  intros Hes.
  assert (Hes5 : firstn 5 es <> []) by now apply firstn_nonempty.
  unfold verify_template, Attempts.entry.
  run_binds.
  destruct (has_placeholder cmd) eqn:Hp.
  - destruct (@try_evidence_as_records st cmd (firstn 5 es) Hp (next_template l) w
                eq_refl ltac:(intros b Hb; discriminate Hb))
      as (Hw & Hr & Hne & Hb).
    destruct (Hne Hes5) as [Hca Hrs]. clear Hne.
    run_binds. rewrite Hw, Hca. cbn [negb].
    cbn [l_best_result next_template] in Hb.
    set (rs := run_result (Attempts.attempt_records st cmd (firstn 5 es)) w) in *.
    set (l1 := run_result (try_evidence st cmd (firstn 5 es) (next_template l)) w) in *.
    split; [reflexivity|].
    assert (Hsome : exists x, Attempts.best rs = Some x).
    { unfold Attempts.best. destruct (find success rs) as [y|]; [now exists y|].
      destruct rs as [|y rs']; [congruence | now exists y]. }
    destruct Hsome as (x & Hx).
    exists (append_best l1), x. splits.
    + reflexivity.
    + cbv beta. rewrite run_result_ret. exact Hx.
    + unfold append_best. rewrite Hb, Hx. cbn [l_results]. now rewrite Hr.
  - destruct (@try_evidence_as_guidance st cmd (firstn 5 es) Hp (next_template l) w
                eq_refl)
      as (Hw & Hai & Hr & Hca).
    run_binds.
    rewrite (@last_guidance_start st cmd (firstn 5 es) None
               (l_ai (next_template l)) Hes5).
    rewrite <- Hw, Hca. cbn [l_cmd_attempted next_template negb].
    set (l1 := run_result (try_evidence st cmd (firstn 5 es) (next_template l)) w) in *.
    pose proof (@last_guidance_answers st cmd (firstn 5 es) (l_ai (next_template l)) w
                  (or_intror Hes5)) as Hsome.
    rewrite <- Hai in *.
    destruct (l_ai l1) as [ai|]; [|congruence].
    split; [reflexivity|].
    exists (append_best (set_best (guidance_only_result cmd ai) l1)),
           (guidance_only_result cmd ai).
    splits; [reflexivity | reflexivity |].
    unfold append_best, set_best. cbn [l_best_result l_results]. now rewrite Hr.
Qed.

(** The loop over the templates appends the entries that
    [Attempts.entries] tells. *)
Lemma verify_templates_as_entries (st : str) (es : list str) (cmds : list str) :
  es <> [] ->
  forall (l : locals) (w : World),
  exists l',
    run_result (verify_templates st es cmds l) w = inr l' /\
    l_results l' = l_results l
                   ++ run_result (Attempts.entries st (firstn 5 es) cmds) w.
Proof.
  intros Hes. induction cmds as [|cmd rest IH]; intros l w.
  - exists l. split; [reflexivity|].
    cbn [Attempts.entries]. rewrite run_result_ret. now rewrite app_nil_r.
  - cbn [verify_templates Attempts.entries].
    run_binds.
    destruct (@verify_template_as_entry st es l cmd w Hes)
      as (Hw & l1 & x & Hl1 & Hx & Hr1).
    rewrite Hl1, Hx, Hw.
    destruct (IH l1 (run_world (Attempts.entry st (firstn 5 es) cmd) w))
      as (l' & Hl' & Hr').
    exists l'. split; [exact Hl'|].
    rewrite run_result_ret.
    rewrite Hr', Hr1, <- app_assoc. reflexivity.
Qed.

(** With some evidence, [results] is the list of the entries of the
    templates of [commands]. *)
Lemma results_are_entries (st : str) (evid_list : list EvidenceRecord) (w : World) :
  evid_list <> [] ->
  let v := run_result (_verify_secret_type st evid_list) w in
  results v
  = run_result (Attempts.entries st (firstn 5 (map evidence evid_list)) (commands v)) w.
Proof.
  intros Hevid. cbv zeta.
  assert (Hes : map evidence evid_list <> []).
  { destruct evid_list; [congruence | discriminate]. }
  unfold run_result at 1 3, _verify_secret_type.
  destruct (read_key_verifier_md w) as [ex | md]; [reflexivity|].
  destruct (@verify_templates_as_entries st (map evidence evid_list)
              (firstn 3 (catalog_commands st md)) Hes initial_locals w)
    as (l' & Hl' & Hr').
  unfold run_result at 1 in Hl'.
  destruct (verify_templates st (map evidence evid_list)
              (firstn 3 (catalog_commands st md)) initial_locals w)
    as [[r w1] t1].
  cbn [fst] in Hl'. subst r. cbn [fst results commands]. exact Hr'.
Qed.

End AttemptsProps.

(** C10.  For every verification with a non-empty evidence list,
    [results] holds exactly one entry per processed template, in the
    order of [commands], hence at most three, however many evidence
    values were tried for a template; [verified] tells whether [results]
    holds a success; and the one entry retained for a template is the
    best record of the attempts made on it, in the order of the first
    five evidence values and up to the first success: the record of the
    first attempt that succeeded, and the record of the first attempt
    when none did (for a template without placeholder, the record
    without a run). *)
Theorem C10_one_result_per_template :
  forall (World : Type) (RT : Runtime World)
         (secret_type : str) (evid_list : list EvidenceRecord) (w : World),
    evid_list <> [] ->
    let v := run_result (Verifier._verify_secret_type secret_type evid_list) w in
    length (results v) = length (commands v) /\
    length (results v) <= 3 /\
    Forall2 (fun cmd x => command x = cmd) (commands v) (results v) /\
    (verified v = true <-> exists x, In x (results v) /\ success x = true) /\
    results v
    = run_result (Attempts.entries secret_type (firstn 5 (map evidence evid_list))
                                   (commands v)) w.
Proof.
  intros World RT st evid_list w Hevid v.
  destruct (@one_entry_per_template World RT st evid_list w Hevid) as (H1 & H2 & H3).
  splits; auto.
  - exact (proj1 (proj2 (satisfies_run (verify_secret_type_spec st evid_list) w))).
  - exact (@results_are_entries World RT st evid_list w Hevid).
Qed.

Lemma C10_witness :
  let evid_list := [Demo.rec Demo.dead_token; Demo.rec Demo.good_token] in
  let v := run_result (Demo.verify (py "GitHub Token") evid_list) Demo.boot in
  let t := run_events (Demo.verify (py "GitHub Token") evid_list) Demo.boot in
  let gone := [Demo.rec Demo.dead_token; Demo.rec (py "ghp_gone0123456789abcdefghij")] in
  length (filter (fun e => match e with EvSpawn _ _ => true | _ => false end) t) = 2 /\
  map evidence_used (results v) = [Demo.good_token] /\
  map evidence_used
      (results (run_result (Demo.verify (py "GitHub Token") gone) Demo.boot))
  = [Demo.dead_token] /\
  length (results v) = length (commands v) /\
  length (results v) <= 3 /\
  Forall2 (fun cmd x => command x = cmd) (commands v) (results v) /\
  (verified v = true <-> exists x, In x (results v) /\ success x = true) /\
  results v
  = run_result (@Attempts.entries Demo.world Demo.runtime (py "GitHub Token")
                                  (firstn 5 (map evidence evid_list)) (commands v))
               Demo.boot.
Proof.
  intros evid_list v t gone. split; [vm_compute; reflexivity|].
  split; [vm_compute; reflexivity|]. split; [vm_compute; reflexivity|].
  apply (@C10_one_result_per_template Demo.world Demo.runtime
           (py "GitHub Token") evid_list Demo.boot).
  discriminate.
Defined.

(* ================================================================== *)
(** * Properties of the finding aggregator *)
(* ================================================================== *)

Section SortedReverse.

Variable A : Type.
Variable key : A -> nat.

Lemma insert_desc_perm (x : A) (l : list A) :
  Permutation (x :: l) (Aggregator.insert_desc key x l).
Proof.
  induction l as [|y l IH]; simpl; [reflexivity|].
  destruct (key x <? key y); [|reflexivity].
  rewrite perm_swap. now constructor.
Qed.

Lemma sorted_reverse_perm (l : list A) :
  Permutation l (Aggregator.sorted_reverse key l).
Proof.
  induction l as [|x l IH]; simpl; [constructor|].
  rewrite <- insert_desc_perm. now constructor.
Qed.

Lemma insert_desc_sorted (x : A) (l : list A) :
  StronglySorted (fun a b => key b <= key a) l ->
  StronglySorted (fun a b => key b <= key a) (Aggregator.insert_desc key x l).
Proof.
  induction 1 as [|y l Hl IH Hy]; simpl.
  - constructor; constructor.
  - destruct (key x <? key y) eqn:E.
    + apply Nat.ltb_lt in E. constructor; [exact IH|].
      rewrite <- insert_desc_perm. constructor; [lia | exact Hy].
    + apply Nat.ltb_ge in E. constructor; [now constructor|].
      constructor; [exact E|].
      eapply Forall_impl; [|exact Hy]. cbv beta. intros; lia.
Qed.

Lemma sorted_reverse_sorted (l : list A) :
  StronglySorted (fun a b => key b <= key a) (Aggregator.sorted_reverse key l).
Proof.
  induction l as [|x l IH]; simpl; [constructor | now apply insert_desc_sorted].
Qed.

(** Stability: the elements of any one key keep their order. *)
Lemma insert_desc_stable (k : nat) (x : A) (l : list A) :
  filter (fun y => key y =? k) (Aggregator.insert_desc key x l)
  = filter (fun y => key y =? k) (x :: l).
Proof.
  induction l as [|y l IH]; [reflexivity|].
  cbn [Aggregator.insert_desc]. destruct (key x <? key y) eqn:E; [|reflexivity].
  apply Nat.ltb_lt in E. cbn [filter] in *.
  destruct (key y =? k) eqn:Ey, (key x =? k) eqn:Ex;
    try (apply Nat.eqb_eq in Ey); try (apply Nat.eqb_eq in Ex);
    try lia; now rewrite IH.
Qed.

Lemma sorted_reverse_stable (k : nat) (l : list A) :
  filter (fun y => key y =? k) (Aggregator.sorted_reverse key l)
  = filter (fun y => key y =? k) l.
Proof.
  induction l as [|x l IH]; [reflexivity|].
  cbn [Aggregator.sorted_reverse]. rewrite insert_desc_stable.
  cbn [filter]. now rewrite IH.
Qed.

Lemma list_max_perm (l l' : list nat) :
  Permutation l l' -> list_max l = list_max l'.
Proof.
  induction 1; simpl; lia.
Qed.

End SortedReverse.

Lemma rank_le_4 (risk : str) : Aggregator.rank risk <= 4.
Proof.
  unfold Aggregator.rank, Aggregator.highest_rank. simpl.
  repeat match goal with |- context [Str.eqb ?a ?b] => destruct (Str.eqb a b) end; lia.
Qed.

Lemma label_of_rank_spec (m : nat) :
  m <= 4 ->
  exists label,
    Aggregator.label_of_rank Aggregator.highest_rank m = Some label /\
    In label severity_labels /\ Aggregator.rank label = m.
Proof.
  intros H.
  destruct m as [|[|[|[|[|m]]]]]; [| | | | |lia];
    eexists; (split; [reflexivity|]); split; vm_compute; tauto.
Qed.


Section AggregatorProps.

Import Aggregator.

Context {World : Type} {RT : Runtime World}.

Lemma ask_classify_spec (stype : str) :
  satisfies (ask_classify stype) (fun r t => t = [EvClassify stype r]).
Proof.
  intros w r w' t E. unfold ask_classify in E.
  destruct (classify stype w). now inversion E.
Qed.

Lemma ask_remediation_spec (stype : str) :
  satisfies (ask_remediation stype) (fun _ t => t = [EvRemediate stype]).
Proof.
  intros w r w' t E. unfold ask_remediation in E.
  destruct (Remediation_Agent stype w). now inversion E.
Qed.

Lemma now_spec : satisfies now (fun _ t => t = []).
Proof. intros w r w' t E. unfold now in E. now inversion E. Qed.

(** The verifier never emits a classification event. *)
Lemma verify_emits_no_classify (stype : str) (evid_list : list EvidenceRecord) :
  satisfies (Verifier._verify_secret_type stype evid_list)
            (fun _ t => forall s r, ~ In (EvClassify s r) t).
Proof.
  eapply sat_weaken; [apply verify_secret_type_spec|]. cbv beta.
  intros v t (_ & _ & _ & Hev & _) s r Hin.
  rewrite Forall_forall in Hev. destruct (Hev _ Hin) as (cmd & _ & Ha). exact Ha.
Qed.

(** The loop over the buckets: a failed classification is the result of
    the loop; otherwise one finding per bucket is appended, in bucket
    order, and [max_score] rises to the highest rank among them. *)
Lemma build_findings_spec (secrets : Buckets) :
  forall (acc : list Finding) (max_score : nat),
    satisfies (build_findings secrets acc max_score)
      (fun r t =>
         (forall stype e, In (EvClassify stype (inl e)) t -> r = inl e) /\
         match r with
         | inl _ => True
         | inr (fs, m) =>
             exists built,
               fs = acc ++ built /\
               map secret_type built = map fst secrets /\
               m = Nat.max max_score (list_max (map severity_rank built))
         end).
Proof.
  induction secrets as [|[stype evid_list] rest IH]; intros acc m;
    cbn [build_findings].
  - apply sat_ret. split; [intros ? ? []|].
    exists []. rewrite app_nil_r. simpl. splits; auto. lia.
  - eapply sat_bind; [apply ask_classify_spec|].
    intros c t1 ->. destruct c as [ex | [risk desc]].
    + apply sat_ret. split; [|exact I].
      intros s e [H | []]. now inversion H.
    + eapply sat_bind; [apply ask_remediation_spec|].
      intros s t2 ->. destruct s as [ex | steps].
      * apply sat_ret. split; [|exact I].
        intros s e [H | [H | []]]; discriminate.
      * eapply sat_bind; [apply verify_emits_no_classify|].
        intros v t3 Hno.
        eapply sat_bind; [apply now_spec|].
        intros ts t4 ->.
        eapply sat_weaken; [apply IH|]. cbv beta.
        intros r t5 [Hfail Hr]. split.
        -- intros s e Hin.
           simpl in Hin. destruct Hin as [H | [H | Hin]]; try discriminate.
           apply in_app_or in Hin as [Hin | Hin]; [now destruct (Hno _ _ Hin)|].
           exact (Hfail _ _ Hin).
        -- destruct r as [ex | [fs m']]; [exact I|].
           destruct Hr as (built & -> & Hmap & ->).
           exists (make_finding stype evid_list risk desc steps v ts :: built).
           splits.
           ++ now rewrite <- app_assoc.
           ++ simpl. now rewrite Hmap.
           ++ cbn [map].
              change (severity_rank (make_finding stype evid_list risk desc steps v ts))
                with (rank risk).
              change (list_max (rank risk :: map severity_rank built))
                with (Nat.max (rank risk) (list_max (map severity_rank built))).
              lia.
Qed.

(** What [build_json_report] returns and emits. *)
Lemma build_json_report_spec (secrets : Buckets) :
  satisfies (build_json_report secrets)
    (fun r t =>
       (forall stype e, In (EvClassify stype (inl e)) t -> r = inl e) /\
       match r with
       | inl _ => True
       | inr rep =>
           exists built,
             map secret_type built = map fst secrets /\
             findings rep = sorted_reverse severity_rank built /\
             In (overall_risk rep) severity_labels /\
             rank (overall_risk rep) = list_max (map severity_rank built) /\
             (built = [] -> overall_risk rep = INFO)
       end).
Proof.
  unfold build_json_report.
  eapply sat_bind; [apply build_findings_spec|].
  intros r t1 [Hfail Hr]. destruct r as [ex | [fs m]].
  - apply sat_ret. rewrite app_nil_r. split; [|exact I].
    intros stype e Hin. specialize (Hfail _ _ Hin). now inversion Hfail.
  - destruct Hr as (built & Hfs & Hmap & Hm). simpl in Hfs, Hm. subst fs m.
    assert (Hnofail : forall t2 (r : exn + Report),
               (forall stype e, In (EvClassify stype (inl e)) (t1 ++ t2 ++ []) -> t2 = [] ->
                                r = inl e)).
    { intros t2 r stype e Hin ->. simpl in Hin. rewrite app_nil_r in Hin.
      specialize (Hfail _ _ Hin). discriminate. }
    destruct built as [|f built].
    + eapply sat_bind; [apply now_spec|]. intros ts t2 ->. apply sat_ret.
      split; [intros stype0 e0 Hin0; exact (Hnofail [] _ stype0 e0 Hin0 eq_refl)|].
      exists []. simpl. splits; auto. vm_compute. tauto.
    + set (fs := f :: built) in *.
      assert (Hle : list_max (map severity_rank fs) <= 4).
      { apply list_max_le. apply Forall_forall. intros n Hn.
        apply in_map_iff in Hn as (g & <- & _). apply rank_le_4. }
      destruct (label_of_rank_spec Hle) as (label & Hlab & Hin & Hrank).
      change (match fs with [] => Some INFO | _ :: _ => label_of_rank highest_rank
                (list_max (map severity_rank fs)) end)
        with (label_of_rank highest_rank (list_max (map severity_rank fs))).
      rewrite Hlab.
      eapply sat_bind; [apply now_spec|]. intros ts t2 ->. apply sat_ret.
      split; [intros stype0 e0 Hin0; exact (Hnofail [] _ stype0 e0 Hin0 eq_refl)|].
      exists fs. simpl. splits; auto. discriminate.
Qed.

End AggregatorProps.


Lemma rank_injective (a b : str) :
  In a severity_labels -> In b severity_labels ->
  Aggregator.rank a = Aggregator.rank b -> a = b.
Proof.
  intros Ha Hb. simpl in Ha, Hb.
  repeat (destruct Ha as [<- | Ha]); try contradiction;
    repeat (destruct Hb as [<- | Hb]); try contradiction;
    vm_compute; intros H; first [reflexivity | discriminate].
Qed.



(** C6, as stated, fails on the code: when the oracle fails to classify
    the second of three buckets, [build_json_report] returns no report at
    all; the exception is its result, and the finding already built for
    the first bucket is lost with the rest. *)
Lemma C6_counterexample :
  In (EvClassify (py "Broken Type") (inl Examples.classification_failed))
     (run_events (Demo.report Examples.broken_buckets) Demo.boot) /\
  run_result (Demo.report Examples.broken_buckets) Demo.boot
    = inl Examples.classification_failed /\
  ~ exists rep, run_result (Demo.report Examples.broken_buckets) Demo.boot = inr rep.
Proof.
  split; [vm_compute; tauto|]. split; [vm_compute; reflexivity|].
  intros [rep H]. vm_compute in H. discriminate.
Qed.

(** C6 (amended).  When the Classify oracle call fails for a bucket, the
    failure is the outcome of the whole run: [build_json_report] raises
    that exception and returns no report.  A report, when one is
    returned, holds exactly one finding per bucket: none is skipped. *)
Theorem C6_classify_failure_propagates :
  forall (World : Type) (RT : Runtime World) (secrets : Buckets) (w : World),
    (forall stype e,
        In (EvClassify stype (inl e))
           (run_events (Aggregator.build_json_report secrets) w) ->
        run_result (Aggregator.build_json_report secrets) w = inl e) /\
    (forall rep,
        run_result (Aggregator.build_json_report secrets) w = inr rep ->
        Permutation (map secret_type (findings rep)) (map fst secrets)).
Proof.
  intros World RT secrets w.
  pose proof (satisfies_run (build_json_report_spec secrets) w) as [Hfail H].
  split; [exact Hfail|].
  intros rep Hrun. rewrite Hrun in H. destruct H as (built & Hmap & Hf & _).
  rewrite Hf, <- Hmap. apply Permutation_map, Permutation_sym, sorted_reverse_perm.
Qed.

Lemma C6_witness :
  run_result (Demo.report Examples.broken_buckets) Demo.boot
    = inl Examples.classification_failed.
Proof.
  apply (proj1 (@C6_classify_failure_propagates Demo.world Demo.runtime
                  Examples.broken_buckets Demo.boot) (py "Broken Type")).
  vm_compute. tauto.
Defined.

(* ================================================================== *)
(** * Properties of the evidence parser *)
(* ================================================================== *)

Lemma splitn_after_skip (sep p b : str) :
  Str.splitn_go sep 0 (length p) [] (p ++ b) = [b].
Proof.
  induction p as [|x p IH]; simpl.
  - now destruct b.
  - exact IH.
Qed.

(** [s.split(sep, 1)] cuts at the first occurrence of [sep]. *)
Lemma splitn_first (sep : str) (s : str) :
  sep <> [] -> Str.contains sep s = true ->
  forall cur : str,
  exists a b,
    s = a ++ sep ++ b /\
    Str.splitn_go sep 1 0 cur s = [rev cur ++ a; b] /\
    (forall p q, s = p ++ sep ++ q -> length a <= length p).
Proof.
  intros Hsep. induction s as [|c s IH]; intros Hc cur.
  - simpl in Hc. rewrite orb_false_r in Hc. destruct sep; [congruence | discriminate].
  - cbn [Str.splitn_go]. destruct (Str.startswith sep (c :: s)) eqn:Hs.
    + apply startswith_iff in Hs as [b Hb]. exists [], b.
      rewrite app_nil_r. splits.
      * exact Hb.
      * destruct sep as [|x sep']; [congruence|].
        simpl in Hb. injection Hb as -> ->.
        cbn [length Nat.sub]. rewrite Nat.sub_0_r.
        now rewrite splitn_after_skip.
      * intros; simpl; lia.
    + cbn [Str.contains] in Hc. rewrite Hs in Hc. simpl in Hc.
      destruct (IH Hc (c :: cur)) as (a & b & -> & Hgo & Hfirst).
      exists (c :: a), b. splits.
      * reflexivity.
      * rewrite Hgo. simpl. now rewrite <- app_assoc.
      * intros p q Hpq. destruct p as [|d p].
        -- simpl in Hpq. assert (Str.startswith sep (c :: a ++ sep ++ b) = true)
             by (apply startswith_iff; now exists q).
           congruence.
        -- simpl in Hpq. injection Hpq as _ Hpq. simpl.
           specialize (Hfirst _ _ Hpq). lia.
Qed.

Lemma split_arrow_spec (line : str) :
  Str.contains ParserSpec.arrow line = true ->
  exists a b,
    ParserSpec.arrow_sides line a b /\
    Parser.split_arrow line = (Str.strip a, Str.strip b).
Proof.
  intros Hc.
  destruct (@splitn_first ParserSpec.arrow line ltac:(discriminate) Hc [])
    as (a & b & Hline & Hgo & Hfirst).
  exists a, b. split; [now split|].
  unfold Parser.split_arrow, Str.splitn.
  change (py "->") with ParserSpec.arrow. now rewrite Hgo.
Qed.

Section ParserProps.

Variable urlparse_path : str -> option str.

Import ParserSpec (append_row).

Lemma parse_line_step (secrets : Buckets) (current_url raw : str) :
  Parser.parse_line urlparse_path (secrets, current_url) raw =
  let line := Str.strip raw in
  if Parser.is_url_line line then (secrets, Parser.url_of_line line)
  else if Str.contains ParserSpec.arrow line then
    (append_row secrets
       (fst (Parser.split_arrow line),
        mkEvidence (snd (Parser.split_arrow line))
          (Parser.filename_of urlparse_path (snd (Parser.split_arrow line)) current_url)
          current_url),
     current_url)
  else (secrets, current_url).
Proof.
  unfold Parser.parse_line. change (py "->") with ParserSpec.arrow. cbv zeta.
  destruct (Parser.is_url_line (Str.strip raw)); [reflexivity|].
  destruct (Str.contains ParserSpec.arrow (Str.strip raw)); cbn [negb]; [|reflexivity].
  now destruct (Parser.split_arrow (Str.strip raw)).
Qed.

(** The loop of the parser appends the rows of the dump, in order. *)
Lemma parse_lines_rows (raws : list str) :
  forall (secrets : Buckets) (current_url : str),
    fst (fold_left (Parser.parse_line urlparse_path) raws (secrets, current_url))
    = fold_left append_row (ParserSpec.rows urlparse_path current_url raws) secrets.
Proof.
  induction raws as [|raw rest IH]; intros secrets current_url; [reflexivity|].
  cbn [fold_left ParserSpec.rows]. rewrite parse_line_step. cbv zeta.
  destruct (Parser.is_url_line (Str.strip raw)); [apply IH|].
  destruct (Str.contains ParserSpec.arrow (Str.strip raw)); [|apply IH].
  rewrite IH. reflexivity.
Qed.

Lemma lookup_append (k k' : str) (r : EvidenceRecord) (d : Buckets) :
  Parser.lookup k (Parser.bucket_append k' r d) =
  if Str.eqb k' k
  then Some (match Parser.lookup k d with Some v => v | None => [] end ++ [r])
  else Parser.lookup k d.
Proof.
  induction d as [|[k0 v] d IH]; simpl.
  - destruct (Str.eqb k' k) eqn:E.
    + apply str_eqb_eq in E as ->. now rewrite str_eqb_refl.
    + apply str_eqb_neq in E.
      destruct (Str.eqb k k') eqn:E'; [apply str_eqb_eq in E'; congruence | reflexivity].
  - destruct (Str.eqb k' k0) eqn:E0; simpl.
    + apply str_eqb_eq in E0 as ->.
      destruct (Str.eqb k k0) eqn:E.
      * apply str_eqb_eq in E as ->. now rewrite str_eqb_refl.
      * destruct (Str.eqb k0 k) eqn:E'; [apply str_eqb_eq in E'; subst|];
          [now rewrite str_eqb_refl in E | reflexivity].
    + destruct (Str.eqb k k0) eqn:E.
      * apply str_eqb_eq in E as ->. now rewrite E0.
      * exact IH.
Qed.

Lemma lookup_rows (k : str) (rs : list (str * EvidenceRecord)) :
  forall d : Buckets,
    Parser.lookup k (fold_left append_row rs d) =
    match Parser.lookup k d, ParserSpec.bucket_of k rs with
    | Some v, b => Some (v ++ b)
    | None, [] => None
    | None, b => Some b
    end.
Proof.
  unfold ParserSpec.bucket_of.
  induction rs as [|[k' r] rs IH]; intros d; cbn [fold_left filter map fst].
  - destruct (Parser.lookup k d); [now rewrite app_nil_r | reflexivity].
  - rewrite IH. unfold append_row. cbn [fst snd]. rewrite lookup_append.
    destruct (Str.eqb k' k); cbn [map snd].
    + destruct (Parser.lookup k d); [now rewrite <- app_assoc | reflexivity].
    + reflexivity.
Qed.

Lemma keys_append (k : str) (r : EvidenceRecord) (d : Buckets) :
  map fst (Parser.bucket_append k r d) = ParserSpec.add_key (map fst d) k.
Proof.
  unfold ParserSpec.add_key. induction d as [|[k0 v] d IH]; [reflexivity|].
  cbn [Parser.bucket_append map fst Str.mem existsb].
  fold (Str.mem k (map fst d)).
  destruct (Str.eqb k k0); cbn [orb map fst]; [reflexivity|].
  rewrite IH. now destruct (Str.mem k (map fst d)).
Qed.

Lemma keys_rows (rs : list (str * EvidenceRecord)) :
  forall d : Buckets,
    map fst (fold_left append_row rs d)
    = fold_left ParserSpec.add_key (map fst rs) (map fst d).
Proof.
  induction rs as [|row rs IH]; intros d; [reflexivity|].
  cbn [fold_left map]. rewrite IH. unfold append_row. now rewrite keys_append.
Qed.

Lemma mem_iff (k : str) (ks : list str) : Str.mem k ks = true <-> In k ks.
Proof.
  unfold Str.mem. rewrite existsb_exists. split.
  - intros (x & Hx & E). apply str_eqb_eq in E. now subst.
  - intros H. exists k. split; [exact H | apply str_eqb_refl].
Qed.

Lemma add_key_nodup (acc : list str) (k : str) :
  NoDup acc -> NoDup (ParserSpec.add_key acc k).
Proof.
  intros H. unfold ParserSpec.add_key. destruct (Str.mem k acc) eqn:E; [exact H|].
  assert (~ In k acc) by (rewrite <- mem_iff; congruence).
  apply NoDup_app; [exact H | repeat constructor; intros [] | ].
  intros x Hx [<- | []]. contradiction.
Qed.

Lemma first_seen_nodup (ks : list str) : NoDup (ParserSpec.first_seen ks).
Proof.
  unfold ParserSpec.first_seen. generalize (NoDup_nil str).
  generalize (@nil str) as acc.
  induction ks as [|k ks IH]; intros acc H; [exact H|].
  cbn [fold_left]. now apply IH, add_key_nodup.
Qed.

(** One row per evidence line, in order, with the two sides of the
    first separator, stripped, as secret type and evidence. *)
Lemma rows_lines (raws : list str) :
  forall current_url : str,
    Forall2
      (fun line row =>
         exists a b,
           ParserSpec.arrow_sides line a b /\
           fst row = Str.strip a /\ evidence (snd row) = Str.strip b)
      (filter ParserSpec.is_evidence_line (map Str.strip raws))
      (ParserSpec.rows urlparse_path current_url raws).
Proof.
  induction raws as [|raw rest IH]; intros current_url; [constructor|].
  cbn [map filter ParserSpec.rows]. unfold ParserSpec.is_evidence_line at 1.
  destruct (Parser.is_url_line (Str.strip raw)); cbn [negb andb]; [apply IH|].
  destruct (Str.contains ParserSpec.arrow (Str.strip raw)) eqn:Hc; [|apply IH].
  constructor; [|apply IH].
  destruct (split_arrow_spec _ Hc) as (a & b & Hs & ->).
  exists a, b. now splits.
Qed.

(** The parser against the rows of the dump. *)
Lemma parse_secret_file_spec (dump : str) :
  let rs := ParserSpec.rows_of_dump urlparse_path dump in
  let secrets := Parser.parse_secret_file urlparse_path dump in
  (forall k,
      Parser.lookup k secrets =
      match ParserSpec.bucket_of k rs with [] => None | b => Some b end) /\
  map fst secrets = ParserSpec.first_seen (map fst rs) /\
  NoDup (map fst secrets).
Proof.
  intros rs secrets.
  assert (E : secrets = fold_left append_row rs []) by apply parse_lines_rows.
  assert (K : map fst secrets = ParserSpec.first_seen (map fst rs)).
  { rewrite E. apply keys_rows. }
  splits.
  - intros k. rewrite E, lookup_rows. reflexivity.
  - exact K.
  - rewrite K. apply first_seen_nodup.
Qed.

End ParserProps.

(** C9, as stated, fails on the code: a line that starts with
    [[ + ] URL:] is taken as a URL line even when it holds the separator;
    it yields no record. *)
Lemma C9_counterexample :
  Str.file_lines Examples.url_with_arrow = [Examples.url_with_arrow] /\
  Str.contains (py "->") Examples.url_with_arrow = true /\
  Parser.parse_secret_file Parser.simple_url_path Examples.url_with_arrow = [].
Proof. repeat split; vm_compute; reflexivity. Qed.

(** C9 (amended).  For every dump, the parser maps each line that,
    stripped, does not start with [[ + ] URL:] and holds the separator
    [->] to exactly one record, appended to the bucket named by the
    stripped text before the first [->], with the stripped text after it
    as evidence; all other lines contribute no record.  Buckets keep
    their records in line order, and their keys are distinct, in order
    of first appearance.  The parser is total: no line makes it raise. *)
Theorem C9_parser_one_record_per_evidence_line :
  forall (urlparse_path : str -> option str) (dump : str),
    let rs := ParserSpec.rows_of_dump urlparse_path dump in
    let secrets := Parser.parse_secret_file urlparse_path dump in
    Forall2
      (fun line row =>
         exists a b,
           ParserSpec.arrow_sides line a b /\
           fst row = Str.strip a /\ evidence (snd row) = Str.strip b)
      (filter ParserSpec.is_evidence_line (map Str.strip (Str.file_lines dump)))
      rs /\
    (forall k,
        Parser.lookup k secrets =
        match ParserSpec.bucket_of k rs with [] => None | b => Some b end) /\
    map fst secrets = ParserSpec.first_seen (map fst rs) /\
    NoDup (map fst secrets).
Proof.
  intros urlparse_path dump rs secrets. split.
  - apply rows_lines.
  - apply parse_secret_file_spec.
Qed.

(** C4.  In every report the findings are sorted by descending severity
    rank, and the sort is stable: they are a rearrangement of the
    findings built bucket by bucket, in which the findings of any one
    rank keep the order of their buckets.  The buckets of a parsed dump
    come in the order in which their secret types first appear. *)
Theorem C4_findings_sorted_stable :
  (forall (World : Type) (RT : Runtime World) (secrets : Buckets) (w : World)
          (rep : Report),
      run_result (Aggregator.build_json_report secrets) w = inr rep ->
      StronglySorted (fun a b => severity_rank b <= severity_rank a) (findings rep) /\
      exists built,
        map secret_type built = map fst secrets /\
        Permutation built (findings rep) /\
        forall k,
          filter (fun f => severity_rank f =? k) (findings rep)
          = filter (fun f => severity_rank f =? k) built) /\
  (forall (urlparse_path : str -> option str) (dump : str),
      map fst (Parser.parse_secret_file urlparse_path dump)
      = ParserSpec.first_seen (map fst (ParserSpec.rows_of_dump urlparse_path dump))).
Proof.
  split.
  - intros World RT secrets w rep Hrun.
    pose proof (satisfies_run (build_json_report_spec secrets) w) as [_ H].
    rewrite Hrun in H. destruct H as (built & Hmap & Hf & _).
    rewrite Hf. split; [apply sorted_reverse_sorted|].
    exists built. splits.
    + exact Hmap.
    + apply sorted_reverse_perm.
    + intros k. apply sorted_reverse_stable.
  - intros urlparse_path dump. apply parse_secret_file_spec.
Qed.

Lemma C4_witness :
  exists rep,
    run_result (Demo.report Demo.secrets) Demo.boot = inr rep /\
    map fst Demo.secrets
      = [py "GitHub Token"; py "AWS Key"; py "Slow Service"; py "Static Check"] /\
    map secret_type (findings rep)
      = [py "AWS Key"; py "GitHub Token"; py "Static Check"; py "Slow Service"] /\
    StronglySorted (fun a b => severity_rank b <= severity_rank a) (findings rep).
Proof.
  eexists. split; [vm_compute; reflexivity|].
  split; [vm_compute; reflexivity|]. split; [vm_compute; reflexivity|].
  refine (proj1 (proj1 C4_findings_sorted_stable Demo.world Demo.runtime
                   Demo.secrets Demo.boot _ _)).
  vm_compute; reflexivity.
Defined.

(** C5 (amended).  For every attempt whose subprocess ran to its end,
    [success] is true iff the exit code is zero and the standard output
    is not empty once stripped of leading and trailing white space and
    neither output holds one of the failure markers [unauthorized],
    [forbidden], [invalid], [denied] in any letter case.  Every entry of
    [results] that carries an exit code is the record of such an
    attempt; it keeps the first 4000 characters of each output. *)
Theorem C5_success_heuristic :
  (forall (cmd ev : str) (ai : str * str) (code : Z) (out err executed_cmd : str),
      success (Verifier.executed_result cmd ev ai code out err executed_cmd) = true <->
      code = 0%Z /\ Str.strip out <> [] /\ marker_free out /\ marker_free err) /\
  (forall (World : Type) (RT : Runtime World)
          (secret_type : str) (evid_list : list EvidenceRecord) (w : World),
      let v := run_result (Verifier._verify_secret_type secret_type evid_list) w in
      forall x code,
        In x (results v) -> exit_code x = Some code ->
        exists out err,
          stdout x = Some (firstn 4000 out) /\ stderr x = Some (firstn 4000 err) /\
          (success x = true <->
           code = 0%Z /\ Str.strip out <> [] /\ marker_free out /\ marker_free err)).
Proof.
  split.
  - intros. simpl. apply is_success_iff.
  - intros World RT st evid_list w v x code Hx Hcode.
    destruct (results_entries RT st evid_list w x Hx) as [_ (_ & Hran & Hg)].
    destruct (Verifier.has_placeholder (command x)) eqn:Hp.
    + destruct (Hran eq_refl)
        as [(ev & ai & ex & E) | (ev & ai & c & out & err & ecmd & E)];
        rewrite E in Hcode; simpl in Hcode; [discriminate|].
      inversion Hcode; subst c. exists out, err. rewrite E. simpl.
      splits; try reflexivity. apply is_success_iff.
    + destruct (Hg eq_refl) as (ai & E & _). rewrite E in Hcode. discriminate.
Qed.

(* ================================================================== *)
(** * A timeout leaves the child running *)
(* ================================================================== *)

(** An attempt whose [run_command] raises, by timeout or otherwise,
    records the failure and changes neither [cmd_verified] nor
    [verified]: the loop goes on. *)
Lemma attempt_on_exception (World : Type) (RT : Runtime World)
  (st cmd ev : str) (l : Verifier.locals) (w w2 : World) (ex : exn) (t2 : list event) :
  Verifier.has_placeholder cmd = true ->
  Verifier.l_best_result l = None ->
  Verifier.run_command cmd ev 20 (snd (verifier st ev cmd w)) = (inl ex, w2, t2) ->
  let l' := run_result (Verifier.attempt st cmd ev l) w in
  Verifier.l_best_result l'
    = Some (Verifier.failed_result cmd ev
              (Verifier.guidance (fst (verifier st ev cmd w))) ex) /\
  Verifier.l_cmd_verified l' = Verifier.l_cmd_verified l /\
  Verifier.l_verified l' = Verifier.l_verified l /\
  Verifier.l_results l' = Verifier.l_results l.
Proof.
  intros Hp Hbest Hrun.
  unfold run_result, Verifier.attempt, bind, Verifier.ask_verifier.
  destruct (verifier st ev cmd w) as [resp w1]. simpl in Hrun.
  rewrite Hp, Hrun. cbn [fst snd ret].
  unfold Verifier.keep_failed. simpl. rewrite Hbest. simpl. now splits.
Qed.

(** C7, on the code.  For every world, an attempt whose subprocess
    exceeds its timeout ([run_command] raises [TimeoutError]) is recorded
    with [success] false and the error text, and neither stops the loop
    over the evidence nor aborts the verification: entries that carry an
    error are failures, and with a readable catalog and some evidence
    every template still gets its entry.  So far as the claim says.  But
    no step of [run_command] or of its caller ends the child: in the
    world where the first template of [Slow Service] reaches an endpoint
    that never answers, the child started for it is still in the
    process table when [_verify_secret_type] returns. *)
Theorem C7_timeout_leaves_child_running :
  (forall (World : Type) (RT : Runtime World)
          (st cmd ev : str) (l : Verifier.locals) (w w2 : World) (t2 : list event),
      Verifier.has_placeholder cmd = true ->
      Verifier.l_best_result l = None ->
      Verifier.run_command cmd ev 20 (snd (verifier st ev cmd w))
        = (inl TimeoutError, w2, t2) ->
      let l' := run_result (Verifier.attempt st cmd ev l) w in
      (exists x, Verifier.l_best_result l' = Some x /\ success x = false /\
                 error x = Some (str_of_exn TimeoutError)) /\
      Verifier.l_cmd_verified l' = Verifier.l_cmd_verified l) /\
  (forall (World : Type) (RT : Runtime World)
          (st : str) (evid_list : list EvidenceRecord) (w : World),
      let v := run_result (Verifier._verify_secret_type st evid_list) w in
      (forall x, In x (results v) -> error x <> None ->
                 success x = false /\ exit_code x = None) /\
      (forall md, read_key_verifier_md w = inr md -> evid_list <> [] ->
                  verification_error v = None /\
                  length (results v)
                    = length (firstn 3 (Verifier.catalog_commands st md)))) /\
  (let v := run_result (Demo.verify (py "Slow Service") Examples.slow_evidence)
                       Demo.boot in
   let w := run_world (Demo.verify (py "Slow Service") Examples.slow_evidence)
                      Demo.boot in
   length (commands v) = 2 /\
   map success (results v) = [false; false] /\
   map error (results v) = [Some (str_of_exn TimeoutError); None] /\
   map exit_code (results v) = [None; Some 0%Z] /\
   verification_error v = None /\
   Demo.live w = [0] /\
   Demo.args_of 0 (Demo.started w) = Examples.slow_args /\
   Demo.service Examples.slow_args = None).
Proof.
  splits.
  - intros World RT st cmd ev l w w2 t2 Hp Hbest Hrun l'.
    destruct (attempt_on_exception RT st cmd ev l w Hp Hbest Hrun)
      as (Hb & Hcv & _).
    split; [|exact Hcv].
    eexists. split; [exact Hb|]. now split.
  - intros World RT st evid_list w v. split.
    + intros x Hx Herr.
      destruct (results_entries RT st evid_list w x Hx) as [_ (_ & Hran & Hg)].
      destruct (Verifier.has_placeholder (command x)) eqn:Hp.
      * destruct (Hran eq_refl)
          as [(ev & ai & ex & E) | (ev & ai & c & out & err & ecmd & E)];
          rewrite E in *; simpl in *; [now split | congruence].
      * destruct (Hg eq_refl) as (ai & E & _). rewrite E in Herr. simpl in Herr.
        congruence.
    + intros md Hmd Hevid.
      destruct (@verify_secret_type_completes World RT st evid_list w md Hmd Hevid) as [He Hc].
      split; [exact He|].
      destruct (@one_entry_per_template World RT st evid_list w Hevid) as [Hl _].
      fold v in Hl. rewrite Hl. fold v in Hc. now rewrite Hc.
  - vm_compute. repeat split.
Qed.

Lemma C5_witness :
  let v := run_result
             (Demo.verify (py "GitHub Token")
                          [Demo.rec Demo.dead_token; Demo.rec Demo.good_token])
             Demo.boot in
  exists x,
    results v = [x] /\ exit_code x = Some 0%Z /\
    exists out err,
      stdout x = Some (firstn 4000 out) /\ stderr x = Some (firstn 4000 err) /\
      (success x = true <->
       0%Z = 0%Z /\ Str.strip out <> [] /\ marker_free out /\ marker_free err).
Proof.
  intros v. eexists. split; [vm_compute; reflexivity|].
  split; [reflexivity|].
  apply (proj2 C5_success_heuristic Demo.world Demo.runtime (py "GitHub Token")
           [Demo.rec Demo.dead_token; Demo.rec Demo.good_token] Demo.boot).
  - vm_compute. left. reflexivity.
  - reflexivity.
Defined.

(* ================================================================== *)
(** * Further properties of the string operations *)
(* ================================================================== *)

Lemma substring_refl (s : str) : Substring s s.
Proof. exists [], []. now rewrite app_nil_r. Qed.

Lemma substring_trans (a b c : str) : Substring a b -> Substring b c -> Substring a c.
Proof.
  intros (l1 & r1 & ->) (l2 & r2 & ->). exists (l2 ++ l1), (r1 ++ r2).
  now rewrite <- !app_assoc.
Qed.

Lemma substring_app_l (a b l : str) : Substring a b -> Substring a (l ++ b).
Proof.
  intros (l1 & r1 & ->). exists (l ++ l1), r1. now rewrite <- app_assoc.
Qed.

Lemma substring_app_r (a b r : str) : Substring a b -> Substring a (b ++ r).
Proof.
  intros (l1 & r1 & ->). exists l1, (r1 ++ r). now rewrite <- !app_assoc.
Qed.

Lemma substring_cons (a b : str) (c : ascii) : Substring a b -> Substring a (c :: b).
Proof. intros H. now apply (@substring_app_l a b [c]). Qed.

Lemma substring_In (a b : str) (c : ascii) : Substring a b -> In c a -> In c b.
Proof.
  intros (l & r & ->) Hc. apply in_or_app. right. apply in_or_app. now left.
Qed.

Lemma contains_nil (s : str) : Str.contains [] s = true.
Proof. apply contains_iff. exists [], s. reflexivity. Qed.

Lemma contains_cons_false (needle s : str) (c : ascii) :
  Str.contains needle (c :: s) = false ->
  Str.startswith needle (c :: s) = false /\ Str.contains needle s = false.
Proof. cbn [Str.contains]. intros H. now apply orb_false_iff in H. Qed.

(** Replacing a text that does not occur changes nothing. *)
Lemma replace_absent (old new s : str) :
  Str.contains old s = false -> Str.replace old new s = s.
Proof.
  unfold Str.replace. induction s as [|c s IH]; intros H; [reflexivity|].
  apply contains_cons_false in H as [Hs Hc].
  cbn [Str.replace_go]. rewrite Hs. now rewrite IH.
Qed.

(** Replacing a text that occurs puts the new text in. *)
Lemma replace_present (old new s : str) :
  old <> [] -> Str.contains old s = true -> Substring new (Str.replace old new s).
Proof.
  intros Hold. unfold Str.replace. induction s as [|c s IH]; intros H.
  - cbn in H. rewrite orb_false_r in H. destruct old; [congruence | discriminate].
  - cbn [Str.replace_go]. destruct (Str.startswith old (c :: s)) eqn:Hs.
    + exists [], (Str.replace_go old new (length old - 1) s). reflexivity.
    + cbn [Str.contains] in H. rewrite Hs in H. cbn [orb] in H.
      apply substring_cons. now apply IH.
Qed.

(** A replacement by [new] keeps an occurrence of [new], or makes one. *)
Lemma replace_keeps (old new s : str) :
  old <> [] -> Substring new s -> Substring new (Str.replace old new s).
Proof.
  intros Hold H. destruct (Str.contains old s) eqn:Hc.
  - now apply replace_present.
  - now rewrite replace_absent.
Qed.

Ltac by_codes :=
  repeat match goal with
         | H : context [N.leb ?a ?b] |- _ => destruct (N.leb_spec a b)
         | |- context [N.leb ?a ?b] => destruct (N.leb_spec a b)
         | H : context [N.eqb ?a ?b] |- _ => destruct (N.eqb_spec a b)
         | |- context [N.eqb ?a ?b] => destruct (N.eqb_spec a b)
         end;
  cbn in *; try reflexivity; try discriminate; try congruence; try lia.

Lemma is_space_iff (c : ascii) :
  Str.is_space c = true <->
  (9 <= Str.code c <= 13 \/ 28 <= Str.code c <= 32 \/
   Str.code c = 133 \/ Str.code c = 160)%N.
Proof.
  unfold Str.is_space, Str.between.
  rewrite !orb_true_iff, !andb_true_iff, !N.leb_le, !N.eqb_eq. tauto.
Qed.

Lemma is_upper_iff (c : ascii) :
  Str.is_upper c = true <->
  (65 <= Str.code c <= 90 \/ 192 <= Str.code c <= 214 \/
   216 <= Str.code c <= 222)%N.
Proof.
  unfold Str.is_upper, Str.is_ascii_upper, Str.between.
  rewrite !orb_true_iff, !andb_true_iff, !N.leb_le. tauto.
Qed.


Lemma is_ascii_lower_iff (c : ascii) :
  Str.is_ascii_lower c = true <-> (97 <= Str.code c <= 122)%N.
Proof.
  unfold Str.is_ascii_lower, Str.between.
  rewrite !andb_true_iff, !N.leb_le. tauto.
Qed.

Lemma code_of_N (n : N) : (n < 256)%N -> Str.code (ascii_of_N n) = n.
Proof. intros H. unfold Str.code. now apply N_ascii_embedding. Qed.

Lemma code_bounded (c : ascii) : (Str.code c < 256)%N.
Proof. apply N_ascii_bounded. Qed.

(** The code of the lower-case form of a character. *)
Lemma lower_char_code (c : ascii) :
  Str.code (Str.lower_char c) =
  if Str.is_upper c then (Str.code c + 32)%N else Str.code c.
Proof.
  unfold Str.lower_char. destruct (Str.is_upper c) eqn:E; [|reflexivity].
  apply is_upper_iff in E. apply code_of_N. lia.
Qed.

Lemma lower_char_fixed (c : ascii) :
  Str.is_lower_alnum c = true -> Str.lower_char c = c.
Proof.
  unfold Str.lower_char, Str.is_lower_alnum, Str.is_upper, Str.is_ascii_lower,
    Str.is_ascii_upper, Str.is_digit, Str.between.
  intros H. by_codes.
Qed.

Lemma lower_fixed (s : str) :
  made_of Str.is_lower_alnum s -> Str.lower s = s.
Proof.
  intros H. unfold Str.lower. induction H as [|c s Hc _ IH]; [reflexivity|].
  cbn [map]. now rewrite IH, lower_char_fixed.
Qed.

Lemma filter_made_of (p : ascii -> bool) (s : str) : made_of p (filter p s).
Proof.
  apply Forall_forall. intros c Hc. now apply filter_In in Hc.
Qed.

Lemma filter_fixed (p : ascii -> bool) (s : str) : made_of p s -> filter p s = s.
Proof.
  induction 1 as [|c s Hc _ IH]; [reflexivity|]. cbn. now rewrite Hc, IH.
Qed.

Lemma normalize_made_of (s : str) : made_of Str.is_lower_alnum (Catalog.normalize s).
Proof. rewrite normalize_filter. apply filter_made_of. Qed.

Lemma normalize_fixed (s : str) :
  made_of Str.is_lower_alnum s -> Catalog.normalize s = s.
Proof.
  intros H. rewrite normalize_filter, (lower_fixed H). now apply filter_fixed.
Qed.

(** X1.  [normalize] yields a text of lower-case ASCII letters and
    digits only, normalizing twice is normalizing once, the normal form
    of a concatenation is the concatenation of the normal forms, and the
    commands that [extract_commands] returns depend on the requested
    label through its normal form only: labels that differ in case,
    spacing or punctuation get the same commands. *)
Theorem X1_normalize_canonical :
  (forall s, made_of Str.is_lower_alnum (Catalog.normalize s)) /\
  (forall s, Catalog.normalize (Catalog.normalize s) = Catalog.normalize s) /\
  (forall a b, Catalog.normalize (a ++ b) = Catalog.normalize a ++ Catalog.normalize b) /\
  (forall a b md_text,
      Catalog.normalize a = Catalog.normalize b ->
      Catalog.extract_commands a md_text = Catalog.extract_commands b md_text) /\
  (forall s md_text,
      Catalog.extract_commands (Catalog.normalize s) md_text
      = Catalog.extract_commands s md_text).
Proof.
  assert (Hidem : forall s, Catalog.normalize (Catalog.normalize s) = Catalog.normalize s).
  { intros s. apply normalize_fixed, normalize_made_of. }
  splits.
  - apply normalize_made_of.
  - exact Hidem.
  - intros a b. rewrite !normalize_filter, lower_app. apply filter_app.
  - intros a b md_text H. unfold Catalog.extract_commands. now rewrite H.
  - intros s md_text. unfold Catalog.extract_commands. now rewrite Hidem.
Qed.

Lemma X1_witness :
  Catalog.extract_commands (py "GITHUB-token!") Catalog.github_catalog
  = Catalog.extract_commands (py "GitHub Token") Catalog.github_catalog.
Proof.
  apply (proj1 (proj2 (proj2 (proj2 X1_normalize_canonical)))).
  vm_compute. reflexivity.
Defined.

(* ================================================================== *)
(** * Properties of the placeholder substitution *)
(* ================================================================== *)

Lemma has_placeholder_false (cmd : str) :
  Verifier.has_placeholder cmd = false ->
  forall term, In term Verifier.placeholder_terms -> Str.contains term cmd = false.
Proof. unfold Verifier.has_placeholder. now rewrite existsb_false. Qed.

Lemma has_placeholder_true (cmd : str) :
  Verifier.has_placeholder cmd = true ->
  exists term, In term Verifier.placeholder_terms /\ Str.contains term cmd = true.
Proof. unfold Verifier.has_placeholder. now rewrite existsb_exists. Qed.

Lemma substitute_unfold (cmd token : str) :
  token <> [] ->
  Verifier.substitute cmd token =
  Str.replace (py "TOKEN") token
    (Str.replace (py "$API_KEY") token
       (Str.replace (py "$TOKEN") token
          (Str.replace (py "TOKEN_HERE") token
             (Str.replace (py "API_KEY_HERE") token
                (Str.replace (py "<your_token>") token cmd))))).
Proof. destruct token; [congruence | reflexivity]. Qed.

(** A template that holds a placeholder of [placeholder_terms] is run
    with the token in it. *)
Lemma substitute_holds_token (cmd token : str) :
  Verifier.has_placeholder cmd = true ->
  Substring token (Verifier.substitute cmd token).
Proof.
  intros Hp. destruct token as [|c0 token0] eqn:Etok.
  { exists [], (Verifier.substitute cmd []). reflexivity. }
  rewrite <- Etok. assert (Hne : token <> []) by (rewrite Etok; discriminate).
  clear Etok. rewrite (substitute_unfold cmd Hne).
  assert (Hstep : forall old s, old <> [] ->
                    s = cmd \/ Substring token s ->
                    Str.replace old token s = cmd \/
                    Substring token (Str.replace old token s)).
  { intros old s Ho [-> | Hs].
    - destruct (Str.contains old cmd) eqn:Hc.
      + right. now apply replace_present.
      + left. now apply replace_absent.
    - right. now apply replace_keeps. }
  assert (Hhit : forall old s, old <> [] -> Str.contains old cmd = true ->
                   s = cmd \/ Substring token s ->
                   Substring token (Str.replace old token s)).
  { intros old s Ho Hc [-> | Hs].
    - now apply replace_present.
    - now apply replace_keeps. }
  assert (Hkeep : forall old s, old <> [] -> Substring token s ->
                    Substring token (Str.replace old token s)).
  { intros old s Ho Hs. now apply replace_keeps. }
  apply has_placeholder_true in Hp as (term & Hin & Hc).
  cbn in Hin. destruct Hin as [<- | [<- | [<- | [<- | []]]]].
  - do 5 (apply Hkeep; [discriminate|]).
    apply Hhit; [discriminate | exact Hc | now left].
  - do 4 (apply Hkeep; [discriminate|]).
    apply Hhit; [discriminate | exact Hc |].
    apply Hstep; [discriminate | now left].
  - apply Hhit; [discriminate | exact Hc |].
    repeat (apply Hstep; [discriminate|]). now left.
  - apply Hhit; [discriminate | |].
    + apply contains_iff. apply contains_iff in Hc.
      eapply substring_trans; [|exact Hc]. exists [], (py "_HERE"). reflexivity.
    + repeat (apply Hstep; [discriminate|]). now left.
Qed.

(** A template that holds none of the texts that [run_command] replaces
    is run as it is. *)
Lemma substitute_identity (cmd token : str) :
  Verifier.has_placeholder cmd = false ->
  Str.contains (py "$API_KEY") cmd = false ->
  Verifier.substitute cmd token = cmd.
Proof.
  intros Hp Hk. destruct token as [|c0 token0] eqn:Etok; [reflexivity|].
  rewrite <- Etok. assert (Hne : token <> []) by (rewrite Etok; discriminate).
  clear Etok. rewrite (substitute_unfold cmd Hne).
  pose proof (has_placeholder_false cmd Hp) as Hall.
  assert (H1 : Str.contains (py "<your_token>") cmd = false)
    by (apply Hall; cbn; tauto).
  assert (H2 : Str.contains (py "API_KEY_HERE") cmd = false)
    by (apply Hall; cbn; tauto).
  assert (H3 : Str.contains (py "TOKEN_HERE") cmd = false)
    by (apply Hall; cbn; tauto).
  assert (H6 : Str.contains (py "TOKEN") cmd = false)
    by (apply Hall; cbn; tauto).
  assert (H4 : Str.contains (py "$TOKEN") cmd = false).
  { apply contains_false_iff. intros H. apply contains_false_iff in H6. apply H6.
    eapply substring_trans; [|exact H]. exists (py "$"), []. reflexivity. }
  rewrite (@replace_absent _ token _ H1), (@replace_absent _ token _ H2),
    (@replace_absent _ token _ H3), (@replace_absent _ token _ H4),
    (@replace_absent _ token _ Hk), (@replace_absent _ token _ H6).
  reflexivity.
Qed.

Section SubstitutionProps.

Context {World : Type} {RT : Runtime World}.

(** [run_command] returns, as the command executed, the template after
    substitution, and it starts at most one subprocess, whose argument
    vector is what [shlex.split] makes of that command. *)
Lemma run_command_executes (cmd token : str) (timeout : nat) :
  satisfies (Verifier.run_command cmd token timeout)
    (fun r t =>
       (forall code out err executed_cmd,
           r = inr (code, out, err, executed_cmd) ->
           executed_cmd = Verifier.substitute cmd token) /\
       (t = [] \/
        exists args,
          shlex_split (Verifier.substitute cmd token) = inr args /\
          t = [EvSpawn cmd args]) /\
       (forall e, shlex_split (Verifier.substitute cmd token) = inl e ->
                  r = inl e /\ t = [])).
Proof.
  intros w r w' t E. unfold Verifier.run_command in E.
  destruct (shlex_split (Verifier.substitute cmd token)) as [e | args] eqn:Hs.
  - unfold ret in E. inversion E; subst. splits.
    + intros; discriminate.
    + now left.
    + intros e' He'. inversion He'; subst. now split.
  - unfold bind, Verifier.spawn, Verifier.communicate, ret in E.
    destruct (create_subprocess_exec args w) as [[e | proc] w1].
    + inversion E; subst. splits.
      * intros; discriminate.
      * right. exists args. now split.
      * intros; discriminate.
    + destruct (wait_for_communicate proc timeout w1) as [[e | [[code out] err]] w2];
        inversion E; subst; splits; try (intros; discriminate).
      * right. exists args. now split.
      * intros c o e' x Hx. now inversion Hx.
      * right. exists args. now split.
Qed.

End SubstitutionProps.

(** X2.  Whenever [run_command] is given a template that holds one of
    the placeholders that [_verify_secret_type] looks for, together with
    a non-empty token, the command that it reports as executed holds the
    token; and the argument vector of the subprocess that it starts, if
    any, is what [shlex.split] makes of that command. *)
Theorem X2_executed_command_holds_token :
  forall (World : Type) (RT : Runtime World)
         (cmd token : str) (timeout : nat) (w : World),
    Verifier.has_placeholder cmd = true ->
    token <> [] ->
    let r := run_result (Verifier.run_command cmd token timeout) w in
    let t := run_events (Verifier.run_command cmd token timeout) w in
    Substring token (Verifier.substitute cmd token) /\
    (forall code out err executed_cmd,
        r = inr (code, out, err, executed_cmd) ->
        Substring token executed_cmd) /\
    (forall template args,
        In (EvSpawn template args) t ->
        template = cmd /\
        shlex_split (Verifier.substitute cmd token) = inr args).
Proof.
  intros World RT cmd token timeout w Hp Hne r t.
  pose proof (satisfies_run (run_command_executes cmd token timeout) w)
    as (Hexec & Hspawn & _).
  fold r in Hexec. fold t in Hspawn.
  splits.
  - now apply substitute_holds_token.
  - intros code out err executed_cmd Hr. rewrite (Hexec _ _ _ _ Hr).
    now apply substitute_holds_token.
  - intros template args Hin. destruct Hspawn as [Ht | (args' & Hs & Ht)];
      rewrite Ht in Hin; [destruct Hin|].
    destruct Hin as [Hin | []]. inversion Hin; subst. now split.
Qed.

Lemma X2_witness :
  Substring Demo.good_token
    (Verifier.substitute Catalog.github_template Demo.good_token).
Proof.
  apply (@X2_executed_command_holds_token Demo.world Demo.runtime
           Catalog.github_template Demo.good_token 20 Demo.boot).
  - vm_compute. reflexivity.
  - discriminate.
Defined.

(** X3.  A template that holds none of the texts [<your_token>],
    [API_KEY_HERE], [TOKEN] and [$API_KEY] is left as it is by the
    substitution of [run_command], whatever the token; so is every
    template when the token is empty. *)
Theorem X3_substitution_leaves_plain_templates :
  (forall cmd token,
      Verifier.has_placeholder cmd = false ->
      Str.contains (py "$API_KEY") cmd = false ->
      Verifier.substitute cmd token = cmd) /\
  (forall cmd, Verifier.substitute cmd [] = cmd).
Proof.
  split; [exact substitute_identity | reflexivity].
Qed.

Lemma X3_witness :
  Verifier.substitute (py "curl https://status.example.com/health") Demo.good_token
  = py "curl https://status.example.com/health".
Proof.
  apply (proj1 X3_substitution_leaves_plain_templates); vm_compute; reflexivity.
Defined.

(* ================================================================== *)
(** * Properties of [re.search] *)
(* ================================================================== *)

Lemma rmatch_empty (prev : option ascii) (s : str) (g : Re.groups)
  (k : option ascii -> str -> Re.groups -> option (str * Re.groups)) :
  Re.rmatch Regex.empty prev s g k = k prev s g.
Proof. unfold Regex.empty. cbn. now destruct s. Qed.

(** A case-sensitive literal matches at the head of the texts that start
    with it, and goes on after it. *)
Lemma rmatch_lit (w : str) (rest : Re.regex) :
  forall (prev : option ascii) (s : str) (g : Re.groups)
         (k : option ascii -> str -> Re.groups -> option (str * Re.groups)),
    Re.rmatch (Re.lit false w rest) prev s g k =
    if Str.startswith w s
    then Re.rmatch rest (Re.last_char w prev) (skipn (length w) s) g k
    else None.
Proof.
  induction w as [|a w IH]; intros prev s g k; [reflexivity|].
  cbn [Re.lit Re.rmatch Re.chr_eq]. destruct s as [|b s]; [reflexivity|].
  cbn [Str.startswith length skipn]. rewrite (Ascii.eqb_sym b a).
  destruct (Ascii.eqb a b) eqn:Hab; [|reflexivity].
  apply Ascii.eqb_eq in Hab. subst b.
  rewrite IH. cbn [andb].
  destruct (Str.startswith w s); [|reflexivity].
  f_equal. unfold Re.last_char. cbn [rev].
  destruct (rev w) as [|c r] eqn:Hr; reflexivity.
Qed.

Lemma rmatch_literal (w : str) (prev : option ascii) (s : str) :
  Re.rmatch (Regex.literal w) prev s [] Re.stop =
  if Str.startswith w s then Some (skipn (length w) s, []) else None.
Proof.
  unfold Regex.literal. rewrite rmatch_lit.
  destruct (Str.startswith w s); [|reflexivity]. now rewrite rmatch_empty.
Qed.

Lemma startswith_firstn (w s : str) :
  Str.startswith w s = true -> firstn (length s - length (skipn (length w) s)) s = w.
Proof.
  intros H. apply startswith_iff in H as [r ->].
  rewrite skipn_app, skipn_all, Nat.sub_diag. cbn [skipn app].
  rewrite length_app. replace (length w + length r - length r) with (length w) by lia.
  rewrite firstn_app, firstn_all, Nat.sub_diag. cbn [firstn]. now rewrite app_nil_r.
Qed.

(** Searching for a literal is looking for it as a run of consecutive
    characters. *)
Lemma search_literal (w s : str) :
  Regex.search (Regex.literal w) s =
  if Str.contains w s then Some (w, []) else None.
Proof.
  unfold Regex.search. generalize (@None ascii) as prev.
  induction s as [|c s IH]; intros prev.
  - cbn [Regex.search_go Str.contains]. rewrite rmatch_literal, orb_false_r.
    destruct (Str.startswith w []) eqn:Hs; [|reflexivity].
    now rewrite (startswith_firstn _ _ Hs).
  - cbn [Regex.search_go Str.contains]. rewrite rmatch_literal.
    destruct (Str.startswith w (c :: s)) eqn:Hs.
    + now rewrite (startswith_firstn _ _ Hs).
    + cbn [orb]. apply IH.
Qed.

(* ================================================================== *)
(** * Properties of the verification of one curl command *)
(* ================================================================== *)

(** The placeholder that [parse_curl_evidence] reports, by the texts that
    occur in the evidence. *)
Lemma first_pattern_spec (evidence : str) :
  Evidence.first_pattern Evidence.token_patterns evidence =
  if Str.contains (py "$TOKEN") evidence then Some (BS :: py "$TOKEN")
  else if Str.contains (py "$API_KEY") evidence then Some (BS :: py "$API_KEY")
  else if Str.contains (py "<your_token>") evidence then Some (py "<your_token>")
  else if Str.contains (py "API_KEY_HERE") evidence then Some (py "API_KEY_HERE")
  else if Str.contains (py "TOKEN_HERE") evidence then Some (py "TOKEN_HERE")
  else None.
Proof.
  unfold Evidence.token_patterns. cbn [Evidence.first_pattern].
  rewrite !search_literal.
  destruct (Str.contains (py "$TOKEN") evidence) eqn:H1; [reflexivity|].
  destruct (Str.contains (py "$API_KEY") evidence) eqn:H2; [reflexivity|].
  destruct (Str.contains (py "$TOKEN_HERE") evidence) eqn:H3.
  { exfalso. apply contains_iff in H3. apply contains_false_iff in H1. apply H1.
    eapply substring_trans; [|exact H3]. exists [], (py "_HERE"). reflexivity. }
  destruct (Str.contains (py "<your_token>") evidence); [reflexivity|].
  destruct (Str.contains (py "API_KEY_HERE") evidence); [reflexivity|].
  destruct (Str.contains (py "TOKEN_HERE") evidence); reflexivity.
Qed.

(** X4.  [parse_curl_evidence] returns the evidence unchanged, with the
    source text of the first pattern of its list that occurs in it:
    [\$TOKEN] if the evidence holds [$TOKEN], else [\$API_KEY] if it holds
    [$API_KEY], else [<your_token>], [API_KEY_HERE] or [TOKEN_HERE] in
    that order, and no placeholder if it holds none of them.  The
    pattern [\$TOKEN_HERE] of the list is never reported. *)
Theorem X4_parse_curl_evidence_placeholder :
  forall evidence : str,
    fst (Evidence.parse_curl_evidence evidence) = evidence /\
    snd (Evidence.parse_curl_evidence evidence) =
      (if Str.contains (py "$TOKEN") evidence then Some (BS :: py "$TOKEN")
       else if Str.contains (py "$API_KEY") evidence then Some (BS :: py "$API_KEY")
       else if Str.contains (py "<your_token>") evidence then Some (py "<your_token>")
       else if Str.contains (py "API_KEY_HERE") evidence then Some (py "API_KEY_HERE")
       else if Str.contains (py "TOKEN_HERE") evidence then Some (py "TOKEN_HERE")
       else None) /\
    snd (Evidence.parse_curl_evidence evidence) <> Some (BS :: py "$TOKEN_HERE").
Proof.
  intros evidence. unfold Evidence.parse_curl_evidence. cbn [fst snd].
  rewrite first_pattern_spec. splits.
  - reflexivity.
  - reflexivity.
  - repeat match goal with
           | |- context [if ?b then _ else _] => destruct b
           end; discriminate.
Qed.

Section EvidenceProps.

Context {World : Type} {RT : Runtime World}.

(** The answer of [verify_secret_with_evidence] never tells a success:
    its first three components are always [False], [-1] and the empty
    text. *)
Lemma verify_secret_with_evidence_spec (evidence token : str) (timeout : nat) :
  satisfies (Evidence.verify_secret_with_evidence evidence token timeout)
    (fun r t =>
       exists msg,
         r = (false, (-1)%Z, [], msg) /\
         (is_curl (Str.strip evidence) = false ->
          msg = Evidence.not_curl /\ t = []) /\
         (is_curl (Str.strip evidence) = true ->
          Str.startswith Evidence.executing msg = true /\
          (t = [] \/
           exists args,
             shlex_split (Verifier.substitute evidence token) = inr args /\
             t = [EvSpawn evidence args]))).
Proof.
  unfold Evidence.verify_secret_with_evidence, Evidence.parse_curl_evidence.
  fold (is_curl (Str.strip evidence)).
  destruct (is_curl (Str.strip evidence)) eqn:Hc; cbn [negb].
  - eapply sat_bind; [apply run_command_executes|].
    intros r t1 (_ & Hspawn & _).
    assert (Hmsg : forall e, Str.startswith Evidence.executing
                               (Evidence.executing ++ str_of_exn e) = true).
    { intros e. apply startswith_iff. now exists (str_of_exn e). }
    destruct r as [e | tuple].
    + apply sat_ret. rewrite app_nil_r. eexists. split; [reflexivity|].
      split; [discriminate|]. intros _. split; [apply Hmsg | exact Hspawn].
    + unfold Evidence.unpack3.
      apply sat_ret. rewrite app_nil_r. eexists. split; [reflexivity|].
      split; [discriminate|]. intros _. split; [apply Hmsg | exact Hspawn].
  - apply sat_ret. exists Evidence.not_curl. split; [reflexivity|].
    split; [now split | discriminate].
Qed.

End EvidenceProps.

(** X5.  [verify_secret_with_evidence] never reports a verified secret:
    whatever the evidence, the token and the world, it returns
    [(False, -1, '', message)].  When the evidence does not start with
    [curl] the message says so and nothing is run; when it does, the
    command is run (at most one subprocess, the evidence with the token
    put in) and the message is that of an error, for a run that ended as
    well: the assignment of the four results of [run_command] to three
    names raises. *)
Theorem X5_single_command_verification_never_succeeds :
  forall (World : Type) (RT : Runtime World)
         (evidence token : str) (timeout : nat) (w : World),
    let r := run_result (Evidence.verify_secret_with_evidence evidence token timeout) w in
    let t := run_events (Evidence.verify_secret_with_evidence evidence token timeout) w in
    (exists msg, r = (false, (-1)%Z, [], msg)) /\
    (is_curl (Str.strip evidence) = false ->
     r = (false, (-1)%Z, [], Evidence.not_curl) /\ t = []) /\
    (is_curl (Str.strip evidence) = true ->
     (exists detail, r = (false, (-1)%Z, [], Evidence.executing ++ detail)) /\
     spawns t <= 1 /\
     forall template args,
       In (EvSpawn template args) t ->
       template = evidence /\
       shlex_split (Verifier.substitute evidence token) = inr args).
Proof.
  intros World RT evidence token timeout w r t.
  pose proof (satisfies_run (verify_secret_with_evidence_spec evidence token timeout) w)
    as (msg & Hr & Hno & Hyes).
  fold r in Hr. fold t in Hno, Hyes. splits.
  - now exists msg.
  - intros Hc. destruct (Hno Hc) as [-> Ht]. now split.
  - intros Hc. destruct (Hyes Hc) as [Hm Ht]. splits.
    + apply startswith_iff in Hm as [detail ->]. now exists detail.
    + destruct Ht as [-> | (args & _ & ->)]; cbn; lia.
    + intros template args Hin.
      destruct Ht as [Ht | (args' & Hs & Ht)]; rewrite Ht in Hin; [destruct Hin|].
      destruct Hin as [Hin | []]. inversion Hin; subst. now split.
Qed.

Lemma X5_witness :
  is_curl (Str.strip Catalog.github_template) = true /\
  run_result
    (Evidence.verify_secret_with_evidence (RT := Demo.runtime)
       Catalog.github_template Demo.good_token 60) Demo.boot
  = (false, (-1)%Z, [],
     py "Error executing command: too many values to unpack (expected 3)") /\
  spawns (run_events
            (Evidence.verify_secret_with_evidence (RT := Demo.runtime)
               Catalog.github_template Demo.good_token 60) Demo.boot) = 1.
Proof.
  split; [vm_compute; reflexivity|].
  destruct (@X5_single_command_verification_never_succeeds Demo.world Demo.runtime
              Catalog.github_template Demo.good_token 60 Demo.boot)
    as (_ & _ & H).
  destruct H as (_ & _ & _); [vm_compute; reflexivity|].
  split; vm_compute; reflexivity.
Defined.

(* ================================================================== *)
(** * What [_verify_secret_type] asks and runs *)
(* ================================================================== *)

Lemma spawns_app (t1 t2 : list event) : spawns (t1 ++ t2) = spawns t1 + spawns t2.
Proof. unfold spawns. now rewrite filter_app, length_app. Qed.

Lemma requests_app (t1 t2 : list event) :
  requests (t1 ++ t2) = requests t1 + requests t2.
Proof. unfold requests. now rewrite filter_app, length_app. Qed.

Lemma spawns_none (t : list event) :
  spawns t = 0 <-> forall template args, ~ In (EvSpawn template args) t.
Proof.
  unfold spawns. split.
  - intros H template args Hin.
    assert (Hf : In (EvSpawn template args) (filter is_spawn t))
      by (apply filter_In; now split).
    destruct (filter is_spawn t); [destruct Hf | discriminate].
  - intros H. destruct (filter is_spawn t) as [|e f] eqn:E; [reflexivity|].
    assert (Hin : In e (filter is_spawn t)) by (rewrite E; now left).
    apply filter_In in Hin as [Hin He]. destruct e; try discriminate.
    now destruct (H _ _ Hin).
Qed.

Section TraceProps.

Import Verifier VerifierTrace.

Context {World : Type} {RT : Runtime World}.

Lemma instance_of_incl (st : str) (evs evs' : list str) (cmd : str) (e : event) :
  incl evs evs' -> instance_of st evs cmd e -> instance_of st evs' cmd e.
Proof.
  intros Hi. destruct e; cbn; try tauto.
  - intros (H1 & H2 & H3). auto.
  - intros (H1 & ev & H2 & H3). split; [exact H1|]. exists ev. auto.
Qed.

(** One pass of the evidence loop: one request for guidance, at most
    one subprocess, started only if the template holds a placeholder,
    which is also when [attempted] is set. *)
Lemma attempt_trace (st cmd ev : str) (l : locals) :
  satisfies (attempt st cmd ev l)
    (fun l' t =>
       Forall (instance_of st [ev] cmd) t /\
       requests t = 1 /\
       spawns t <= 1 /\
       (has_placeholder cmd = false -> spawns t = 0) /\
       l_attempted l' = l_attempted l || has_placeholder cmd).
Proof.
  unfold attempt.
  eapply sat_bind; [apply ask_verifier_spec|].
  intros resp t1 ->. cbv zeta.
  destruct (has_placeholder cmd) eqn:Hp.
  - eapply sat_bind; [apply run_command_executes|].
    intros r t2 (_ & Ht2 & _).
    assert (Hall : Forall (instance_of st [ev] cmd)
                     ([EvGuidance st ev cmd resp] ++ t2 ++ []) /\
                   requests ([EvGuidance st ev cmd resp] ++ t2 ++ []) = 1 /\
                   spawns ([EvGuidance st ev cmd resp] ++ t2 ++ []) <= 1).
    { rewrite app_nil_r.
      destruct Ht2 as [-> | (args & Hs & ->)]; splits; try reflexivity;
        try (cbn; lia).
      - constructor; [|constructor]. cbn. intuition.
      - constructor; [cbn; intuition|]. constructor; [|constructor].
        cbn. split; [reflexivity|]. exists ev. split; [now left | exact Hs]. }
    destruct Hall as (Ha & Hb & Hc).
    destruct r as [ex | [[[code out] err] executed_cmd]]; apply sat_ret.
    + pose proof (keep_failed_fields (failed_result cmd ev (guidance resp) ex)
                    (mark_attempted (set_ai (guidance resp) l)))
        as (Hatt & _).
      splits; auto; try discriminate.
      rewrite Hatt. cbn. now rewrite orb_true_r.
    + set (x0 := executed_result cmd ev (guidance resp) code out err executed_cmd).
      set (l0 := mark_attempted (set_ai (guidance resp) l)).
      pose proof (keep_executed_fields x0
                    (if is_success code out err then mark_verified l0 else l0))
        as (Hatt & _).
      splits; auto; try discriminate.
      rewrite Hatt. destruct (is_success code out err); cbn; now rewrite orb_true_r.
  - apply sat_ret. splits.
    + constructor; [|constructor]. cbn. intuition.
    + reflexivity.
    + cbn. lia.
    + reflexivity.
    + cbn. now rewrite orb_false_r.
Qed.

(** The evidence loop of one template. *)
Lemma try_evidence_trace (st cmd : str) (evs : list str) :
  forall l : locals,
    satisfies (try_evidence st cmd evs l)
      (fun l' t =>
         Forall (instance_of st evs cmd) t /\
         requests t <= length evs /\
         spawns t <= requests t /\
         (has_placeholder cmd = false -> spawns t = 0) /\
         l_attempted l' = l_attempted l || (has_placeholder cmd && nonempty evs)).
Proof.
  induction evs as [|ev rest IH]; intros l; cbn [try_evidence].
  - apply sat_ret. splits; auto. cbn. now rewrite andb_false_r, orb_false_r.
  - eapply sat_bind; [apply attempt_trace|].
    intros l1 t1 (Ha1 & Hr1 & Hs1 & Hn1 & Hatt1).
    assert (Ha1' : Forall (instance_of st (ev :: rest) cmd) t1).
    { eapply Forall_impl; [|exact Ha1]. intros e. apply instance_of_incl.
      intros x [<- | []]. now left. }
    destruct (l_cmd_verified l1).
    + apply sat_ret. rewrite app_nil_r. splits; auto.
      * cbn [length]. lia.
      * lia.
      * cbn [nonempty]. now rewrite andb_true_r.
    + eapply sat_weaken; [apply IH|]. cbv beta.
      intros l' t2 (Ha2 & Hr2 & Hs2 & Hn2 & Hatt2). splits.
      * apply Forall_app. split; [exact Ha1'|].
        eapply Forall_impl; [|exact Ha2]. intros e. apply instance_of_incl.
        intros x Hx. now right.
      * rewrite requests_app. cbn [length]. lia.
      * rewrite spawns_app, requests_app. lia.
      * intros Hp. rewrite spawns_app, (Hn1 Hp), (Hn2 Hp). reflexivity.
      * rewrite Hatt2, Hatt1. cbn [nonempty]. rewrite andb_true_r.
        destruct (l_attempted l), (has_placeholder cmd), (nonempty rest); reflexivity.
Qed.

Lemma append_best_attempted (l : locals) : l_attempted (append_best l) = l_attempted l.
Proof. unfold append_best. now destruct (l_best_result l). Qed.

(** The work on one template. *)
Lemma verify_template_trace (st : str) (es : list str) (l : locals) (cmd : str) :
  satisfies (verify_template st es l cmd)
    (fun r t =>
       Forall (instance_of st (firstn 5 es) cmd) t /\
       requests t <= length (firstn 5 es) /\
       spawns t <= requests t /\
       (has_placeholder cmd = false -> spawns t = 0) /\
       forall l', r = inr l' ->
                  l_attempted l' =
                  l_attempted l || (has_placeholder cmd && nonempty es)).
Proof.
  unfold verify_template.
  eapply sat_bind; [apply try_evidence_trace|].
  intros l1 t1 (Ha & Hr & Hs & Hn & Hatt).
  assert (Hne : nonempty (firstn 5 es) = nonempty es) by now destruct es.
  rewrite Hne in Hatt. cbn in Hatt.
  destruct (negb (l_cmd_attempted l1)).
  - destruct (l_ai l1) as [ai|]; apply sat_ret; rewrite app_nil_r;
      splits; auto; intros l' Hl'; inversion Hl'; subst.
    rewrite append_best_attempted. cbn. exact Hatt.
  - apply sat_ret. rewrite app_nil_r. splits; auto.
    intros l' Hl'. inversion Hl'; subst. now rewrite append_best_attempted.
Qed.

(** The loop over the templates. *)
Lemma verify_templates_trace (st : str) (es : list str) (cmds : list str) :
  forall l : locals,
    satisfies (verify_templates st es cmds l)
      (fun r t =>
         Forall (fun e => exists cmd, In cmd cmds /\
                                      instance_of st (firstn 5 es) cmd e) t /\
         requests t <= length (firstn 5 es) * length cmds /\
         spawns t <= requests t /\
         (existsb has_placeholder cmds = false -> spawns t = 0) /\
         forall l', r = inr l' ->
                    l_attempted l' =
                    l_attempted l || (existsb has_placeholder cmds && nonempty es)).
Proof.
  induction cmds as [|cmd rest IH]; intros l; cbn [verify_templates].
  - apply sat_ret. splits; auto; try (cbn; lia).
    intros l' Hl'. inversion Hl'; subst. cbn. now rewrite orb_false_r.
  - eapply sat_bind; [apply verify_template_trace|].
    intros r t1 (Ha1 & Hr1 & Hs1 & Hn1 & Hatt1).
    assert (Ha1' : Forall (fun e => exists c, In c (cmd :: rest) /\
                                              instance_of st (firstn 5 es) c e) t1).
    { eapply Forall_impl; [|exact Ha1]. intros e H. exists cmd. split; [now left | exact H]. }
    destruct r as [ex | l1].
    + apply sat_ret. rewrite app_nil_r. splits; auto.
      * cbn [length]. nia.
      * cbn [existsb]. intros H. apply orb_false_iff in H as [H _]. auto.
      * intros l' Hl'. discriminate.
    + specialize (Hatt1 l1 eq_refl).
      eapply sat_weaken; [apply IH|]. cbv beta.
      intros r2 t2 (Ha2 & Hr2 & Hs2 & Hn2 & Hatt2). splits.
      * apply Forall_app. split; [exact Ha1'|].
        eapply Forall_impl; [|exact Ha2]. intros e (c & Hc & H). exists c.
        split; [now right | exact H].
      * rewrite requests_app. cbn [length]. nia.
      * rewrite spawns_app, requests_app. lia.
      * cbn [existsb]. intros H. apply orb_false_iff in H as [H1 H2].
        rewrite spawns_app, (Hn1 H1), (Hn2 H2). reflexivity.
      * intros l' Hl'. rewrite (Hatt2 l' Hl'), Hatt1. cbn [existsb].
        destruct (l_attempted l), (has_placeholder cmd),
          (existsb has_placeholder rest), (nonempty es); reflexivity.
Qed.

(** What a call of [_verify_secret_type] asks and runs. *)
Lemma verify_secret_type_trace (st : str) (evid_list : list EvidenceRecord) :
  satisfies (_verify_secret_type st evid_list)
    (fun v t =>
       let evs := firstn 5 (map evidence evid_list) in
       Forall (fun e => exists cmd, In cmd (commands v) /\ instance_of st evs cmd e) t /\
       requests t <= length evs * length (commands v) /\
       spawns t <= requests t /\
       (attempted v = false -> spawns t = 0) /\
       (evid_list <> [] ->
        attempted v = existsb has_placeholder (commands v))).
Proof.
  intros w v w' t E.
  pose proof (verify_secret_type_spec st evid_list w E) as (_ & _ & _ & _ & _ & Hnil).
  unfold _verify_secret_type in E.
  destruct (read_key_verifier_md w) as [ex | md].
  { inversion E; subst. cbv zeta. unfold failed_verification.
    cbn [commands attempted length]. rewrite Nat.mul_0_r.
    splits; auto; intros; reflexivity. }
  set (cmds := firstn 3 (catalog_commands st md)) in *.
  destruct (verify_templates st (map evidence evid_list) cmds initial_locals w)
    as [[r w1] t1] eqn:Ev.
  pose proof (verify_templates_trace st (map evidence evid_list) cmds initial_locals
                w Ev) as (Ha & Hr & Hs & Hn & Hatt).
  destruct evid_list as [|e0 evid_rest].
  - destruct (Hnil eq_refl) as [_ ->]. cbv zeta.
    splits; auto; try reflexivity; try (cbn; lia).
    intros Hcontra. now destruct Hcontra.
  - destruct r as [ex | l].
    + exfalso.
      assert (Hes : map evidence (e0 :: evid_rest) <> []) by discriminate.
      pose proof (@verify_templates_spec _ _ st _ cmds Hes initial_locals _ _ _ _ Ev)
        as (_ & l' & xs & Hcontra & _).
      discriminate.
    + inversion E; subst. cbv zeta. cbn [commands attempted].
      specialize (Hatt l eq_refl). cbn [l_attempted initial_locals orb] in Hatt.
      cbn [map nonempty] in Hatt. rewrite andb_true_r in Hatt.
      splits; auto.
      intros Hf. apply Hn. now rewrite <- Hatt.
Qed.

End TraceProps.

(** X6.  Every subprocess that [_verify_secret_type] starts runs one of
    the templates that it returns in [commands] (the first three that
    the catalog gives for the secret type), with one of the first five
    evidence values put in by the substitution of [run_command]: its
    argument vector is what [shlex.split] makes of that text.  Every
    request to the AI verifier is about the secret type, one of these
    templates and one of these evidence values. *)
Theorem X6_only_catalog_templates_are_run :
  forall (World : Type) (RT : Runtime World)
         (secret_type : str) (evid_list : list EvidenceRecord) (w : World),
    let v := run_result (Verifier._verify_secret_type secret_type evid_list) w in
    let t := run_events (Verifier._verify_secret_type secret_type evid_list) w in
    let evs := firstn 5 (map evidence evid_list) in
    (forall template args,
        In (EvSpawn template args) t ->
        In template (commands v) /\
        exists ev,
          In ev evs /\
          shlex_split (Verifier.substitute template ev) = inr args) /\
    (forall s ev cmd resp,
        In (EvGuidance s ev cmd resp) t ->
        s = secret_type /\ In cmd (commands v) /\ In ev evs) /\
    (forall e, In e t -> is_spawn e = true \/ is_guidance e = true).
Proof.
  intros World RT st evid_list w v t evs.
  pose proof (satisfies_run (verify_secret_type_trace st evid_list) w) as (Ha & _).
  fold v in Ha. fold t in Ha. fold evs in Ha. rewrite Forall_forall in Ha.
  splits.
  - intros template args Hin. destruct (Ha _ Hin) as (cmd & Hc & Htpl & Hev).
    subst template. now split.
  - intros s ev cmd resp Hin. destruct (Ha _ Hin) as (c & Hc & Hs & Hcmd & Hev).
    subst. now splits.
  - intros e Hin. destruct (Ha _ Hin) as (c & _ & H).
    destruct e; cbn in H; try tauto; cbn; auto.
Qed.

Lemma X6_witness :
  exists template args,
    nth_error (run_events (Demo.verify (py "GitHub Token") [Demo.rec Demo.good_token])
                          Demo.boot) 1
    = Some (EvSpawn template args) /\
    In template
       (commands (run_result (Demo.verify (py "GitHub Token") [Demo.rec Demo.good_token])
                             Demo.boot)) /\
    exists ev,
      In ev [Demo.good_token] /\
      @shlex_split Demo.world Demo.runtime (Verifier.substitute template ev) = inr args.
Proof.
  eexists. eexists. split; [vm_compute; reflexivity|].
  apply (proj1 (@X6_only_catalog_templates_are_run Demo.world Demo.runtime
                  (py "GitHub Token") [Demo.rec Demo.good_token] Demo.boot)).
  vm_compute. right. left. reflexivity.
Defined.

(** X7.  A call of [_verify_secret_type] makes at most fifteen requests
    to the AI verifier (at most five evidence values for each of at most
    three templates) and starts at most as many subprocesses as it makes
    requests. *)
Theorem X7_verification_work_is_bounded :
  forall (World : Type) (RT : Runtime World)
         (secret_type : str) (evid_list : list EvidenceRecord) (w : World),
    let v := run_result (Verifier._verify_secret_type secret_type evid_list) w in
    let t := run_events (Verifier._verify_secret_type secret_type evid_list) w in
    requests t <= Nat.min 5 (length evid_list) * length (commands v) /\
    requests t <= 15 /\
    spawns t <= requests t /\
    length t = requests t + spawns t.
Proof.
  intros World RT st evid_list w v t.
  pose proof (satisfies_run (verify_secret_type_trace st evid_list) w)
    as (Ha & Hr & Hs & _).
  pose proof (satisfies_run (verify_secret_type_spec st evid_list) w)
    as (_ & _ & Hlen & _).
  fold v in Ha, Hr, Hlen. fold t in Ha, Hr, Hs.
  rewrite length_firstn, length_map in Hr.
  splits; auto.
  - assert (Nat.min 5 (length evid_list) <= 5) by lia. nia.
  - clear - Ha. induction t as [|e t IH]; [reflexivity|].
    inversion Ha as [|? ? He Ht]; subst. specialize (IH Ht).
    destruct He as (c & _ & He).
    unfold requests, spawns in *.
    destruct e; cbn in He; try tauto; cbn [filter is_guidance is_spawn length]; lia.
Qed.

(** X8.  When [_verify_secret_type] reports [attempted] false, it has
    started no subprocess; and with a non-empty evidence list,
    [attempted] is true exactly when one of the templates of [commands]
    holds one of the placeholders [<your_token>], [API_KEY_HERE],
    [TOKEN], [TOKEN_HERE]. *)
Theorem X8_not_attempted_means_nothing_ran :
  forall (World : Type) (RT : Runtime World)
         (secret_type : str) (evid_list : list EvidenceRecord) (w : World),
    let v := run_result (Verifier._verify_secret_type secret_type evid_list) w in
    let t := run_events (Verifier._verify_secret_type secret_type evid_list) w in
    (attempted v = false ->
     forall template args, ~ In (EvSpawn template args) t) /\
    (evid_list <> [] ->
     (attempted v = true <->
      exists cmd, In cmd (commands v) /\ Verifier.has_placeholder cmd = true)).
Proof.
  intros World RT st evid_list w v t.
  pose proof (satisfies_run (verify_secret_type_trace st evid_list) w)
    as (_ & _ & _ & Hn & Hatt).
  fold v in Hn, Hatt. fold t in Hn. split.
  - intros Hf. apply spawns_none. now apply Hn.
  - intros Hne. rewrite (Hatt Hne), existsb_exists. reflexivity.
Qed.

Lemma X8_witness :
  let v := run_result (Demo.verify (py "Static Check") [Demo.rec (py "status-page-key")])
                      Demo.boot in
  let t := run_events (Demo.verify (py "Static Check") [Demo.rec (py "status-page-key")])
                      Demo.boot in
  attempted v = false /\
  (forall template args, ~ In (EvSpawn template args) t) /\
  requests t = 1.
Proof.
  split; [vm_compute; reflexivity|]. split; [|vm_compute; reflexivity].
  apply (@X8_not_attempted_means_nothing_ran Demo.world Demo.runtime
           (py "Static Check") [Demo.rec (py "status-page-key")] Demo.boot).
  vm_compute. reflexivity.
Defined.

(* ================================================================== *)
(** * Edge cases and stored results of [_verify_secret_type] *)
(* ================================================================== *)

(** X9.  With an empty evidence list [_verify_secret_type] asks and runs
    nothing and leaves the world as it is.  If the catalog gives no
    template for the secret type it returns the empty verification; if it
    gives one, the guidance-only branch reads [ai_status] before any
    assignment, and the function returns the dict of its [except] branch:
    the error text of that exception and an empty list of commands,
    although templates were found. *)
Theorem X9_no_evidence :
  forall (World : Type) (RT : Runtime World) (secret_type : str) (w : World)
         (md : option str),
    read_key_verifier_md w = inr md ->
    let m := Verifier._verify_secret_type secret_type [] in
    run_events m w = [] /\
    run_world m w = w /\
    (Verifier.catalog_commands secret_type md = [] ->
     run_result m w = nothing_to_verify) /\
    (Verifier.catalog_commands secret_type md <> [] ->
     run_result m w = Verifier.failed_verification (UnboundLocal (py "ai_status")) /\
     commands (run_result m w) = [] /\
     verification_error (run_result m w)
       = Some (str_of_exn (UnboundLocal (py "ai_status")))).
Proof.
  intros World RT st w md Hmd m.
  unfold m, run_events, run_world, run_result, Verifier._verify_secret_type.
  rewrite Hmd. cbn [map].
  destruct (Verifier.catalog_commands st md) as [|c0 cs] eqn:Hc.
  - cbn. splits; auto. congruence.
  - cbn [firstn Verifier.verify_templates Verifier.verify_template
           Verifier.try_evidence].
    unfold bind, ret. cbn. splits; auto. congruence.
Qed.

Lemma X9_witness :
  let m := Demo.verify (py "GitHub Token") [] in
  run_events m Demo.boot = [] /\
  Verifier.catalog_commands (py "GitHub Token") (Some Demo.catalog)
    = [Catalog.github_template] /\
  commands (run_result m Demo.boot) = [] /\
  verification_error (run_result m Demo.boot)
    = Some (py "cannot access local variable 'ai_status' where it is not associated with a value").
Proof.
  pose proof (@X9_no_evidence Demo.world Demo.runtime (py "GitHub Token") Demo.boot
                (Some Demo.catalog) eq_refl) as (He & _ & _ & H).
  split; [exact He|]. split; [vm_compute; reflexivity|].
  destruct H as (_ & Hc & Herr); [vm_compute; discriminate|].
  split; [exact Hc | exact Herr].
Defined.

Lemma evidence_label_length (ev : str) : length (Verifier.evidence_label ev) <= 53.
Proof.
  unfold Verifier.evidence_label. destruct (Nat.ltb_spec 50 (length ev)).
  - rewrite length_app, length_firstn. change (length (py "...")) with 3. lia.
  - lia.
Qed.

Lemma strip_nil : Str.strip [] = [].
Proof. reflexivity. Qed.

(** X10.  Every entry of [results] has one of three shapes.  The entry
    of a run that ended carries the exit code, both outputs cut to 4000
    characters and the command executed, and no error text; it is a
    success only with exit code 0 and a non-empty output.  The entry of a
    run that raised carries the error text and nothing of a run.  The
    entry of a template without placeholder carries neither, with the
    sentinel as evidence.  The last two are never successes, and
    [evidence_used] never exceeds 53 characters. *)
Theorem X10_result_entries_have_three_shapes :
  forall (World : Type) (RT : Runtime World)
         (secret_type : str) (evid_list : list EvidenceRecord) (w : World),
    let v := run_result (Verifier._verify_secret_type secret_type evid_list) w in
    forall x,
      In x (results v) ->
      length (evidence_used x) <= 53 /\
      (Verifier.has_placeholder (command x) = true ->
       executed_shape x \/ failed_shape x) /\
      (Verifier.has_placeholder (command x) = false -> guidance_shape x).
Proof.
  intros World RT st evid_list w v x Hx.
  destruct (@results_entries World RT st evid_list w x Hx) as (_ & _ & Hran & Hgd).
  assert (Hshape : VerifierSpec.ran (command x) x -> executed_shape x \/ failed_shape x).
  { intros [(ev & ai & ex & ->) | (ev & ai & code & out & err & ecmd & ->)].
    - right. exists (str_of_exn ex). cbn. splits; reflexivity.
    - left. exists code, (firstn 4000 out), (firstn 4000 err), ecmd.
      unfold Verifier.executed_result.
      cbn [exit_code stdout stderr executed_command error success].
      splits; try reflexivity; try apply firstn_le_length.
      intros Hs. apply is_success_iff in Hs as (Hc & Hout & _).
      split; [exact Hc|]. intros Hnil.
      destruct out as [|c out]; [now apply Hout | discriminate]. }
  destruct (Verifier.has_placeholder (command x)) eqn:Hp; splits;
    try discriminate.
  - destruct (Hran eq_refl) as [(ev & ai & ex & ->) | (ev & ai & code & out & err & ecmd & ->)];
      cbn [evidence_used Verifier.failed_result Verifier.executed_result];
      apply evidence_label_length.
  - intros _. now apply Hshape, Hran.
  - destruct (Hgd eq_refl) as (ai & -> & _). cbn. lia.
  - intros _. destruct (Hgd eq_refl) as (ai & -> & _).
    unfold guidance_shape. cbn. splits; reflexivity.
Qed.

Lemma X10_witness :
  exists x,
    results (run_result (Demo.verify (py "GitHub Token") [Demo.rec Demo.good_token])
                        Demo.boot) = [x] /\
    Verifier.has_placeholder (command x) = true /\
    length (evidence_used x) <= 53 /\
    (executed_shape x \/ failed_shape x).
Proof.
  eexists. split; [vm_compute; reflexivity|]. split; [vm_compute; reflexivity|].
  pose proof (@X10_result_entries_have_three_shapes Demo.world Demo.runtime
                (py "GitHub Token") [Demo.rec Demo.good_token] Demo.boot _
                ltac:(vm_compute; left; reflexivity)) as (Hl & Hs & _).
  split; [exact Hl | apply Hs; vm_compute; reflexivity].
Defined.

(* ================================================================== *)
(** * The report: findings, counts and order *)
(* ================================================================== *)

Section ReportShape.

Import Aggregator.

Context {World : Type} {RT : Runtime World}.

(** The findings that the loop over the buckets appends are those of the
    buckets, in order. *)
Lemma build_findings_shape (secrets : Buckets) :
  forall (acc : list Finding) (m : nat) (w w' : World) (t : list event)
         (fs : list Finding) (m' : nat),
    build_findings secrets acc m w = (inr (fs, m'), w', t) ->
    exists built, fs = acc ++ built /\ Forall2 finding_of secrets built.
Proof.
  induction secrets as [|[stype evid_list] rest IH]; intros acc m w w' t fs m' E.
  - cbn in E. unfold ret in E. inversion E; subst.
    exists []. rewrite app_nil_r. split; [reflexivity | constructor].
  - cbn [build_findings] in E. unfold bind, ask_classify, ask_remediation, now, ret in E.
    destruct (classify stype w) as [[ex | [risk desc]] w1]; [inversion E|].
    destruct (Remediation_Agent stype w1) as [[ex | steps] w2]; [inversion E|].
    destruct (Verifier._verify_secret_type stype evid_list w2) as [[v w3] t3] eqn:Ev.
    destruct (build_findings rest
                (acc ++ [make_finding stype evid_list risk desc steps v (now_isoformat w3)])
                (Nat.max m (rank risk)) w3) as [[r w4] t4] eqn:Er.
    inversion E; subst.
    destruct (IH _ _ _ _ _ _ _ Er) as (built & Hfs & Hall).
    exists (make_finding stype evid_list risk desc steps v (now_isoformat w3) :: built).
    split; [now rewrite Hfs, <- app_assoc|].
    constructor; [|exact Hall].
    exists risk, desc, steps, (now_isoformat w3), w2. cbn [fst snd].
    unfold run_result. now rewrite Ev.
Qed.

(** A report holds the findings of the buckets, sorted, and the summary
    made of them before the sort. *)
Lemma report_shape (secrets : Buckets) (w : World) (rep : Report) :
  run_result (build_json_report secrets) w = inr rep ->
  exists built,
    Forall2 finding_of secrets built /\
    findings rep = sorted_reverse severity_rank built /\
    summary rep = make_summary secrets built /\
    In (overall_risk rep) severity_labels /\
    rank (overall_risk rep) = list_max (map severity_rank built).
Proof.
  intros Hrun.
  pose proof (satisfies_run (build_json_report_spec secrets) w) as [_ Hspec].
  rewrite Hrun in Hspec. destruct Hspec as (built0 & _ & Hf0 & Hin & Hrank & _).
  unfold run_result, build_json_report, bind in Hrun.
  destruct (build_findings secrets [] 0 w) as [[r w1] t1] eqn:Eb.
  destruct r as [ex | [fs m]]; [cbn in Hrun; discriminate|].
  destruct (build_findings_shape _ _ _ _ Eb) as (built & Hfs & Hall).
  cbn [app] in Hfs. subst fs.
  assert (Hrep : findings rep = sorted_reverse severity_rank built /\
                 summary rep = make_summary secrets built).
  { destruct (match built with
              | [] => Some INFO
              | _ :: _ => label_of_rank highest_rank m
              end) as [overall|]; unfold now, ret in Hrun; cbn in Hrun;
      [|discriminate].
    inversion Hrun; subst. now split. }
  destruct Hrep as [Hf Hs]. exists built. splits; auto.
  rewrite Hrank. apply list_max_perm, Permutation_map.
  apply Permutation_trans with (findings rep).
  - rewrite Hf0. apply sorted_reverse_perm.
  - rewrite Hf. apply Permutation_sym, sorted_reverse_perm.
Qed.

End ReportShape.

Lemma count_step (label : str) (f : Finding) (fs : list Finding) :
  Aggregator.count_severity label (f :: fs) =
  (if Str.eqb (severity f) label then 1 else 0) + Aggregator.count_severity label fs.
Proof.
  unfold Aggregator.count_severity. cbn [filter].
  now destruct (Str.eqb (severity f) label).
Qed.

(** The highest rank among findings, by the counts of the four upper
    severities. *)
Lemma max_rank_by_counts (fs : list Finding) :
  list_max (map severity_rank fs) =
  if 0 <? Aggregator.count_severity Aggregator.CRITICAL fs then 4
  else if 0 <? Aggregator.count_severity Aggregator.HIGH fs then 3
  else if 0 <? Aggregator.count_severity Aggregator.MEDIUM fs then 2
  else if 0 <? Aggregator.count_severity Aggregator.LOW fs then 1
  else 0.
Proof.
  induction fs as [|f fs IH]; [reflexivity|].
  cbn [map]. change (list_max (severity_rank f :: map severity_rank fs))
    with (Nat.max (severity_rank f) (list_max (map severity_rank fs))).
  rewrite IH, !count_step.
  unfold severity_rank, Aggregator.rank, Aggregator.highest_rank.
  cbn [Aggregator.dict_get].
  destruct (Str.eqb (severity f) Aggregator.CRITICAL);
    destruct (Str.eqb (severity f) Aggregator.HIGH);
    destruct (Str.eqb (severity f) Aggregator.MEDIUM);
    destruct (Str.eqb (severity f) Aggregator.LOW);
    destruct (Str.eqb (severity f) Aggregator.INFO);
    repeat match goal with
           | |- context [0 <? ?n] => destruct (Nat.ltb_spec 0 n)
           end; lia.
Qed.

Lemma filter_length_perm (A : Type) (p : A -> bool) (l l' : list A) :
  Permutation l l' -> length (filter p l) = length (filter p l').
Proof.
  induction 1 as [|x l l' _ IH|x y l|l l' l'' _ IH1 _ IH2]; cbn [filter].
  - reflexivity.
  - destruct (p x); cbn [length]; lia.
  - destruct (p x), (p y); reflexivity.
  - lia.
Qed.

Lemma count_le (fs : list Finding) :
  Aggregator.count_severity Aggregator.CRITICAL fs
  + Aggregator.count_severity Aggregator.HIGH fs
  + Aggregator.count_severity Aggregator.MEDIUM fs
  + Aggregator.count_severity Aggregator.LOW fs <= length fs.
Proof.
  induction fs as [|f fs IH]; [reflexivity|].
  rewrite !count_step. cbn [length].
  destruct (Str.eqb (severity f) Aggregator.CRITICAL) eqn:E1;
    destruct (Str.eqb (severity f) Aggregator.HIGH) eqn:E2;
    destruct (Str.eqb (severity f) Aggregator.MEDIUM) eqn:E3;
    destruct (Str.eqb (severity f) Aggregator.LOW) eqn:E4;
    try lia;
    repeat match goal with
           | H : Str.eqb _ _ = true |- _ => apply str_eqb_eq in H
           end;
    match goal with
    | H1 : severity f = ?a, H2 : severity f = ?b |- _ =>
        assert (Hab : a = b) by congruence; discriminate Hab
    end.
Qed.

(** X11.  In every report that [build_json_report] returns,
    [overall_risk] is determined by the counts of the summary: it is
    [CRITICAL] when [critical_findings] is positive, else [HIGH] when
    [high_findings] is, else [MEDIUM], else [LOW], and [INFO] when the
    four counts are zero. *)
Theorem X11_overall_risk_agrees_with_counts :
  forall (World : Type) (RT : Runtime World) (secrets : Buckets) (w : World)
         (rep : Report),
    run_result (Aggregator.build_json_report secrets) w = inr rep ->
    overall_risk rep = risk_of_counts (summary rep).
Proof.
  intros World RT secrets w rep Hrun.
  destruct (report_shape secrets w Hrun) as (built & _ & _ & Hs & Hin & Hrank).
  rewrite max_rank_by_counts in Hrank.
  apply rank_injective; [exact Hin | |].
  - unfold risk_of_counts.
    repeat match goal with
           | |- context [if ?b then _ else _] => destruct b
           end; vm_compute; tauto.
  - rewrite Hrank, Hs. unfold risk_of_counts, Aggregator.make_summary.
    cbn [critical_findings high_findings medium_findings low_findings].
    repeat match goal with
           | |- context [0 <? ?n] => destruct (0 <? n)
           end; reflexivity.
Qed.

Lemma X11_witness :
  exists rep,
    run_result (Demo.report Examples.three_buckets) Demo.boot = inr rep /\
    overall_risk rep = risk_of_counts (summary rep).
Proof.
  eexists. split; [vm_compute; reflexivity|].
  apply (@X11_overall_risk_agrees_with_counts Demo.world Demo.runtime
           Examples.three_buckets Demo.boot).
  vm_compute. reflexivity.
Defined.

Lemma Forall2_in_r (A B : Type) (R : A -> B -> Prop) (l : list A) (l' : list B)
  (y : B) :
  Forall2 R l l' -> In y l' -> exists x, In x l /\ R x y.
Proof.
  induction 1 as [|a b l l' Hab _ IH]; intros Hin; [destruct Hin|].
  destruct Hin as [<- | Hin].
  - exists a. split; [now left | exact Hab].
  - destruct (IH Hin) as (x & Hx & Hr). exists x. split; [now right | exact Hr].
Qed.

Lemma list_sum_perm (A : Type) (g : A -> nat) (l l' : list A) :
  Permutation l l' -> list_sum (map g l) = list_sum (map g l').
Proof.
  unfold list_sum. induction 1; cbn [map fold_right] in *; lia.
Qed.

Lemma finding_evidence_length (World : Type) (RT : Runtime World)
  (kv : str * list EvidenceRecord) (f : Finding) :
  finding_of kv f ->
  length (finding_evidence f) <= 5 /\
  length (finding_evidence f) <= length (snd kv) /\
  length (validation_commands f) <= 3.
Proof.
  intros (risk & desc & steps & ts & w & ->).
  unfold Aggregator.make_finding. cbn [finding_evidence validation_commands].
  rewrite length_map, length_firstn. splits; try lia.
  pose proof (satisfies_run (verify_secret_type_spec (fst kv) (snd kv)) w)
    as (_ & _ & Hlen & _).
  exact Hlen.
Qed.

(** X12.  The summary of a report counts what the report holds:
    [total_findings] is the number of findings and of secret types, the
    four counts by severity are those of the sorted list and add up to at
    most [total_findings], and [total_evidences] is the number of records
    of all the buckets, which is at least the number of evidence values
    shown in the findings, each finding showing at most five, with at
    most three validation commands. *)
Theorem X12_summary_counts_the_report :
  forall (World : Type) (RT : Runtime World) (secrets : Buckets) (w : World)
         (rep : Report),
    run_result (Aggregator.build_json_report secrets) w = inr rep ->
    let s := summary rep in
    total_findings s = length (findings rep) /\
    total_secret_types s = length secrets /\
    total_findings s = total_secret_types s /\
    critical_findings s = Aggregator.count_severity Aggregator.CRITICAL (findings rep) /\
    high_findings s = Aggregator.count_severity Aggregator.HIGH (findings rep) /\
    medium_findings s = Aggregator.count_severity Aggregator.MEDIUM (findings rep) /\
    low_findings s = Aggregator.count_severity Aggregator.LOW (findings rep) /\
    critical_findings s + high_findings s + medium_findings s + low_findings s
      <= total_findings s /\
    total_evidences s = list_sum (map (fun kv => length (snd kv)) secrets) /\
    list_sum (map (fun f => length (finding_evidence f)) (findings rep))
      <= total_evidences s /\
    Forall (fun f => length (finding_evidence f) <= 5 /\
                     length (validation_commands f) <= 3) (findings rep).
Proof.
  intros World RT secrets w rep Hrun s.
  destruct (report_shape secrets w Hrun) as (built & Hall & Hf & Hs & _).
  unfold s. rewrite Hs. cbn.
  assert (Hperm : Permutation built (findings rep)).
  { rewrite Hf. apply sorted_reverse_perm. }
  assert (Hlen : length built = length secrets).
  { symmetry. exact (Forall2_length Hall). }
  assert (Hcount : forall label,
             Aggregator.count_severity label built
             = Aggregator.count_severity label (findings rep)).
  { intros label. unfold Aggregator.count_severity. now apply filter_length_perm. }
  splits.
  - now apply Permutation_length.
  - reflexivity.
  - exact Hlen.
  - apply Hcount.
  - apply Hcount.
  - apply Hcount.
  - apply Hcount.
  - apply count_le.
  - reflexivity.
  - assert (Hsum : list_sum (map (fun f => length (finding_evidence f)) (findings rep))
                   = list_sum (map (fun f => length (finding_evidence f)) built)).
    { apply list_sum_perm, Permutation_sym, Hperm. }
    rewrite Hsum. clear - Hall.
    induction Hall as [|kv f secrets built Hkv _ IH]; [reflexivity|].
    cbn [map list_sum fold_right] in *. unfold list_sum in IH.
    destruct (finding_evidence_length Hkv) as (_ & H & _). lia.
  - apply Forall_forall. intros f Hin.
    apply (Permutation_in _ (Permutation_sym Hperm)) in Hin.
    destruct (@Forall2_in_r _ _ _ _ _ _ Hall Hin) as (kv & _ & Hkv).
    destruct (finding_evidence_length Hkv) as (H5 & _ & H3). now split.
Qed.

Lemma X12_witness :
  exists rep,
    run_result (Demo.report Examples.three_buckets) Demo.boot = inr rep /\
    total_findings (summary rep) = 3 /\
    total_findings (summary rep) = length (findings rep) /\
    total_evidences (summary rep)
    = list_sum (map (fun kv => length (snd kv)) Examples.three_buckets).
Proof.
  eexists. split; [vm_compute; reflexivity|]. split; [vm_compute; reflexivity|].
  pose proof (@X12_summary_counts_the_report Demo.world Demo.runtime
                Examples.three_buckets Demo.boot _ ltac:(vm_compute; reflexivity))
    as (H1 & _ & _ & _ & _ & _ & _ & _ & H2 & _).
  split; [exact H1 | exact H2].
Defined.

(* ================================================================== *)
(** * Order by risk score, and the ids of the findings *)
(* ================================================================== *)

Lemma score_follows_rank (a b : str) :
  In a severity_labels -> In b severity_labels ->
  Aggregator.rank b <= Aggregator.rank a ->
  (Aggregator.get_risk_score b <= Aggregator.get_risk_score a)%Q.
Proof.
  intros Ha Hb. simpl in Ha, Hb.
  repeat (destruct Ha as [<- | Ha]); try contradiction;
    repeat (destruct Hb as [<- | Hb]); try contradiction;
    vm_compute; intros H; first [discriminate | lia].
Qed.

Lemma StronglySorted_weaken (A : Type) (R R' : A -> A -> Prop) (P : A -> Prop)
  (l : list A) :
  (forall a b, P a -> P b -> R a b -> R' a b) ->
  Forall P l -> StronglySorted R l -> StronglySorted R' l.
Proof.
  intros Himp HP HS. induction HS as [|a l _ IH Hall]; [constructor|].
  inversion HP as [|? ? Pa Pl]; subst. constructor; [now apply IH|].
  rewrite Forall_forall in *. intros b Hb. apply Himp; auto.
Qed.

(** X13.  Every finding of a report carries the risk score and the
    impact text of its own severity; and when the severities that the
    oracle gave are among the five labels, the findings, sorted by rank,
    are in descending order of risk score as well. *)
Theorem X13_findings_descend_by_risk_score :
  forall (World : Type) (RT : Runtime World) (secrets : Buckets) (w : World)
         (rep : Report),
    run_result (Aggregator.build_json_report secrets) w = inr rep ->
    Forall (fun f =>
              risk_score f = Aggregator.get_risk_score (severity f) /\
              impact f = Aggregator.get_impact_description (severity f) (secret_type f))
           (findings rep) /\
    (Forall (fun f => In (severity f) severity_labels) (findings rep) ->
     StronglySorted (fun a b => (risk_score b <= risk_score a)%Q) (findings rep)).
Proof.
  intros World RT secrets w rep Hrun.
  destruct (report_shape secrets w Hrun) as (built & Hall & Hf & _).
  assert (Hperm : Permutation built (findings rep)).
  { rewrite Hf. apply sorted_reverse_perm. }
  assert (Hfields : Forall (fun f =>
              risk_score f = Aggregator.get_risk_score (severity f) /\
              impact f = Aggregator.get_impact_description (severity f) (secret_type f))
           (findings rep)).
  { apply Forall_forall. intros f Hin.
    apply (Permutation_in _ (Permutation_sym Hperm)) in Hin.
    destruct (@Forall2_in_r _ _ _ _ _ _ Hall Hin)
      as (kv & _ & risk & desc & steps & ts & w0 & ->).
    now split. }
  split; [exact Hfields|].
  intros Hvalid.
  pose proof (sorted_reverse_sorted severity_rank built) as Hsorted.
  rewrite <- Hf in Hsorted.
  eapply (@StronglySorted_weaken _ _ _
            (fun f => In (severity f) severity_labels /\
                      risk_score f = Aggregator.get_risk_score (severity f)));
    [| |exact Hsorted].
  - intros a b [Ha Hsa] [Hb Hsb] Hr. rewrite Hsa, Hsb.
    now apply score_follows_rank.
  - rewrite Forall_forall in *. intros f Hin. split; [now apply Hvalid|].
    now apply Hfields.
Qed.

Lemma X13_witness :
  exists rep,
    run_result (Demo.report Examples.three_buckets) Demo.boot = inr rep /\
    Forall (fun f => In (severity f) severity_labels) (findings rep) /\
    StronglySorted (fun a b => (risk_score b <= risk_score a)%Q) (findings rep) /\
    map risk_score (findings rep) = [9 # 10; 7 # 10; 3 # 10]%Q.
Proof.
  eexists. split; [vm_compute; reflexivity|].
  assert (Hvalid : Forall (fun f => In (severity f) severity_labels)
                     (findings
                        (match run_result (Demo.report Examples.three_buckets) Demo.boot with
                         | inr rep => rep
                         | inl _ => mkReport [] (mkSummary 0 0 0 0 0 0 0) [] [] []
                         end))).
  { vm_compute. repeat constructor; tauto. }
  split; [exact Hvalid|]. split; [|vm_compute; reflexivity].
  refine (proj2 (@X13_findings_descend_by_risk_score Demo.world Demo.runtime
                   Examples.three_buckets Demo.boot _ _) Hvalid).
  vm_compute. reflexivity.
Defined.







(* ================================================================== *)
(** * Properties of [strip] and [split] *)
(* ================================================================== *)

Lemma lstrip_head (s : str) :
  match Str.lstrip s with [] => True | c :: _ => Str.is_space c = false end.
Proof.
  induction s as [|c s IH]; [exact I|]. cbn [Str.lstrip].
  destruct (Str.is_space c) eqn:E; [exact IH | exact E].
Qed.

Lemma lstrip_fixed (s : str) :
  match s with [] => True | c :: _ => Str.is_space c = false end ->
  Str.lstrip s = s.
Proof. destruct s as [|c s]; [reflexivity|]. cbn. now intros ->. Qed.

Lemma lstrip_suffix (s : str) :
  exists sp, s = sp ++ Str.lstrip s /\ made_of Str.is_space sp.
Proof.
  induction s as [|c s (sp & Hs & Hsp)].
  - exists []. split; [reflexivity | constructor].
  - cbn [Str.lstrip]. destruct (Str.is_space c) eqn:E.
    + exists (c :: sp). split; [cbn; now rewrite <- Hs | now constructor].
    + exists []. split; [reflexivity | constructor].
Qed.

Lemma rstrip_prefix (s : str) :
  exists sp, s = Str.rstrip s ++ sp /\ made_of Str.is_space sp.
Proof.
  unfold Str.rstrip. destruct (lstrip_suffix (rev s)) as (sp & Hs & Hsp).
  exists (rev sp). split.
  - rewrite <- rev_app_distr, <- Hs. now rewrite rev_involutive.
  - unfold made_of in *. now apply Forall_rev.
Qed.

Lemma rstrip_last (s : str) :
  match rev (Str.rstrip s) with [] => True | c :: _ => Str.is_space c = false end.
Proof. unfold Str.rstrip. rewrite rev_involutive. apply lstrip_head. Qed.

Lemma rstrip_head (s : str) :
  match s with [] => True | c :: _ => Str.is_space c = false end ->
  match Str.rstrip s with [] => True | c :: _ => Str.is_space c = false end.
Proof.
  intros H. destruct (rstrip_prefix s) as (sp & Hs & _).
  destruct (Str.rstrip s) as [|c r]; [exact I|].
  rewrite Hs in H. exact H.
Qed.

Lemma strip_ends (s : str) : no_space_ends (Str.strip s).
Proof.
  unfold Str.strip. split.
  - apply rstrip_head, lstrip_head.
  - apply rstrip_last.
Qed.

Lemma ends_fixed (s : str) : no_space_ends s -> Str.strip s = s.
Proof.
  intros [Hh Hl]. unfold Str.strip. rewrite (lstrip_fixed s Hh).
  unfold Str.rstrip. rewrite (lstrip_fixed (rev s) Hl). apply rev_involutive.
Qed.

Lemma strip_idem (s : str) : stripped (Str.strip s).
Proof. apply ends_fixed, strip_ends. Qed.

(** What [strip] removes is white space on both sides. *)
Lemma strip_inside (s : str) :
  exists l r, s = l ++ Str.strip s ++ r /\
              made_of Str.is_space l /\ made_of Str.is_space r.
Proof.
  destruct (lstrip_suffix s) as (l & Hl & Hsl).
  destruct (rstrip_prefix (Str.lstrip s)) as (r & Hr & Hsr).
  exists l, r. unfold Str.strip. split; [|now split].
  now rewrite <- Hr.
Qed.

Lemma strip_In (s : str) (c : ascii) : In c (Str.strip s) -> In c s.
Proof.
  destruct (strip_inside s) as (l & r & Hs & _). intros H.
  rewrite Hs. apply in_or_app. right. apply in_or_app. now left.
Qed.

Lemma contains_char (c : ascii) (s : str) :
  Str.contains [c] s = true <-> In c s.
Proof.
  rewrite contains_iff. split.
  - intros (l & r & ->). apply in_or_app. right. now left.
  - intros H. apply in_split in H as (l & r & ->). now exists l, r.
Qed.

(** The pieces of a split are made of characters of the text. *)
Lemma split_go_chars (sep : str) (s : str) :
  forall (skip : nat) (cur : str),
    Forall (fun piece => forall x, In x piece -> In x cur \/ In x s)
           (Str.split_go sep skip cur s).
Proof.
  induction s as [|c s IH]; intros skip cur; cbn [Str.split_go].
  - constructor; [|constructor]. intros x Hx. left. now apply in_rev.
  - destruct skip as [|k].
    + destruct (Str.startswith sep (c :: s)).
      * constructor.
        -- intros x Hx. left. now apply in_rev.
        -- eapply Forall_impl; [|apply IH]. cbv beta.
           intros piece H x Hx. destruct (H x Hx) as [[] | Hs]. right. now right.
      * eapply Forall_impl; [|apply IH]. cbv beta.
        intros piece H x Hx. destruct (H x Hx) as [[<- | Hc] | Hs].
        -- right. now left.
        -- now left.
        -- right. now right.
    + eapply Forall_impl; [|apply IH]. cbv beta.
      intros piece H x Hx. destruct (H x Hx) as [Hc | Hs]; [now left|].
      right. now right.
Qed.

(** The pieces of a split at one character do not hold it. *)
Lemma split_go_char (c : ascii) (s : str) :
  forall cur : str,
    ~ In c cur ->
    Forall (fun piece => ~ In c piece) (Str.split_go [c] 0 cur s).
Proof.
  induction s as [|d s IH]; intros cur Hcur; cbn [Str.split_go].
  - constructor; [|constructor]. intros H. apply Hcur. now apply in_rev.
  - cbn [Str.startswith length Nat.sub]. rewrite andb_true_r.
    destruct (Ascii.eqb c d) eqn:E.
    + constructor.
      * intros H. apply Hcur. now apply in_rev.
      * apply IH. intros [].
    + apply IH. intros [<- | H]; [|now apply Hcur].
      now rewrite Ascii.eqb_refl in E.
Qed.

Lemma last_Forall (A : Type) (P : A -> Prop) (l : list A) (d : A) :
  Forall P l -> P d -> P (last l d).
Proof.
  induction 1 as [|x l Hx Hl IH]; intros Hd; [exact Hd|].
  destruct l as [|y l]; [exact Hx|]. now apply IH.
Qed.

Lemma last_piece_char (c : ascii) (s : str) :
  ~ In c (Parser.last_piece (Str.split [c] s)).
Proof.
  unfold Parser.last_piece, Str.split.
  apply last_Forall; [|intros []]. apply split_go_char. intros [].
Qed.

Lemma last_piece_chars (sep s : str) (x : ascii) :
  In x (Parser.last_piece (Str.split sep s)) -> In x s.
Proof.
  unfold Parser.last_piece, Str.split.
  assert (H : forall y, In y (last (Str.split_go sep 0 [] s) []) -> In y [] \/ In y s).
  { apply last_Forall; [apply split_go_chars | intros y []]. }
  intros Hx. now destruct (H x Hx) as [[] | Hs].
Qed.

(** The pieces of a split with a limit are made of characters of the
    text. *)
Lemma splitn_go_chars (sep : str) (s : str) :
  forall (n skip : nat) (cur : str),
    Forall (fun piece => forall x, In x piece -> In x cur \/ In x s)
           (Str.splitn_go sep n skip cur s).
Proof.
  induction s as [|c s IH]; intros n skip cur; cbn [Str.splitn_go].
  - constructor; [|constructor]. intros x Hx. left. now apply in_rev.
  - destruct skip as [|k].
    + destruct n as [|m].
      * constructor; [|constructor]. intros x Hx.
        apply in_app_or in Hx as [Hx | Hx]; [left; now apply in_rev | now right].
      * destruct (Str.startswith sep (c :: s)).
        -- constructor.
           ++ intros x Hx. left. now apply in_rev.
           ++ eapply Forall_impl; [|apply IH]. cbv beta.
              intros piece H x Hx. destruct (H x Hx) as [[] | Hs]. right. now right.
        -- eapply Forall_impl; [|apply IH]. cbv beta.
           intros piece H x Hx. destruct (H x Hx) as [[<- | Hc] | Hs].
           ++ right. now left.
           ++ now left.
           ++ right. now right.
    + eapply Forall_impl; [|apply IH]. cbv beta.
      intros piece H x Hx. destruct (H x Hx) as [Hc | Hs]; [now left|].
      right. now right.
Qed.

(* ================================================================== *)
(** * Further properties of the evidence parser *)
(* ================================================================== *)

Lemma unknown_no_slash : ~ In "/"%char Parser.Unknown.
Proof. vm_compute. intuition discriminate. Qed.

Section ParserRecords.

Variable urlparse_path : str -> option str.

(** No file name that the parser records holds a slash. *)
Lemma filename_no_slash (ev current_url : str) :
  ~ In "/"%char (Parser.filename_of urlparse_path ev current_url).
Proof.
  unfold Parser.filename_of.
  destruct (Str.contains (py ":") ev).
  - destruct (Str.splitn (py ":") 2 ev) as [|p0 [|p1 rest]];
      try apply unknown_no_slash.
    destruct (Str.contains (py "/") p0) eqn:Hs.
    + apply (last_piece_char "/"%char p0).
    + assert (Hno : ~ In "/"%char p0).
      { intros H. apply (contains_char "/"%char p0) in H.
        change [("/")%char] with (py "/") in H. congruence. }
      destruct (Str.contains [BS] p0); [|exact Hno].
      intros H. apply Hno. exact (last_piece_chars _ _ _ H).
  - destruct (negb (Str.eqb current_url Parser.Unknown)); [|apply unknown_no_slash].
    destruct (urlparse_path current_url) as [path|]; [|apply unknown_no_slash].
    destruct path as [|c path]; [apply unknown_no_slash|].
    destruct (Parser.last_piece (Str.split (py "/") (c :: path))) eqn:E;
      [apply unknown_no_slash|].
    rewrite <- E. apply (last_piece_char "/"%char (c :: path)).
Qed.

Lemma split_arrow_stripped (line : str) :
  stripped (fst (Parser.split_arrow line)) /\ stripped (snd (Parser.split_arrow line)).
Proof.
  unfold Parser.split_arrow.
  destruct (Str.splitn (py "->") 1 line) as [|a [|b rest]]; cbn [fst snd];
    split; try apply strip_idem; reflexivity.
Qed.

(** What holds of the rows of a dump read under the URL [u]. *)
Lemma rows_well_formed (raws : list str) :
  forall u : str,
    Forall (fun row =>
              stripped (fst row) /\
              stripped (evidence (snd row)) /\
              ~ In "/"%char (filename (snd row)) /\
              (url (snd row) = u \/
               exists line,
                 In line (filter Parser.is_url_line (map Str.strip raws)) /\
                 url (snd row) = Parser.url_of_line line))
           (ParserSpec.rows urlparse_path u raws).
Proof.
  induction raws as [|raw rest IH]; intros u; [constructor|].
  cbn [ParserSpec.rows map filter].
  destruct (Parser.is_url_line (Str.strip raw)) eqn:Hu.
  - eapply Forall_impl; [|apply IH]. cbv beta.
    intros row (H1 & H2 & H3 & [H4 | (line & Hin & H4)]); splits; auto.
    + right. exists (Str.strip raw). split; [now left | exact H4].
    + right. exists line. split; [now right | exact H4].
  - assert (Hrest : Forall (fun row =>
              stripped (fst row) /\
              stripped (evidence (snd row)) /\
              ~ In "/"%char (filename (snd row)) /\
              (url (snd row) = u \/
               exists line,
                 In line (filter Parser.is_url_line (map Str.strip rest)) /\
                 url (snd row) = Parser.url_of_line line))
           (ParserSpec.rows urlparse_path u rest)) by apply IH.
    destruct (Str.contains ParserSpec.arrow (Str.strip raw)); [|exact Hrest].
    constructor; [|exact Hrest].
    cbn [fst snd evidence filename url].
    destruct (split_arrow_stripped (Str.strip raw)) as [Ha Hb].
    splits; auto. apply filename_no_slash.
Qed.

(** The buckets hold the rows, and only them. *)
Lemma append_rows_in (R : str * EvidenceRecord -> Prop)
  (rs : list (str * EvidenceRecord)) :
  Forall R rs ->
  forall d : Buckets,
    (forall k v, In (k, v) d -> v <> [] /\ forall r, In r v -> R (k, r)) ->
    forall k v,
      In (k, v) (fold_left ParserSpec.append_row rs d) ->
      v <> [] /\ forall r, In r v -> R (k, r).
Proof.
  induction 1 as [|[k0 r0] rs Hrow _ IH]; intros d Hd; [exact Hd|].
  cbn [fold_left]. apply IH. unfold ParserSpec.append_row. cbn [fst snd].
  clear IH. induction d as [|[k1 v1] d IHd]; cbn [Parser.bucket_append].
  - intros k v [Hkv | []]. inversion Hkv; subst. split; [discriminate|].
    intros r [<- | []]. exact Hrow.
  - destruct (Str.eqb k0 k1) eqn:E.
    + apply str_eqb_eq in E. subst k1.
      intros k v [Hkv | Hin].
      * inversion Hkv; subst. split; [now destruct v1|].
        intros r Hr. apply in_app_or in Hr as [Hr | [<- | []]]; [|exact Hrow].
        apply (Hd k v1); [now left | exact Hr].
      * apply Hd. now right.
    + intros k v [Hkv | Hin].
      * apply Hd. left. exact Hkv.
      * apply IHd; [|exact Hin]. intros k' v' H'. apply Hd. now right.
Qed.

Lemma append_rows_total (rs : list (str * EvidenceRecord)) :
  forall d : Buckets,
    list_sum (map (fun kv => length (snd kv)) (fold_left ParserSpec.append_row rs d))
    = list_sum (map (fun kv => length (snd kv)) d) + length rs.
Proof.
  induction rs as [|[k0 r0] rs IH]; intros d; cbn [fold_left length]; [lia|].
  rewrite IH. unfold ParserSpec.append_row. cbn [fst snd].
  assert (H : list_sum (map (fun kv => length (snd kv)) (Parser.bucket_append k0 r0 d))
              = S (list_sum (map (fun kv => length (snd kv)) d))).
  { clear IH. induction d as [|[k1 v1] d IHd]; cbn [Parser.bucket_append]; [reflexivity|].
    destruct (Str.eqb k0 k1); cbn [map list_sum fold_right snd] in *.
    - rewrite length_app. cbn [length]. lia.
    - unfold list_sum in IHd. lia. }
  lia.
Qed.

End ParserRecords.

(** X15.  In what [parse_secret_file] returns, whatever the dump: no
    bucket is empty and every key is stripped of white space; in every
    record the evidence is stripped, the file name holds no slash, and
    the URL is [Unknown] or the URL of one of the [[ + ] URL:] lines of
    the dump. *)
Theorem X15_parsed_records_are_well_formed :
  forall (urlparse_path : str -> option str) (dump : str)
         (k : str) (v : list EvidenceRecord),
    In (k, v) (Parser.parse_secret_file urlparse_path dump) ->
    stripped k /\ v <> [] /\ Forall (well_formed_record dump) v.
Proof.
  intros urlparse_path dump k v Hin.
  unfold Parser.parse_secret_file in Hin. rewrite parse_lines_rows in Hin.
  pose proof (rows_well_formed urlparse_path (Str.file_lines dump) Parser.Unknown)
    as Hrows.
  destruct (@append_rows_in _ _ Hrows [] ltac:(intros ? ? []) k v Hin) as [Hne Hall].
  splits.
  - destruct v as [|r v]; [congruence|]. now destruct (Hall r (or_introl eq_refl)).
  - exact Hne.
  - apply Forall_forall. intros r Hr.
    destruct (Hall r Hr) as (_ & He & Hf & Hu). cbn [snd] in *.
    now splits.
Qed.

Lemma X15_witness :
  Parser.parse_secret_file Parser.simple_url_path Parser.aws_dump
  = [(py "AWS Key",
      [mkEvidence (py "AKIA1234567890ABCD12") (py "app.js") (py "https://x.com/app.js")])] /\
  Forall (well_formed_record Parser.aws_dump)
    [mkEvidence (py "AKIA1234567890ABCD12") (py "app.js") (py "https://x.com/app.js")].
Proof.
  split; [vm_compute; reflexivity|].
  apply (@X15_parsed_records_are_well_formed Parser.simple_url_path Parser.aws_dump
           (py "AWS Key")).
  vm_compute. now left.
Defined.

Lemma lookup_in (k : str) (v : list EvidenceRecord) (d : Buckets) :
  NoDup (map fst d) -> In (k, v) d -> Parser.lookup k d = Some v.
Proof.
  induction d as [|[k' v'] d IH]; intros Hnd Hin; [destruct Hin|].
  cbn [map fst] in Hnd. inversion Hnd as [|? ? Hk' Hd]; subst.
  cbn [Parser.lookup]. destruct Hin as [Heq | Hin].
  - inversion Heq; subst. now rewrite str_eqb_refl.
  - destruct (Str.eqb k k') eqn:E; [|now apply IH].
    apply str_eqb_eq in E. subst k'. exfalso. apply Hk'.
    apply in_map_iff. now exists (k, v).
Qed.

(** X16.  From the dump to the report: when [build_json_report] returns
    a report for the buckets that [parse_secret_file] made of a dump,
    [total_evidences] is the number of evidence lines of the dump (the
    lines that hold [->] and are not URL lines), [total_secret_types] and
    [total_findings] are the number of distinct secret types on these
    lines, which is at most the number of these lines, and no finding
    shows more evidence values than its secret type has evidence lines
    in the dump. *)
Theorem X16_report_counts_the_dump :
  forall (World : Type) (RT : Runtime World)
         (urlparse_path : str -> option str) (dump : str) (w : World) (rep : Report),
    run_result
      (Aggregator.build_json_report (Parser.parse_secret_file urlparse_path dump)) w
      = inr rep ->
    let rs := ParserSpec.rows_of_dump urlparse_path dump in
    total_evidences (summary rep) = length (evidence_lines dump) /\
    total_secret_types (summary rep) = length (ParserSpec.first_seen (map fst rs)) /\
    total_findings (summary rep) = length (ParserSpec.first_seen (map fst rs)) /\
    length (ParserSpec.first_seen (map fst rs)) <= length (evidence_lines dump) /\
    Forall (fun f =>
              length (finding_evidence f)
              <= length (ParserSpec.bucket_of (secret_type f) rs))
           (findings rep).
Proof.
  intros World RT urlparse_path dump w rep Hrun rs.
  destruct (report_shape _ w Hrun) as (built & Hall & Hf & Hs & _).
  rewrite Hs. cbn [total_evidences total_secret_types total_findings
                   Aggregator.make_summary].
  assert (Hrows : length rs = length (evidence_lines dump)).
  { symmetry. exact (Forall2_length (rows_lines urlparse_path (Str.file_lines dump)
                                       Parser.Unknown)). }
  assert (Hkeys : length (Parser.parse_secret_file urlparse_path dump)
                  = length (ParserSpec.first_seen (map fst rs))).
  { destruct (parse_secret_file_spec urlparse_path dump) as (_ & Hk & _).
    fold rs in Hk. rewrite <- Hk. now rewrite length_map. }
  assert (Htotal : list_sum (map (fun kv => length (snd kv))
                               (Parser.parse_secret_file urlparse_path dump))
                   = length rs).
  { unfold Parser.parse_secret_file. rewrite parse_lines_rows.
    rewrite append_rows_total. reflexivity. }
  assert (Hnonempty : forall d : Buckets,
             (forall k v, In (k, v) d -> v <> []) ->
             length d <= list_sum (map (fun kv => length (snd kv)) d)).
  { induction d as [|[k v] d IHd]; intros Hd; [reflexivity|].
    cbn [map list_sum fold_right snd length].
    assert (v <> []) by (apply (Hd k); now left).
    assert (length d <= list_sum (map (fun kv => length (snd kv)) d)).
    { apply IHd. intros k' v' H'. apply (Hd k'). now right. }
    unfold list_sum in *. destruct v; [congruence|]. cbn [length]. lia. }
  splits.
  - now rewrite Htotal.
  - exact Hkeys.
  - rewrite <- Hkeys. symmetry. exact (Forall2_length Hall).
  - rewrite <- Hkeys, <- Hrows, <- Htotal. apply Hnonempty.
    intros k v Hin.
    unfold Parser.parse_secret_file in Hin. rewrite parse_lines_rows in Hin.
    apply (@append_rows_in (fun _ => True) _
             ltac:(apply Forall_forall; intros; exact I) []
             ltac:(intros ? ? []) k v Hin).
  - assert (Hperm : Permutation built (findings rep)).
    { rewrite Hf. apply sorted_reverse_perm. }
    apply Forall_forall. intros f Hin.
    apply (Permutation_in _ (Permutation_sym Hperm)) in Hin.
    destruct (@Forall2_in_r _ _ _ _ _ _ Hall Hin) as ([k v] & Hkv & Hfind).
    destruct (finding_evidence_length Hfind) as (_ & Hle & _).
    assert (Hst : secret_type f = k).
    { destruct Hfind as (risk & desc & steps & ts & w0 & ->). reflexivity. }
    rewrite Hst. cbn [snd] in Hle.
    destruct (parse_secret_file_spec urlparse_path dump) as (Hlook & _ & Hnd).
    fold rs in Hlook.
    pose proof (@lookup_in _ _ _ Hnd Hkv) as Hl. rewrite Hlook in Hl.
    destruct (ParserSpec.bucket_of k rs) as [|r0 b]; [discriminate|].
    inversion Hl; subst v. exact Hle.
Qed.

Lemma X16_witness :
  exists rep,
    run_result (Demo.report Demo.secrets) Demo.boot = inr rep /\
    length (evidence_lines Demo.dump) = 5 /\
    total_evidences (summary rep) = length (evidence_lines Demo.dump) /\
    total_secret_types (summary rep) = 4 /\
    map (fun f => length (finding_evidence f)) (findings rep) = [1; 2; 1; 1] /\
    Forall (fun f =>
              length (finding_evidence f)
              <= length (ParserSpec.bucket_of
                           (secret_type f)
                           (ParserSpec.rows_of_dump Parser.simple_url_path Demo.dump)))
           (findings rep).
Proof.
  eexists. split; [vm_compute; reflexivity|]. split; [vm_compute; reflexivity|].
  pose proof (@X16_report_counts_the_dump Demo.world Demo.runtime
                Parser.simple_url_path Demo.dump Demo.boot _
                ltac:(vm_compute; reflexivity)) as (H1 & _ & _ & _ & H5).
  split; [exact H1|]. split; [vm_compute; reflexivity|].
  split; [vm_compute; reflexivity | exact H5].
Defined.

(* ================================================================== *)
(** * Further properties of the command matcher *)
(* ================================================================== *)

Lemma lstrip_app (x y : str) :
  Str.lstrip (x ++ y) =
  match Str.lstrip x with [] => Str.lstrip y | z => z ++ y end.
Proof.
  induction x as [|c x IH]; [reflexivity|]. cbn [app Str.lstrip].
  destruct (Str.is_space c); [exact IH | reflexivity].
Qed.

(** [rstrip] does not go past a character that is not white space. *)
Lemma rstrip_app_keep (a b : str) :
  match rev a with [] => False | c :: _ => Str.is_space c = false end ->
  Str.rstrip (a ++ b) = a ++ Str.rstrip b.
Proof.
  intros Ha. unfold Str.rstrip. rewrite rev_app_distr, lstrip_app.
  assert (Hfix : Str.lstrip (rev a) = rev a).
  { apply lstrip_fixed. destruct (rev a); [destruct Ha | exact Ha]. }
  destruct (Str.lstrip (rev b)) as [|z zs] eqn:E.
  - rewrite Hfix, rev_involutive. cbn [rev]. now rewrite app_nil_r.
  - rewrite rev_app_distr, rev_involutive. reflexivity.
Qed.

Lemma lines_go_free_upto (brk : ascii -> bool) (n : nat) :
  forall (s cur : str),
    length s <= n ->
    free_of brk cur -> Forall (free_of brk) (Str.lines_go brk cur s).
Proof.
  unfold free_of.
  induction n as [|n IH]; intros s cur Hlen Hcur;
    (destruct s as [|c s]; cbn [Str.lines_go];
     [destruct cur; [constructor|]; constructor; [|constructor]; now apply Forall_rev|]).
  - cbn in Hlen. lia.
  - cbn [length] in Hlen. destruct (brk c) eqn:Hb.
    + destruct s as [|d s']; [constructor; [|constructor]; now apply Forall_rev|].
      cbn [length] in Hlen.
      destruct (Ascii.eqb c CR && Ascii.eqb d LF);
        (constructor; [now apply Forall_rev|]); apply IH;
        try constructor; cbn [length]; lia.
    + apply IH; [lia | now constructor].
Qed.

Lemma lines_go_free (brk : ascii -> bool) (s : str) :
  Forall (free_of brk) (Str.lines_go brk [] s).
Proof. apply (@lines_go_free_upto brk (length s)); [lia | constructor]. Qed.

Lemma linebreak_newline (c : ascii) :
  Str.is_linebreak c = false -> is_newline c = false.
Proof.
  unfold Str.is_linebreak, is_newline, Str.between. intros H.
  destruct (Ascii.eqb_spec c LF) as [-> | _]; [vm_compute in H; discriminate|].
  destruct (Ascii.eqb_spec c CR) as [-> | _]; [vm_compute in H; discriminate|].
  reflexivity.
Qed.

Lemma splitlines_free (s line : str) :
  In line (Str.splitlines s) -> free_of is_newline line.
Proof.
  intros Hin. pose proof (lines_go_free Str.is_linebreak s) as H.
  rewrite Forall_forall in H. specialize (H line Hin).
  unfold free_of in *. eapply Forall_impl; [|exact H].
  intros c. apply linebreak_newline.
Qed.

Lemma free_of_strip (p : ascii -> bool) (s : str) :
  free_of p s -> free_of p (Str.strip s).
Proof.
  unfold free_of. rewrite !Forall_forall. intros H c Hc.
  apply H. now apply strip_In.
Qed.

(** A stripped line that starts with [curl], as [extract_commands]
    appends it. *)
Lemma curl_line_of_strip (line : str) :
  is_curl (Str.strip line) = true ->
  free_of is_newline line ->
  curl_line (Str.strip line).
Proof.
  intros Hc Hf. split; [exact Hc|]. split; [apply strip_idem|].
  now apply free_of_strip.
Qed.

Lemma block_commands_curl (commands : list str) (block : str * Re.groups) :
  Forall curl_line commands ->
  Forall curl_line (Catalog.block_commands commands block).
Proof.
  unfold Catalog.block_commands.
  assert (Hlines : forall line,
             In line (Str.splitlines (Catalog.group_text 2 (snd block))) ->
             free_of is_newline line) by (intros line; apply splitlines_free).
  revert commands.
  induction (Str.splitlines (Catalog.group_text 2 (snd block))) as [|line lines IH];
    intros commands Hall; [exact Hall|].
  cbn [fold_left]. apply IH.
  - intros l Hl. apply Hlines. now right.
  - fold (is_curl (Str.strip line)).
    destruct (is_curl (Str.strip line)) eqn:Hc; [|exact Hall].
    apply Forall_app. split; [exact Hall|]. constructor; [|constructor].
    apply curl_line_of_strip; [exact Hc|]. apply Hlines. now left.
Qed.

(** Every match that the scan reports is a match of the pattern that
    starts somewhere in the subject. *)
Lemma pieces_matches (r : Re.regex) (s : str) :
  forall (skip : nat) (prev : option ascii) (w : str) (g : Re.groups),
    In (inr (w, g)) (Re.pieces r skip prev s) ->
    exists prev' s' t,
      Re.rmatch r prev' s' [] Re.stop = Some (t, g) /\
      w = firstn (length s' - length t) s' /\
      0 < length s' - length t.
Proof.
  induction s as [|c s IH]; intros skip prev w g Hin; [destruct Hin|].
  cbn [Re.pieces] in Hin. destruct skip as [|k]; [|exact (IH _ _ _ _ Hin)].
  destruct (Re.rmatch r prev (c :: s) [] Re.stop) as [[t g']|] eqn:E.
  - destruct (length (c :: s) - length t) as [|k] eqn:El.
    + destruct Hin as [Hin | Hin]; [discriminate | exact (IH _ _ _ _ Hin)].
    + destruct Hin as [Hin | Hin]; [|exact (IH _ _ _ _ Hin)].
      inversion Hin; subst. exists prev, (c :: s), t.
      rewrite El. split; [exact E|]. split; [reflexivity | lia].
  - destruct Hin as [Hin | Hin]; [discriminate | exact (IH _ _ _ _ Hin)].
Qed.

(** A greedy repetition takes a run of characters of its class. *)
Lemma star_greedy_sound (R : Type) (p : ascii -> bool) (s : str) :
  forall (prev : option ascii) (k : option ascii -> str -> option R) (res : R),
    Re.star_greedy p prev s k = Some res ->
    exists w t pv, s = w ++ t /\ made_of p w /\ k pv t = Some res.
Proof.
  induction s as [|c s IH]; intros prev k res H; cbn [Re.star_greedy] in H.
  - exists [], [], prev. split; [reflexivity|]. split; [constructor | exact H].
  - destruct (p c) eqn:Hp.
    + destruct (Re.star_greedy p (Some c) s k) as [r|] eqn:E.
      * inversion H; subst. destruct (IH _ _ _ E) as (w & t & pv & -> & Hw & Hk).
        exists (c :: w), t, pv. split; [reflexivity|].
        split; [now constructor | exact Hk].
      * exists [], (c :: s), prev. split; [reflexivity|].
        split; [constructor | exact H].
    + exists [], (c :: s), prev. split; [reflexivity|].
      split; [constructor | exact H].
Qed.

Lemma eol_stop (multiline : bool) (prev : option ascii) (t : str) (g : Re.groups)
  (res : str * Re.groups) :
  Re.rmatch (Re.Eol multiline) prev t g Re.stop = Some res -> res = (t, g).
Proof.
  cbn [Re.rmatch]. unfold Re.stop. destruct t as [|c t'].
  - intros H. now inversion H.
  - destruct (Ascii.eqb c LF
              && (multiline || match t' with [] => true | _ :: _ => false end));
      intros H; [now inversion H | discriminate].
Qed.

(** What [inline_curl] matches: the four letters of [curl], in any case,
    and the rest of their line. *)
Lemma inline_curl_match (prev : option ascii) (s t : str) (g : Re.groups) :
  Re.rmatch Catalog.inline_curl prev s [] Re.stop = Some (t, g) ->
  exists c1 c2 c3 c4 mid,
    s = c1 :: c2 :: c3 :: c4 :: mid ++ t /\
    Str.lower_char c1 = "c"%char /\ Str.lower_char c2 = "u"%char /\
    Str.lower_char c3 = "r"%char /\ Str.lower_char c4 = "l"%char /\
    free_of is_newline mid.
Proof.
  unfold Catalog.inline_curl. cbn [Re.rmatch].
  intros H.
  assert (H' : Re.rmatch
                 (Re.lit true (py "curl")
                    (Re.Seq (Re.Rep true 0
                               (fun c => negb (Ascii.eqb c LF) && negb (Ascii.eqb c CR)))
                            (Re.Eol true))) prev s [] Re.stop = Some (t, g)).
  { destruct prev as [c|]; [|exact H].
    destruct (true && Ascii.eqb c LF); [exact H | discriminate]. }
  clear H. cbn [py list_ascii_of_string Re.lit Re.rmatch Re.chr_eq] in H'.
  destruct s as [|c1 s]; [discriminate|].
  destruct (Ascii.eqb (Str.lower_char c1) (Str.lower_char "c")) eqn:E1; [|discriminate].
  destruct s as [|c2 s]; [discriminate|].
  destruct (Ascii.eqb (Str.lower_char c2) (Str.lower_char "u")) eqn:E2; [|discriminate].
  destruct s as [|c3 s]; [discriminate|].
  destruct (Ascii.eqb (Str.lower_char c3) (Str.lower_char "r")) eqn:E3; [|discriminate].
  destruct s as [|c4 s]; [discriminate|].
  destruct (Ascii.eqb (Str.lower_char c4) (Str.lower_char "l")) eqn:E4; [|discriminate].
  cbn [Re.rep_min] in H'.
  apply star_greedy_sound in H' as (mid & t' & pv & -> & Hmid & Hk).
  apply eol_stop in Hk. inversion Hk; subst.
  apply Ascii.eqb_eq in E1, E2, E3, E4.
  exists c1, c2, c3, c4, mid. splits; auto.
  unfold free_of, made_of in *. eapply Forall_impl; [|exact Hmid].
  intros c Hc. unfold is_newline. apply andb_true_iff in Hc as [Ha Hb].
  apply negb_true_iff in Ha, Hb. now rewrite Ha, Hb.
Qed.

Lemma lower_letter_not_space (c : ascii) (x : ascii) :
  Str.lower_char c = x -> Str.is_ascii_lower x = true ->
  Str.is_space c = false /\ is_newline c = false.
Proof.
  intros Hl Hx. subst x. apply is_ascii_lower_iff in Hx.
  rewrite lower_char_code in Hx.
  assert (Hr : (65 <= Str.code c <= 122)%N).
  { destruct (Str.is_upper c) eqn:E; [apply is_upper_iff in E|]; lia. }
  split.
  - destruct (Str.is_space c) eqn:F; [|reflexivity]. apply is_space_iff in F. lia.
  - unfold is_newline.
    destruct (Ascii.eqb_spec c LF) as [-> | _];
      [change (Str.code LF) with 10%N in Hr; lia|].
    destruct (Ascii.eqb_spec c CR) as [-> | _];
      [change (Str.code CR) with 13%N in Hr; lia|].
    reflexivity.
Qed.

(** The text of an inline match, stripped, is a curl line. *)
Lemma inline_match_curl (body w : str) (g : Re.groups) :
  In (w, g) (Re.findall Catalog.inline_curl body) ->
  curl_line (Str.strip w).
Proof.
  unfold Re.findall. intros Hin. apply in_flat_map in Hin as (x & Hx & Hin).
  destruct x as [c | m]; [destruct Hin|]. destruct Hin as [-> | []].
  apply pieces_matches in Hx as (prev & s & t & Hm & -> & Hpos).
  apply inline_curl_match in Hm as (c1 & c2 & c3 & c4 & mid & -> & L1 & L2 & L3 & L4 & Hmid).
  assert (Hw : firstn (length (c1 :: c2 :: c3 :: c4 :: mid ++ t) - length t)
                 (c1 :: c2 :: c3 :: c4 :: mid ++ t)
               = [c1; c2; c3; c4] ++ mid).
  { change (c1 :: c2 :: c3 :: c4 :: mid ++ t) with (([c1; c2; c3; c4] ++ mid) ++ t).
    rewrite length_app, Nat.add_sub. rewrite firstn_app, Nat.sub_diag, firstn_all.
    cbn [firstn]. now rewrite app_nil_r. }
  rewrite Hw. clear Hw Hpos.
  destruct (lower_letter_not_space c1 L1 eq_refl) as [S1 N1].
  destruct (lower_letter_not_space c2 L2 eq_refl) as [S2 N2].
  destruct (lower_letter_not_space c3 L3 eq_refl) as [S3 N3].
  destruct (lower_letter_not_space c4 L4 eq_refl) as [S4 N4].
  assert (Hstrip : Str.strip ([c1; c2; c3; c4] ++ mid) = [c1; c2; c3; c4] ++ Str.rstrip mid).
  { unfold Str.strip. rewrite lstrip_fixed by exact S1.
    apply rstrip_app_keep. cbn. exact S4. }
  split; [|split].
  - rewrite Hstrip. unfold is_curl, Str.lower. cbn [app map Str.startswith py
                                                 list_ascii_of_string].
    rewrite L1, L2, L3, L4. reflexivity.
  - apply strip_idem.
  - apply free_of_strip. unfold free_of in *.
    repeat (constructor; [assumption|]). exact Hmid.
Qed.

Lemma section_commands_curl (commands : list str) (body : str) :
  Forall curl_line commands ->
  Forall curl_line (Catalog.section_commands commands body).
Proof.
  intros Hall. unfold Catalog.section_commands. cbv zeta.
  assert (Hblocks : Forall curl_line
                      (fold_left Catalog.block_commands
                                 (Re.findall Catalog.code_fence body) commands)).
  { revert commands Hall.
    induction (Re.findall Catalog.code_fence body) as [|b bs IH];
      intros commands Hall; [exact Hall|].
    cbn [fold_left]. apply IH. now apply block_commands_curl. }
  revert Hblocks.
  generalize (fold_left Catalog.block_commands
                (Re.findall Catalog.code_fence body) commands).
  assert (Hinline : forall m, In m (Re.findall Catalog.inline_curl body) ->
                              curl_line (Str.strip (fst m))).
  { intros [w g] Hm. exact (inline_match_curl _ _ _ Hm). }
  induction (Re.findall Catalog.inline_curl body) as [|m ms IH];
    intros acc Hacc; [exact Hacc|].
  cbn [fold_left]. apply IH.
  - intros m' Hm'. apply Hinline. now right.
  - destruct (Str.mem (Str.strip (fst m)) acc); [exact Hacc|].
    apply Forall_app. split; [exact Hacc|]. constructor; [|constructor].
    apply Hinline. now left.
Qed.

Lemma commands_of_sections_curl (secs : list str) :
  Forall curl_line (commands_of_sections secs).
Proof.
  unfold commands_of_sections.
  assert (H : forall acc, Forall curl_line acc ->
                          Forall curl_line
                            (fold_left
                               (fun commands sec =>
                                  Catalog.section_commands commands
                                    (Catalog.section_body sec)) secs acc)).
  { induction secs as [|sec secs IH]; intros acc Hacc; [exact Hacc|].
    cbn [fold_left]. apply IH. now apply section_commands_curl. }
  apply H. constructor.
Qed.

(** X17.  Whatever the catalog and the secret type, every command that
    [extract_commands] returns starts with [curl] (in any case of the
    letters), has no white space at either end, is not empty and lies on
    one line (it holds neither a line feed nor a carriage return). *)
Theorem X17_extracted_commands_are_curl_lines :
  forall (secret_type md_text c : str),
    In c (Catalog.extract_commands secret_type md_text) ->
    is_curl c = true /\ stripped c /\ free_of is_newline c /\ 4 <= length c.
Proof.
  intros st md c Hin. rewrite extract_commands_unfold in Hin.
  pose proof (commands_of_sections_curl
                (filter (Catalog.section_selected (Catalog.normalize st))
                        (Str.split (py "## ") md))) as Hall.
  unfold commands_of_sections in Hall. rewrite Forall_forall in Hall.
  destruct (Hall c Hin) as (Hc & Hs & Hf). splits; auto.
  unfold is_curl in Hc. apply startswith_iff in Hc as [r Hr].
  assert (Hlen : length (Str.lower c) = length c) by apply length_map.
  rewrite Hr, length_app in Hlen. cbn in Hlen. lia.
Qed.

Lemma X17_witness :
  In Catalog.github_template
     (Catalog.extract_commands (py "GitHub Token") Catalog.github_catalog) /\
  is_curl Catalog.github_template = true /\
  stripped Catalog.github_template.
Proof.
  assert (Hin : In Catalog.github_template
                   (Catalog.extract_commands (py "GitHub Token") Catalog.github_catalog)).
  { vm_compute. now left. }
  split; [exact Hin|].
  destruct (@X17_extracted_commands_are_curl_lines _ _ _ Hin) as (Hc & Hs & _).
  now split.
Defined.

Lemma has_title_selected (sec : str) :
  Catalog.section_selected [] sec = has_title sec.
Proof.
  unfold Catalog.section_selected, has_title.
  destruct (Str.splitlines sec) as [|line0 rest]; [reflexivity|]. cbv zeta.
  destruct (Catalog.section_title line0) as [|c title]; [reflexivity|].
  unfold Catalog.title_matches. rewrite contains_nil. apply orb_true_r.
Qed.

(** X18.  A secret type that [normalize] reduces to the empty text (the
    empty label, or one of ASCII punctuation only such as [?!]) matches
    every section, since the empty text occurs in every normalized title:
    [extract_commands] then returns the commands of all the sections
    that have a title.  In the same way a section whose title
    [normalize] reduces to the empty text is selected for every secret
    type. *)
Theorem X18_empty_normal_form_matches_everything :
  (forall secret_type md_text,
      Catalog.normalize secret_type = [] ->
      Catalog.extract_commands secret_type md_text
      = commands_of_sections (filter has_title (Str.split (py "## ") md_text))) /\
  (forall wanted sec line0 rest,
      Str.splitlines sec = line0 :: rest ->
      Catalog.section_title line0 <> [] ->
      Catalog.normalize (Catalog.section_title line0) = [] ->
      Catalog.section_selected wanted sec = true).
Proof.
  split.
  - intros st md Hn. rewrite extract_commands_unfold, Hn.
    unfold commands_of_sections. f_equal. apply filter_ext. exact has_title_selected.
  - intros wanted sec line0 rest Hl Ht Hn. apply section_selected_iff.
    exists line0, rest. splits; auto. left. rewrite Hn. exists [], wanted. reflexivity.
Qed.

Lemma X18_witness :
  Catalog.normalize (py "?!") = [] /\
  Catalog.extract_commands (py "?!") Demo.catalog
  = [Catalog.github_template;
     py "curl https://slow.example.com/ping -d key=API_KEY_HERE";
     py "curl -H 'Authorization: token TOKEN_HERE' https://api.github.com/user";
     py "curl https://status.example.com/health"].
Proof.
  split; [vm_compute; reflexivity|].
  rewrite (proj1 X18_empty_normal_form_matches_everything (py "?!") Demo.catalog)
    by (vm_compute; reflexivity).
  vm_compute. reflexivity.
Defined.

(* ================================================================== *)
(** * The label of the report files *)
(* ================================================================== *)

(** Replacing every run of characters outside a class by one text. *)
Lemma pieces_squeeze (p : ascii -> bool) (r : str) (s : str) :
  forall prev : option ascii,
    flat_map (put r) (Re.pieces (Re.Rep true 1 (outside p)) 0 prev s)
    = squeeze p r false s /\
    flat_map (put r)
      (Re.pieces (Re.Rep true 1 (outside p))
                 (length (takewhile (outside p) s)) prev s)
    = squeeze p r true s.
Proof.
  induction s as [|c s IH]; intros prev; [split; reflexivity|].
  assert (H0 : flat_map (put r) (Re.pieces (Re.Rep true 1 (outside p)) 0 prev (c :: s))
               = squeeze p r false (c :: s)).
  { cbn [Re.pieces Re.rmatch Re.rep_min squeeze].
    destruct (outside p c) eqn:Hq.
    - rewrite star_greedy_stop.
      assert (Hp : p c = false) by (unfold outside in Hq; now destruct (p c)).
      assert (Hlen : length (c :: s) - length (dropwhile (outside p) s)
                     = S (length (takewhile (outside p) s))).
      { pose proof (take_drop_length (outside p) s). cbn [length]. lia. }
      rewrite Hlen, Hp. cbn [flat_map put].
      now rewrite (proj2 (IH (Some c))).
    - assert (Hp : p c = true) by (unfold outside in Hq; now destruct (p c)).
      rewrite Hp. cbn [flat_map put app]. now rewrite (proj1 (IH (Some c))). }
  split; [exact H0|].
  cbn [takewhile]. destruct (outside p c) eqn:Hq.
  - assert (Hp : p c = false) by (unfold outside in Hq; now destruct (p c)).
    cbn [length Re.pieces squeeze]. rewrite Hp. exact (proj2 (IH (Some c))).
  - assert (Hp : p c = true) by (unfold outside in Hq; now destruct (p c)).
    cbn [length]. rewrite H0. cbn [squeeze]. now rewrite Hp.
Qed.

Lemma sub_squeeze (p : ascii -> bool) (r s : str) :
  Re.sub (Re.Rep true 1 (outside p)) (fun _ => r) s = squeeze p r false s.
Proof.
  unfold Re.sub. rewrite <- (proj1 (pieces_squeeze p r s None)).
  apply flat_map_ext. intros [c | [w g]]; reflexivity.
Qed.

Lemma squeeze_made_of (p q : ascii -> bool) (r s : str) :
  (forall c, p c = true -> q c = true) -> made_of q r ->
  forall b, made_of q (squeeze p r b s).
Proof.
  intros Hpq Hr. unfold made_of in *.
  induction s as [|c s IH]; intros b; cbn [squeeze]; [constructor|].
  destruct (p c) eqn:Hp.
  - constructor; [now apply Hpq | apply IH].
  - destruct b; [apply IH|]. apply Forall_app. split; [exact Hr | apply IH].
Qed.

Lemma lstrip_of_head (u : ascii) (s : str) :
  match Text.lstrip_of [u] s with [] => True | c :: _ => c <> u end.
Proof.
  induction s as [|c s IH]; [exact I|]. cbn [Text.lstrip_of existsb].
  rewrite orb_false_r. destruct (Ascii.eqb_spec c u) as [-> | Hne]; [exact IH | exact Hne].
Qed.

Lemma lstrip_of_suffix (chars s : str) :
  exists sp, s = sp ++ Text.lstrip_of chars s.
Proof.
  induction s as [|c s (sp & Hs)]; [now exists []|].
  cbn [Text.lstrip_of]. destruct (existsb (Ascii.eqb c) chars).
  - exists (c :: sp). cbn. now rewrite <- Hs.
  - now exists [].
Qed.

Lemma strip_of_ends (u : ascii) (s : str) : no_ends u (Text.strip_of [u] s).
Proof.
  unfold Text.strip_of, no_ends. rewrite rev_involutive.
  split; [|apply lstrip_of_head].
  pose proof (lstrip_of_head u s) as Hh.
  destruct (lstrip_of_suffix [u] (rev (Text.lstrip_of [u] s))) as (sp & Hs).
  apply (f_equal (@rev ascii)) in Hs. rewrite rev_involutive, rev_app_distr in Hs.
  destruct (rev (Text.lstrip_of [u] (rev (Text.lstrip_of [u] s)))) as [|c r];
    [exact I|].
  rewrite Hs in Hh. exact Hh.
Qed.

Lemma strip_of_In (chars s : str) (c : ascii) :
  In c (Text.strip_of chars s) -> In c s.
Proof.
  unfold Text.strip_of. intros H. apply in_rev in H.
  destruct (lstrip_of_suffix chars (rev (Text.lstrip_of chars s))) as (sp & Hs).
  assert (H1 : In c (rev (Text.lstrip_of chars s)))
    by (rewrite Hs; apply in_or_app; now right).
  apply in_rev in H1.
  destruct (lstrip_of_suffix chars s) as (sp' & Hs').
  rewrite Hs'. apply in_or_app. now right.
Qed.

Lemma alnum_label_char (c : ascii) :
  Str.is_ascii_alnum c = true -> is_label_char c = true.
Proof. unfold is_label_char. now intros ->. Qed.

(** What [sanitize] makes of any text. *)
Lemma sanitize_spec (base : str) :
  Classifier.sanitize base <> [] /\
  made_of is_label_char (Classifier.sanitize base) /\
  no_ends "_" (Classifier.sanitize base).
Proof.
  unfold Classifier.sanitize, Classifier.non_alnum_run.
  change (fun c => negb (Str.is_ascii_alnum c)) with (outside Str.is_ascii_alnum).
  rewrite sub_squeeze.
  set (t := squeeze Str.is_ascii_alnum (py "_") false base).
  assert (Ht : made_of is_label_char t).
  { apply squeeze_made_of; [exact alnum_label_char|].
    constructor; [reflexivity | constructor]. }
  pose proof (strip_of_ends "_" t) as He.
  change ["_"%char] with (py "_") in He.
  assert (Hm : made_of is_label_char (Text.strip_of (py "_") t)).
  { unfold made_of in *. rewrite Forall_forall in *. intros c Hc.
    apply Ht. exact (strip_of_In _ _ _ Hc). }
  destruct (Text.strip_of (py "_") t) as [|c l] eqn:E.
  - splits.
    + discriminate.
    + vm_compute. repeat constructor.
    + split; cbn; discriminate.
  - splits; [discriminate | exact Hm | exact He].
Qed.

(** X19.  The label that [main] puts at the head of the names of the
    three report files is never empty, is made of ASCII letters, digits
    and underscores only, and neither starts nor ends with an
    underscore, whatever the target URL and whatever [urlparse] makes of
    it: no target URL can put a path separator or a dot into the file
    names.  Without a target URL the label is [report]. *)
Theorem X19_report_label_is_safe :
  forall (urlparse_netloc : str -> exn + str) (target_url : option str),
    let label := Classifier.base_label urlparse_netloc target_url in
    label <> [] /\
    made_of is_label_char label /\
    no_ends "_" label /\
    ~ In "/"%char label /\ ~ In "."%char label /\ ~ In BS label /\
    Classifier.base_label urlparse_netloc None = Classifier.default_label.
Proof.
  intros urlparse_netloc target_url label. unfold label, Classifier.base_label.
  destruct (sanitize_spec (Classifier.raw_label urlparse_netloc target_url))
    as (Hne & Hm & He).
  assert (Hno : forall c, is_label_char c = false ->
                          ~ In c (Classifier.sanitize
                                    (Classifier.raw_label urlparse_netloc target_url))).
  { intros c Hc Hin. unfold made_of in Hm. rewrite Forall_forall in Hm.
    specialize (Hm c Hin). congruence. }
  splits; auto; try (apply Hno; reflexivity).
Qed.

(* ================================================================== *)
(** * The script URLs of the crawler *)
(* ================================================================== *)

Lemma ltb_irrefl (a : str) : Text.ltb a a = false.
Proof.
  induction a as [|x a IH]; [reflexivity|]. cbn [Text.ltb].
  rewrite N.ltb_irrefl, N.eqb_refl, IH. reflexivity.
Qed.

Lemma code_inj (x y : ascii) : Str.code x = Str.code y -> x = y.
Proof.
  unfold Str.code. intros H.
  rewrite <- (ascii_N_embedding x), <- (ascii_N_embedding y). now rewrite H.
Qed.

Lemma ltb_trans (a b c : str) :
  Text.ltb a b = true -> Text.ltb b c = true -> Text.ltb a c = true.
Proof.
  revert b c. induction a as [|x a IH]; intros b c Hab Hbc.
  - destruct b as [|y b]; [discriminate|]. destruct c as [|z c]; [discriminate|].
    reflexivity.
  - destruct b as [|y b]; [discriminate|]. destruct c as [|z c]; [discriminate|].
    cbn [Text.ltb] in *.
    apply orb_true_iff in Hab as [Hab | Hab];
      apply orb_true_iff in Hbc as [Hbc | Hbc]; apply orb_true_iff.
    + left. apply N.ltb_lt in Hab, Hbc. apply N.ltb_lt. lia.
    + apply andb_true_iff in Hbc as [Hbc _]. apply N.eqb_eq in Hbc.
      left. now rewrite <- Hbc.
    + apply andb_true_iff in Hab as [Hab _]. apply N.eqb_eq in Hab.
      left. now rewrite Hab.
    + apply andb_true_iff in Hab as [Hab1 Hab2].
      apply andb_true_iff in Hbc as [Hbc1 Hbc2].
      apply N.eqb_eq in Hab1, Hbc1. right.
      rewrite Hab1, Hbc1, N.eqb_refl. cbn [andb]. now apply (IH b c).
Qed.

Lemma ltb_total (a b : str) :
  a <> b -> Text.ltb a b = false -> Text.ltb b a = true.
Proof.
  revert b. induction a as [|x a IH]; intros b Hne Hab.
  - destruct b; [congruence | discriminate].
  - destruct b as [|y b]; [reflexivity|]. cbn [Text.ltb] in *.
    apply orb_false_iff in Hab as [H1 H2]. apply N.ltb_ge in H1.
    destruct (N.eqb_spec (Str.code x) (Str.code y)) as [E | E].
    + cbn [andb] in H2. apply code_inj in E. subst y.
      rewrite N.ltb_irrefl, N.eqb_refl. cbn [orb andb].
      apply IH; [congruence | exact H2].
    + assert (Hlt : (Str.code y < Str.code x)%N) by lia.
      apply N.ltb_lt in Hlt. now rewrite Hlt.
Qed.

Lemma insert_asc_In (x y : str) (l : list str) :
  In y (Text.insert_asc x l) <-> y = x \/ In y l.
Proof.
  induction l as [|z l IH]; cbn [Text.insert_asc].
  - cbn. intuition.
  - destruct (Text.ltb z x); cbn [In]; [rewrite IH|]; intuition.
Qed.

Lemma sorted_In (y : str) (l : list str) : In y (Text.sorted l) <-> In y l.
Proof.
  induction l as [|x l IH]; [reflexivity|]. cbn [Text.sorted In].
  rewrite insert_asc_In, IH. intuition.
Qed.

Lemma insert_asc_sorted (x : str) (l : list str) :
  ~ In x l -> StronglySorted str_lt l -> StronglySorted str_lt (Text.insert_asc x l).
Proof.
  intros Hx Hs. induction Hs as [|y l Hs IH Hall]; cbn [Text.insert_asc].
  - constructor; constructor.
  - destruct (Text.ltb y x) eqn:E.
    + constructor.
      * apply IH. intros H. apply Hx. now right.
      * apply Forall_forall. intros z Hz. apply insert_asc_In in Hz as [-> | Hz].
        -- exact E.
        -- rewrite Forall_forall in Hall. now apply Hall.
    + assert (Hxy : str_lt x y).
      { apply ltb_total; [|exact E]. intros ->. apply Hx. now left. }
      constructor; [now constructor|]. constructor; [exact Hxy|].
      rewrite Forall_forall in *. intros z Hz.
      exact (ltb_trans _ _ _ Hxy (Hall z Hz)).
Qed.

Lemma sorted_distinct (l : list str) :
  StronglySorted str_lt (Text.sorted (Text.distinct l)).
Proof.
  unfold Text.distinct.
  pose proof (NoDup_nodup (list_eq_dec ascii_dec) l) as Hnd.
  induction Hnd as [|x l' Hx _ IH]; [constructor|].
  cbn [Text.sorted]. apply insert_asc_sorted; [|exact IH].
  intros H. apply Hx. now apply sorted_In.
Qed.

Lemma lower_char_space (c : ascii) : Str.is_space (Str.lower_char c) = Str.is_space c.
Proof.
  unfold Str.lower_char. destruct (Str.is_upper c) eqn:E; [|reflexivity].
  apply is_upper_iff in E.
  assert (Hlt : (Str.code c + 32 < 256)%N) by lia.
  assert (H1 : Str.is_space (ascii_of_N (Str.code c + 32)) = false).
  { destruct (Str.is_space (ascii_of_N (Str.code c + 32))) eqn:F; [|reflexivity].
    apply is_space_iff in F. rewrite (code_of_N Hlt) in F. lia. }
  assert (H2 : Str.is_space c = false).
  { destruct (Str.is_space c) eqn:F; [|reflexivity].
    apply is_space_iff in F. lia. }
  now rewrite H1, H2.
Qed.

(** A text without white space that starts a text wrapped in white space
    starts its inside, which has no white space before it. *)
Lemma startswith_inside (w sp a rest : str) :
  w <> [] -> free_of Str.is_space w -> made_of Str.is_space sp ->
  Str.startswith w (sp ++ a ++ rest) = true ->
  made_of Str.is_space rest ->
  sp = [] /\ Str.startswith w a = true.
Proof.
  intros Hw Hfree Hsp Hs Hrest.
  assert (Hsp0 : sp = []).
  { destruct sp as [|c sp]; [reflexivity|]. destruct w as [|d w]; [congruence|].
    cbn in Hs. apply andb_true_iff in Hs as [Hs _]. apply Ascii.eqb_eq in Hs. subst d.
    inversion Hfree; subst. inversion Hsp; subst. congruence. }
  split; [exact Hsp0|]. subst sp. cbn [app] in Hs. clear Hw Hsp.
  revert a Hs. induction w as [|d w IH]; intros a Hs; [reflexivity|].
  inversion Hfree as [|? ? Hd Hfw]; subst.
  destruct a as [|c a].
  - cbn [app] in Hs. destruct rest as [|c rest]; [discriminate|].
    cbn in Hs. apply andb_true_iff in Hs as [Hs _]. apply Ascii.eqb_eq in Hs. subst d.
    inversion Hrest; subst. congruence.
  - cbn [app Str.startswith] in *. apply andb_true_iff in Hs as [H1 H2].
    rewrite H1. cbn [andb]. now apply IH.
Qed.

Lemma made_of_lower_space (s : str) :
  made_of Str.is_space s -> made_of Str.is_space (Str.lower s).
Proof.
  unfold made_of, Str.lower. intros H. apply Forall_map.
  eapply Forall_impl; [|exact H]. intros c Hc. now rewrite lower_char_space.
Qed.

(** Stripping a text that ends with [.js] leaves a text that ends with
    [.js]. *)
Lemma endswith_js_strip (url : str) :
  Text.endswith (py ".js") (Str.lower url) = true ->
  Text.endswith (py ".js") (Str.lower (Str.strip url)) = true.
Proof.
  unfold Text.endswith. intros H.
  destruct (strip_inside url) as (l & r & Hurl & Hl & Hr).
  rewrite Hurl in H. rewrite !lower_app, !rev_app_distr, <- app_assoc in H.
  apply (@startswith_inside (rev (py ".js")) (rev (Str.lower r))
           (rev (Str.lower (Str.strip url))) (rev (Str.lower l))) in H.
  - exact (proj2 H).
  - discriminate.
  - vm_compute. repeat constructor.
  - unfold made_of. apply Forall_rev. now apply made_of_lower_space.
  - unfold made_of. apply Forall_rev. now apply made_of_lower_space.
Qed.

Lemma split_lf_no_lf (s piece : str) :
  In piece (Str.split [LF] s) -> ~ In LF piece.
Proof.
  unfold Str.split. intros Hin.
  pose proof (@split_go_char LF s [] ltac:(intros [])) as H.
  rewrite Forall_forall in H. now apply H.
Qed.

(** What [js_files_of] returns: the stripped lines of the output that
    end with [.js], each once, in ascending order. *)
Lemma js_files_of_spec (stdout : str) :
  StronglySorted str_lt (Discovery.js_files_of stdout) /\
  Forall js_url (Discovery.js_files_of stdout) /\
  (forall u,
      In u (Discovery.js_files_of stdout) <->
      exists url,
        In url (Str.split [LF] (Str.strip stdout)) /\
        Str.strip url <> [] /\
        Text.endswith (py ".js") (Str.lower url) = true /\
        u = Str.strip url).
Proof.
  unfold Discovery.js_files_of. cbv zeta.
  assert (Hin : forall u,
             In u (Text.sorted
                     (Text.distinct
                        (flat_map
                           (fun url =>
                              match Str.strip url with
                              | [] => []
                              | _ :: _ =>
                                  if Text.endswith (py ".js") (Str.lower url)
                                  then [Str.strip url] else []
                              end) (Str.split [LF] (Str.strip stdout))))) <->
             exists url,
               In url (Str.split [LF] (Str.strip stdout)) /\
               Str.strip url <> [] /\
               Text.endswith (py ".js") (Str.lower url) = true /\
               u = Str.strip url).
  { intros u. rewrite sorted_In. unfold Text.distinct. rewrite nodup_In, in_flat_map.
    split.
    - intros (url & Hurl & Hu). exists url. split; [exact Hurl|].
      destruct (Str.strip url) as [|c r] eqn:E; [destruct Hu|].
      destruct (Text.endswith (py ".js") (Str.lower url)); [|destruct Hu].
      destruct Hu as [<- | []]. splits; [discriminate | reflexivity | reflexivity].
    - intros (url & Hurl & Hne & He & ->). exists url. split; [exact Hurl|].
      destruct (Str.strip url) as [|c r] eqn:E; [congruence|].
      rewrite He. now left. }
  splits.
  - apply sorted_distinct.
  - apply Forall_forall. intros u Hu. apply Hin in Hu as (url & Hurl & Hne & He & ->).
    split; [|split].
    + now apply endswith_js_strip.
    + apply strip_idem.
    + intros H. apply strip_In in H. exact (split_lf_no_lf _ _ Hurl H).
  - exact Hin.
Qed.

(** X20.  [run_katana_discovery] returns a list of script URLs in
    strictly ascending order (so without repetition); each of them ends
    with [.js] in any case of the letters, has no white space at either
    end and holds no line feed; the list holds exactly the stripped lines
    of the output of the crawler that are not blank and end with [.js]
    before stripping.  When the crawler cannot be run, ends with a
    non-zero code, or its output cannot be decoded, the list is empty. *)
Theorem X20_discovered_scripts_are_sorted_js_urls :
  forall (World : Type) (TL : Discovery.Tools World)
         (target_url max_pages : str) (depth : Z) (w : World),
    let cmd := Discovery.katana_command target_url max_pages (Text.of_Z depth) in
    let js_files := fst (Discovery.run_katana_discovery target_url max_pages depth w) in
    StronglySorted str_lt js_files /\
    Forall js_url js_files /\
    (forall returncode stdout,
        fst (Discovery.run_and_communicate cmd w) = inr (returncode, inr stdout) ->
        returncode = 0%Z ->
        forall u,
          In u js_files <->
          exists url,
            In url (Str.split [LF] (Str.strip stdout)) /\
            Str.strip url <> [] /\
            Text.endswith (py ".js") (Str.lower url) = true /\
            u = Str.strip url) /\
    (forall e, fst (Discovery.run_and_communicate cmd w) = inl e -> js_files = []) /\
    (forall returncode decoded,
        fst (Discovery.run_and_communicate cmd w) = inr (returncode, decoded) ->
        returncode <> 0%Z -> js_files = []) /\
    (forall returncode e,
        fst (Discovery.run_and_communicate cmd w) = inr (returncode, inl e) ->
        js_files = []).
Proof.
  intros World TL target_url max_pages depth w cmd js_files.
  unfold js_files, Discovery.run_katana_discovery. fold cmd.
  assert (Hnil : StronglySorted str_lt [] /\ Forall js_url []) by (split; constructor).
  destruct (Discovery.run_and_communicate cmd w) as [[e | [returncode decoded]] w'];
    cbn [fst].
  - split; [apply Hnil|]. split; [apply Hnil|].
    splits; intros; try discriminate; reflexivity.
  - destruct (Z.eqb_spec returncode 0) as [-> | Hne]; cbn [negb].
    + destruct decoded as [e | stdout]; cbn [fst].
      * split; [apply Hnil|]. split; [apply Hnil|].
        splits; intros; try discriminate; reflexivity.
      * destruct (js_files_of_spec stdout) as (Hs & Hall & Hin).
        split; [exact Hs|]. split; [exact Hall|]. splits.
        -- intros rc out Heq _. inversion Heq; subst. exact Hin.
        -- intros; discriminate.
        -- intros rc d Heq Hrc. inversion Heq; subst. now destruct Hrc.
        -- intros; discriminate.
    + cbn [fst]. split; [apply Hnil|]. split; [apply Hnil|].
      splits; intros; try reflexivity.
      match goal with
      | H : inr _ = inr _, H0 : _ = 0%Z |- _ => inversion H; subst; now destruct Hne
      end.
Qed.

Lemma X20_witness :
  DiscoveryDemo.discover = [py "https://x.com/a.JS"; py "https://x.com/b.js"] /\
  StronglySorted str_lt DiscoveryDemo.discover /\
  Forall js_url DiscoveryDemo.discover.
Proof.
  split; [vm_compute; reflexivity|].
  pose proof (@X20_discovered_scripts_are_sorted_js_urls unit DiscoveryDemo.tools
                (py "https://x.com") (py "x") 2 tt) as (Hs & Hall & _).
  split; [exact Hs | exact Hall].
Defined.

(* ================================================================== *)
(** * The secrets of the scripts *)
(* ================================================================== *)

Section AnalysisProps.

Context {World : Type} {TL : Discovery.Tools World}.

(** The loop over the URLs appends, for each URL in turn, the records
    of what SecretFinder answered on it. *)
Lemma analyse_answers (js_urls : list str) :
  forall (all_secrets : list Discovery.SecretInfo) (w : World),
    fst (Discovery.analyse js_urls all_secrets w)
    = all_secrets ++
      flat_map (fun ua => records_of_answer (fst ua) (snd ua))
               (combine js_urls (finder_answers js_urls w)).
Proof.
  induction js_urls as [|js_url rest IH]; intros acc w;
    cbn [Discovery.analyse finder_answers combine flat_map].
  - now rewrite app_nil_r.
  - destruct (Discovery.find_secrets js_url w) as [[e | [secrets|]] w'];
      cbn [fst snd records_of_answer app]; rewrite IH.
    + reflexivity.
    + rewrite <- app_assoc. reflexivity.
    + reflexivity.
Qed.

Lemma analyse_app (a b : list str) :
  forall (all_secrets : list Discovery.SecretInfo) (w : World),
    Discovery.analyse (a ++ b) all_secrets w =
    Discovery.analyse b (fst (Discovery.analyse a all_secrets w))
                        (snd (Discovery.analyse a all_secrets w)).
Proof.
  induction a as [|u a IH]; intros acc w; [reflexivity|].
  cbn [app Discovery.analyse].
  destruct (Discovery.find_secrets u w) as [[e | [secrets|]] w']; apply IH.
Qed.

End AnalysisProps.

(** X21.  [run_secret_analysis] returns, for the scripts in the order
    given, the records of what SecretFinder answered on each: when the
    answer is a list, one record for each of its secrets, in the order
    of the list, that names the script in [file], holds the secret in
    [secret] and in [context], and has the type [Unknown] and no line;
    and nothing when SecretFinder raised or answered something that is
    not a list, which does not stop the analysis.  Analysing two lists
    one after the other is analysing their concatenation.  If
    SecretFinder cannot be imported the result is empty. *)
Theorem X21_secrets_are_grouped_by_script :
  forall (World : Type) (TL : Discovery.Tools World) (js_urls : list str) (w : World),
    let found := fst (Discovery.run_secret_analysis js_urls w) in
    (Discovery.import_find_secrets w = None ->
     found = flat_map (fun ua => records_of_answer (fst ua) (snd ua))
                      (combine js_urls (finder_answers js_urls w))) /\
    (forall e, Discovery.import_find_secrets w = Some e -> found = []) /\
    (forall a b acc,
        Discovery.analyse (a ++ b) acc w =
        Discovery.analyse b (fst (Discovery.analyse a acc w))
                            (snd (Discovery.analyse a acc w))) /\
    (forall js_url rest acc answer w',
        Discovery.find_secrets js_url w = (answer, w') ->
        (exists e, answer = inl e) \/ answer = inr None ->
        Discovery.analyse (js_url :: rest) acc w = Discovery.analyse rest acc w').
Proof.
  intros World TL js_urls w found. splits.
  - intros Himp. unfold found, Discovery.run_secret_analysis. rewrite Himp.
    now rewrite analyse_answers.
  - intros e He. unfold found, Discovery.run_secret_analysis. now rewrite He.
  - intros a b acc. apply analyse_app.
  - intros js_url rest acc answer w' He [(e & ->) | ->];
      cbn [Discovery.analyse]; now rewrite He.
Qed.

Lemma X21_witness :
  let urls := [py "https://x.com/a.JS"; py "https://x.com/empty.js";
               py "https://x.com/b.js"] in
  @finder_answers unit DiscoveryDemo.tools urls tt
  = [inl (Raised (py "connection refused")); inr None;
     inr (Some [DiscoveryDemo.google_key; py "ghp_0123456789abcdefghij0123"])] /\
  fst (@Discovery.run_secret_analysis unit DiscoveryDemo.tools urls tt)
  = [Discovery.mkSecret (py "https://x.com/b.js") DiscoveryDemo.google_key
                        (py "Unknown") None DiscoveryDemo.google_key;
     Discovery.mkSecret (py "https://x.com/b.js") (py "ghp_0123456789abcdefghij0123")
                        (py "Unknown") None (py "ghp_0123456789abcdefghij0123")].
Proof.
  intros urls. split; [vm_compute; reflexivity|].
  rewrite (proj1 (@X21_secrets_are_grouped_by_script unit DiscoveryDemo.tools urls tt)
             eq_refl).
  vm_compute. reflexivity.
Defined.

(* ================================================================== *)
(** * The dump of the discovery, read by the classifier *)
(* ================================================================== *)

Lemma lines_go_line (brk : ascii -> bool) (a rest : str) :
  brk LF = true -> free_of brk a ->
  forall cur : str,
    Str.lines_go brk cur (a ++ LF :: rest) = (rev cur ++ a) :: Str.lines_go brk [] rest.
Proof.
  intros Hlf Ha. induction Ha as [|x a Hx _ IH]; intros cur.
  - cbn [app Str.lines_go]. rewrite Hlf, app_nil_r.
    destruct rest as [|d rest']; [reflexivity|].
    assert (E : Ascii.eqb LF CR = false) by reflexivity.
    rewrite E. reflexivity.
  - cbn [app Str.lines_go]. rewrite Hx, IH. cbn [rev]. now rewrite <- app_assoc.
Qed.

(** A text made of lines that each end with a line feed reads back as
    these lines. *)
Lemma file_lines_of_lines (lines : list str) :
  Forall (free_of is_newline) lines ->
  Str.file_lines (flat_map (fun l => l ++ [LF]) lines) = lines.
Proof.
  unfold Str.file_lines. change (fun c => Ascii.eqb c LF || Ascii.eqb c CR) with is_newline.
  induction 1 as [|l lines Hl _ IH]; [reflexivity|].
  cbn [flat_map]. rewrite <- app_assoc. cbn [app].
  rewrite (@lines_go_line is_newline l (flat_map (fun l0 => l0 ++ [LF]) lines) eq_refl Hl).
  cbn [rev app]. now rewrite IH.
Qed.

Lemma dump_text_lines (secrets : list Discovery.SecretInfo) (generated : str) :
  Discovery.secret_dump_text secrets generated
  = flat_map (fun l => l ++ [LF]) (dump_lines secrets generated).
Proof.
  unfold Discovery.secret_dump_text, dump_lines. rewrite flat_map_app.
  cbn [flat_map app]. rewrite <- !app_assoc. cbn [app].
  do 5 (f_equal; try (rewrite <- ?app_assoc; cbn [app])).
  repeat (rewrite <- ?app_assoc; cbn [app]; f_equal).
  induction secrets as [|s secrets IH]; [reflexivity|].
  cbn [flat_map app]. rewrite <- !app_assoc. cbn [app].
  repeat (rewrite <- ?app_assoc; cbn [app]; f_equal). exact IH.
Qed.

Lemma uint_digits (d : Decimal.uint) :
  made_of Str.is_digit (py (DecimalString.NilEmpty.string_of_uint d)).
Proof.
  unfold made_of.
  induction d; cbn [DecimalString.NilEmpty.string_of_uint py list_ascii_of_string];
    try constructor; try reflexivity; assumption.
Qed.

Lemma of_nat_digits (n : nat) : made_of Str.is_digit (Text.of_nat n).
Proof.
  unfold Text.of_nat, DecimalString.NilZero.string_of_uint.
  destruct (Nat.to_uint n) eqn:E; try (rewrite <- E; apply uint_digits).
  constructor; [reflexivity | constructor].
Qed.

Lemma made_of_not_in (p : ascii -> bool) (s : str) (c : ascii) :
  made_of p s -> p c = false -> ~ In c s.
Proof.
  unfold made_of. rewrite Forall_forall. intros H Hc Hin.
  specialize (H c Hin). congruence.
Qed.

Lemma made_of_free (p q : ascii -> bool) (s : str) :
  (forall c, p c = true -> q c = false) -> made_of p s -> free_of q s.
Proof. intros H. unfold made_of, free_of. apply Forall_impl. exact H. Qed.

Lemma digit_not_newline (c : ascii) : Str.is_digit c = true -> is_newline c = false.
Proof.
  intros H. unfold is_newline.
  destruct (Ascii.eqb_spec c LF) as [-> | _]; [discriminate H|].
  destruct (Ascii.eqb_spec c CR) as [-> | _]; [discriminate H|]. reflexivity.
Qed.

Lemma free_of_app (p : ascii -> bool) (a b : str) :
  free_of p a -> free_of p b -> free_of p (a ++ b).
Proof. unfold free_of. intros Ha Hb. apply Forall_app. now split. Qed.

Lemma free_of_repeat (p : ascii -> bool) (c : ascii) (n : nat) :
  p c = false -> free_of p (repeat c n).
Proof.
  intros H. unfold free_of. apply Forall_forall. intros x Hx.
  apply repeat_spec in Hx. now subst.
Qed.

Lemma free_of_not_in (p : ascii -> bool) (s : str) (c : ascii) :
  free_of p s -> p c = true -> ~ In c s.
Proof.
  unfold free_of. rewrite Forall_forall. intros H Hc Hin.
  specialize (H c Hin). congruence.
Qed.

(** A text without [>] holds no separator, stripped or not. *)
Lemma no_arrow_without_gt (s : str) :
  ~ In ">"%char s -> Str.contains ParserSpec.arrow (Str.strip s) = false.
Proof.
  intros H. apply contains_false_iff. intros Hsub. apply H.
  apply strip_In. apply (@substring_In _ _ _ Hsub). cbn. tauto.
Qed.

(** Stripping keeps a head that starts and ends with characters that
    are not white space. *)
Lemma strip_prefix_keep (a b : str) :
  match a with [] => False | c :: _ => Str.is_space c = false end ->
  match rev a with [] => False | c :: _ => Str.is_space c = false end ->
  Str.strip (a ++ b) = a ++ Str.rstrip b.
Proof.
  intros Hh Hl. unfold Str.strip. rewrite lstrip_fixed.
  - now apply rstrip_app_keep.
  - destruct a as [|c a]; [destruct Hh | exact Hh].
Qed.

Lemma not_url_line (c : ascii) (r : str) :
  c <> "["%char -> Parser.is_url_line (c :: r) = false.
Proof.
  intros H. unfold Parser.is_url_line. cbn [py list_ascii_of_string Str.startswith].
  destruct (Ascii.eqb_spec "[" c) as [E | _]; [congruence | reflexivity].
Qed.

(** The text before the first separator starts with a prefix of the
    line that holds no hyphen. *)
Lemma prefix_before (pre x a rest : str) :
  ~ In "-"%char pre ->
  pre ++ x = a ++ "-"%char :: rest ->
  exists a', a = pre ++ a'.
Proof.
  revert a. induction pre as [|p pre IH]; intros a Hno Heq; [now exists a|].
  destruct a as [|q a].
  - cbn in Heq. injection Heq as -> _. exfalso. apply Hno. now left.
  - cbn in Heq. injection Heq as -> Heq.
    destruct (IH a) as (a' & ->); [intros H; apply Hno; now right | exact Heq|].
    now exists a'.
Qed.

Lemma prefix_key (pre x : str) :
  ~ In "-"%char pre ->
  match pre with [] => False | c :: _ => Str.is_space c = false end ->
  match rev pre with [] => False | c :: _ => Str.is_space c = false end ->
  Str.contains ParserSpec.arrow (pre ++ x) = true ->
  Str.startswith pre (fst (Parser.split_arrow (pre ++ x))) = true.
Proof.
  intros Hno Hh Hl Hc.
  destruct (split_arrow_spec _ Hc) as (a & b & [Hline _] & ->). cbn [fst].
  destruct (@prefix_before pre x a (">"%char :: b) Hno Hline) as (a' & ->).
  rewrite (strip_prefix_keep _ a' Hh Hl). apply startswith_iff. now exists (Str.rstrip a').
Qed.

Section DumpProps.

Variable urlparse_path : str -> option str.

(** The rows of lines among which there is no URL line. *)
Lemma rows_without_url (K : str -> Prop) (raws : list str) (u : str) :
  Forall (fun raw =>
            Parser.is_url_line (Str.strip raw) = false /\
            (Str.contains ParserSpec.arrow (Str.strip raw) = true ->
             K (fst (Parser.split_arrow (Str.strip raw))))) raws ->
  Forall (fun row => K (fst row) /\ url (snd row) = u)
         (ParserSpec.rows urlparse_path u raws).
Proof.
  induction 1 as [|raw raws [Hu Hk] _ IH]; [constructor|].
  cbn [ParserSpec.rows]. rewrite Hu.
  destruct (Str.contains ParserSpec.arrow (Str.strip raw)); [|exact IH].
  constructor; [|exact IH]. cbn [fst snd url]. split; [now apply Hk | reflexivity].
Qed.

Lemma rows_without_arrow (raws : list str) (u : str) :
  Forall (fun raw =>
            Parser.is_url_line (Str.strip raw) = false /\
            Str.contains ParserSpec.arrow (Str.strip raw) = false) raws ->
  ParserSpec.rows urlparse_path u raws = [].
Proof.
  induction 1 as [|raw raws [Hu Hk] _ IH]; [reflexivity|].
  cbn [ParserSpec.rows]. now rewrite Hu, Hk.
Qed.

End DumpProps.

Lemma strip_substring (w s : str) : Substring w (Str.strip s) -> Substring w s.
Proof.
  intros H. destruct (strip_inside s) as (l & r & Hs & _). rewrite Hs.
  now apply substring_app_l, substring_app_r.
Qed.

(** A line of the dump that starts with a word, a colon and a space. *)
Lemma labelled_line (pre body : str) :
  ~ In "-"%char pre ->
  Str.contains ParserSpec.arrow pre = false ->
  match pre with [] => False | c :: _ => Str.is_space c = false /\ c <> "["%char end ->
  match rev pre with [] => False | c :: _ => Str.is_space c = false end ->
  let line := pre ++ " "%char :: body in
  Parser.is_url_line (Str.strip line) = false /\
  (Str.contains ParserSpec.arrow (Str.strip line) = true ->
   Str.startswith pre (fst (Parser.split_arrow (Str.strip line))) = true) /\
  (~ Substring ParserSpec.arrow body ->
   Str.contains ParserSpec.arrow (Str.strip line) = false).
Proof.
  intros Hno Hpre Hh Hl line.
  assert (Hh' : match pre with [] => False | c :: _ => Str.is_space c = false end).
  { destruct pre as [|c pre]; [exact Hh | exact (proj1 Hh)]. }
  splits.
  - unfold line. rewrite (strip_prefix_keep _ (" "%char :: body) Hh' Hl).
    destruct pre as [|c pre]; [destruct Hh|]. cbn [app]. apply not_url_line, Hh.
  - unfold line. rewrite (strip_prefix_keep _ (" "%char :: body) Hh' Hl).
    intros Hc. now apply prefix_key.
  - intros Hbody. apply contains_false_iff. intros Hsub.
    apply strip_substring in Hsub. unfold line in Hsub.
    apply substring_across in Hsub; [|cbn; intuition discriminate].
    destruct Hsub as [H | [[_ H] | H]].
    + apply contains_iff in H. congruence.
    + now apply Hbody.
    + discriminate H.
Qed.

Lemma file_line (f : str) :
  let line := py "File: " ++ f in
  Parser.is_url_line (Str.strip line) = false /\
  (Str.contains ParserSpec.arrow (Str.strip line) = true ->
   dump_key (fst (Parser.split_arrow (Str.strip line)))) /\
  (~ Substring ParserSpec.arrow f ->
   Str.contains ParserSpec.arrow (Str.strip line) = false).
Proof.
  destruct (@labelled_line (py "File:") f) as (H1 & H2 & H3);
    try (cbn; intuition discriminate); try reflexivity.
  change (py "File:" ++ " "%char :: f) with (py "File: " ++ f) in *.
  cbv zeta. splits; auto. intros Hc. left. now apply H2.
Qed.

Lemma secret_line (s : str) :
  let line := py "Secret: " ++ s in
  Parser.is_url_line (Str.strip line) = false /\
  (Str.contains ParserSpec.arrow (Str.strip line) = true ->
   dump_key (fst (Parser.split_arrow (Str.strip line)))) /\
  (~ Substring ParserSpec.arrow s ->
   Str.contains ParserSpec.arrow (Str.strip line) = false).
Proof.
  destruct (@labelled_line (py "Secret:") s) as (H1 & H2 & H3);
    try (cbn; intuition discriminate); try reflexivity.
  change (py "Secret:" ++ " "%char :: s) with (py "Secret: " ++ s) in *.
  cbv zeta. splits; auto. intros Hc. right. now apply H2.
Qed.

(** A line of the dump that holds no [>] and does not start with a
    bracket. *)
Lemma plain_line (line : str) :
  ~ In ">"%char line ->
  match line with [] => True | c :: _ => Str.is_space c = false /\ c <> "["%char end ->
  Parser.is_url_line (Str.strip line) = false /\
  Str.contains ParserSpec.arrow (Str.strip line) = false.
Proof.
  intros Hgt Hh. split; [|now apply no_arrow_without_gt].
  destruct line as [|c r]; [reflexivity|]. destruct Hh as [Hs Hb].
  assert (E : Str.strip (c :: r) = [c] ++ Str.rstrip r).
  { apply (strip_prefix_keep [c] r); exact Hs. }
  rewrite E. cbn [app]. now apply not_url_line.
Qed.

Lemma in_app_literal (c : ascii) (lit s : str) :
  ~ In c lit -> ~ In c s -> ~ In c (lit ++ s).
Proof. intros H1 H2 H. apply in_app_or in H as [H | H]; auto. Qed.

Lemma digit_not_gt (n : nat) : ~ In ">"%char (Text.of_nat n).
Proof. apply (@made_of_not_in _ _ _ (of_nat_digits n)). reflexivity. Qed.

(** The six lines at the head of a dump hold no record. *)
Lemma header_lines (secrets : list Discovery.SecretInfo) (generated : str) :
  ~ In ">"%char generated ->
  Forall (fun raw =>
            Parser.is_url_line (Str.strip raw) = false /\
            Str.contains ParserSpec.arrow (Str.strip raw) = false)
         (firstn 6 (dump_lines secrets generated)).
Proof.
  intros Hg. unfold dump_lines. cbn [firstn app].
  repeat constructor; try reflexivity.
  - apply plain_line; [|cbn; intuition discriminate].
    apply in_app_literal; [cbn; intuition discriminate | exact Hg].
  - apply no_arrow_without_gt.
    apply in_app_literal; [cbn; intuition discriminate | exact Hg].
  - apply plain_line; [|cbn; intuition discriminate].
    apply in_app_literal; [cbn; intuition discriminate | apply digit_not_gt].
  - apply no_arrow_without_gt.
    apply in_app_literal; [cbn; intuition discriminate | apply digit_not_gt].
  - apply plain_line; [|cbn; intuition discriminate].
    apply in_app_literal; [cbn; intuition discriminate | apply digit_not_gt].
  - apply no_arrow_without_gt.
    apply in_app_literal; [cbn; intuition discriminate | apply digit_not_gt].
Qed.

Lemma dump_lines_free (secrets : list Discovery.SecretInfo) (generated : str) :
  free_of is_newline generated ->
  Forall (fun s => free_of is_newline (Discovery.file s) /\
                   free_of is_newline (Discovery.secret s)) secrets ->
  Forall (free_of is_newline) (dump_lines secrets generated).
Proof.
  intros Hg Hs. unfold dump_lines. apply Forall_app. split.
  - repeat constructor; try (apply free_of_app; [vm_compute; repeat constructor|]);
      try exact Hg;
      try (apply (@made_of_free _ _ _ digit_not_newline), of_nat_digits);
      try (apply free_of_repeat; reflexivity);
      try (vm_compute; repeat constructor).
  - induction Hs as [|s secrets [Hf Hsec] _ IH]; [constructor|].
    cbn [flat_map app].
    constructor; [apply free_of_app; [vm_compute; repeat constructor | exact Hf]|].
    constructor; [apply free_of_app; [vm_compute; repeat constructor | exact Hsec]|].
    constructor; [apply free_of_repeat; reflexivity | exact IH].
Qed.

Lemma dashes_line :
  Parser.is_url_line (Str.strip (repeat "-"%char 40)) = false /\
  Str.contains ParserSpec.arrow (Str.strip (repeat "-"%char 40)) = false.
Proof. split; vm_compute; reflexivity. Qed.

(** The lines of a dump, one by one: none is a URL line, and one that
    holds the separator gives a secret type that starts with [File:] or
    [Secret:]. *)
Lemma dump_lines_keys (secrets : list Discovery.SecretInfo) (generated : str) :
  ~ In ">"%char generated ->
  Forall (fun raw =>
            Parser.is_url_line (Str.strip raw) = false /\
            (Str.contains ParserSpec.arrow (Str.strip raw) = true ->
             dump_key (fst (Parser.split_arrow (Str.strip raw)))))
         (dump_lines secrets generated).
Proof.
  intros Hg.
  assert (Hhead : Forall (fun raw =>
            Parser.is_url_line (Str.strip raw) = false /\
            (Str.contains ParserSpec.arrow (Str.strip raw) = true ->
             dump_key (fst (Parser.split_arrow (Str.strip raw)))))
         (firstn 6 (dump_lines secrets generated))).
  { eapply Forall_impl; [|exact (@header_lines secrets generated Hg)]. cbv beta.
    intros raw [H1 H2]. split; [exact H1 | congruence]. }
  unfold dump_lines in *. rewrite firstn_app in Hhead.
  cbn [firstn length Nat.sub] in Hhead. rewrite app_nil_r in Hhead.
  apply Forall_app. split; [exact Hhead|]. clear Hhead.
  induction secrets as [|s secrets IH]; [constructor|].
  cbn [flat_map app].
  destruct (file_line (Discovery.file s)) as (F1 & F2 & _).
  destruct (secret_line (Discovery.secret s)) as (S1 & S2 & _).
  destruct dashes_line as [D1 D2].
  constructor; [now split|]. constructor; [now split|].
  constructor; [split; [exact D1 | congruence]|]. exact IH.
Qed.

Lemma dump_lines_without_arrow (secrets : list Discovery.SecretInfo) (generated : str) :
  ~ In ">"%char generated ->
  Forall (fun s => ~ Substring ParserSpec.arrow (Discovery.file s) /\
                   ~ Substring ParserSpec.arrow (Discovery.secret s)) secrets ->
  Forall (fun raw =>
            Parser.is_url_line (Str.strip raw) = false /\
            Str.contains ParserSpec.arrow (Str.strip raw) = false)
         (dump_lines secrets generated).
Proof.
  intros Hg Hs.
  pose proof (@header_lines secrets generated Hg) as Hhead.
  unfold dump_lines in *. rewrite firstn_app in Hhead.
  cbn [firstn length Nat.sub] in Hhead. rewrite app_nil_r in Hhead.
  apply Forall_app. split; [exact Hhead|]. clear Hhead.
  induction Hs as [|s secrets [Hf Hsec] _ IH]; [constructor|].
  cbn [flat_map app].
  destruct (file_line (Discovery.file s)) as (F1 & _ & F3).
  destruct (secret_line (Discovery.secret s)) as (S1 & _ & S3).
  constructor; [split; [exact F1 | now apply F3]|].
  constructor; [split; [exact S1 | now apply S3]|].
  constructor; [exact dashes_line|]. exact IH.
Qed.

(** X22.  The dump that [create_secret_dump] writes is not in the format
    that [parse_secret_file] reads.  For secrets whose file names and
    texts hold no line break (and a time stamp without [>]): every secret
    type that the parser reads from the dump starts with [File:] or
    [Secret:], the label that the dump puts before each value, and every
    record has the URL [Unknown], since the dump has no [[ + ] URL:]
    line; and when no file name and no secret holds the separator [->],
    the parser finds no record at all. *)
Theorem X22_dump_is_read_with_labels :
  forall (urlparse_path : str -> option str)
         (secrets : list Discovery.SecretInfo) (generated : str),
    ~ In ">"%char generated ->
    free_of is_newline generated ->
    Forall (fun s => free_of is_newline (Discovery.file s) /\
                     free_of is_newline (Discovery.secret s)) secrets ->
    let buckets :=
      Parser.parse_secret_file urlparse_path
        (Discovery.secret_dump_text secrets generated) in
    Str.file_lines (Discovery.secret_dump_text secrets generated)
      = dump_lines secrets generated /\
    (forall k v,
        In (k, v) buckets ->
        dump_key k /\ v <> [] /\ Forall (fun r => url r = Parser.Unknown) v) /\
    (Forall (fun s => ~ Substring ParserSpec.arrow (Discovery.file s) /\
                      ~ Substring ParserSpec.arrow (Discovery.secret s)) secrets ->
     buckets = []).
Proof.
  intros urlparse_path secrets generated Hgt Hg Hs buckets.
  assert (Hlines : Str.file_lines (Discovery.secret_dump_text secrets generated)
                   = dump_lines secrets generated).
  { rewrite dump_text_lines. apply file_lines_of_lines. now apply dump_lines_free. }
  splits.
  - exact Hlines.
  - intros k v Hin. unfold buckets, Parser.parse_secret_file in Hin.
    rewrite parse_lines_rows, Hlines in Hin.
    pose proof (@rows_without_url urlparse_path dump_key _ Parser.Unknown
                  (@dump_lines_keys secrets generated Hgt)) as Hrows.
    destruct (@append_rows_in
                (fun row => dump_key (fst row) /\ url (snd row) = Parser.Unknown)
                _ Hrows [] ltac:(intros ? ? []) k v Hin) as [Hne Hall].
    splits.
    + destruct v as [|r v]; [congruence|]. now destruct (Hall r (or_introl eq_refl)).
    + exact Hne.
    + apply Forall_forall. intros r Hr. now destruct (Hall r Hr).
  - intros Hno. unfold buckets, Parser.parse_secret_file.
    rewrite parse_lines_rows, Hlines.
    now rewrite (@rows_without_arrow urlparse_path _ Parser.Unknown
                   (@dump_lines_without_arrow secrets generated Hgt Hno)).
Qed.

Lemma X22_witness :
  map fst (Parser.parse_secret_file Parser.simple_url_path
             (Discovery.secret_dump_text DiscoveryDemo.analysis DiscoveryDemo.generated))
    = [py "Secret: google_api"] /\
  forall k v,
    In (k, v) (Parser.parse_secret_file Parser.simple_url_path
                 (Discovery.secret_dump_text DiscoveryDemo.analysis
                    DiscoveryDemo.generated)) ->
    dump_key k /\ v <> [] /\ Forall (fun r => url r = Parser.Unknown) v.
Proof.
  split; [vm_compute; reflexivity|].
  apply (@X22_dump_is_read_with_labels Parser.simple_url_path DiscoveryDemo.analysis
           DiscoveryDemo.generated).
  - vm_compute. intuition discriminate.
  - vm_compute. repeat constructor.
  - vm_compute. repeat constructor.
Defined.

(* ================================================================== *)
(** * Soundness of the matcher, and the candidate tokens *)
(* ================================================================== *)

Import RegexSpec.

Lemma rep_min_sound (p : ascii -> bool) (lo : nat) :
  forall (prev : option ascii) (s : str) (pv : option ascii) (s' : str),
    Re.rep_min p lo prev s = Some (pv, s') ->
    exists w, s = w ++ s' /\ length w = lo /\ made_of p w.
Proof.
  induction lo as [|n IH]; intros prev s pv s' H; cbn [Re.rep_min] in H.
  - inversion H; subst. exists []. splits; [reflexivity | reflexivity | constructor].
  - destruct s as [|c s]; [discriminate|]. destruct (p c) eqn:Hp; [|discriminate].
    destruct (IH _ _ _ _ H) as (w & -> & Hlen & Hw).
    exists (c :: w). splits; [reflexivity | cbn; now rewrite Hlen | now constructor].
Qed.

Lemma star_lazy_sound (R : Type) (p : ascii -> bool) (s : str) :
  forall (prev : option ascii) (k : option ascii -> str -> option R) (res : R),
    Re.star_lazy p prev s k = Some res ->
    exists w t pv, s = w ++ t /\ made_of p w /\ k pv t = Some res.
Proof.
  induction s as [|c s IH]; intros prev k res H; cbn [Re.star_lazy] in H.
  - destruct (k prev []) as [r|] eqn:E; [|discriminate].
    inversion H; subst. exists [], [], prev. splits; [reflexivity | constructor | exact E].
  - destruct (k prev (c :: s)) as [r|] eqn:E.
    + inversion H; subst. exists [], (c :: s), prev.
      splits; [reflexivity | constructor | exact E].
    + destruct (p c) eqn:Hp; [|discriminate].
      destruct (IH _ _ _ H) as (w & t & pv & -> & Hw & Hk).
      exists (c :: w), t, pv. splits; [reflexivity | now constructor | exact Hk].
Qed.

Lemma made_of_weaken (p q : ascii -> bool) (w : str) :
  (forall c, p c = true -> q c = true) -> made_of p w -> made_of q w.
Proof. intros H. unfold made_of. apply Forall_impl. exact H. Qed.

(** Whatever a pattern without backreference matches is at least as
    long as the pattern requires and is made of characters that the
    pattern allows. *)
Lemma rmatch_sound (r : Re.regex) :
  no_ref r = true ->
  forall (prev : option ascii) (s : str) (g : Re.groups)
         (k : option ascii -> str -> Re.groups -> option (str * Re.groups))
         (res : str * Re.groups),
    Re.rmatch r prev s g k = Some res ->
    exists w t pv g',
      s = w ++ t /\ min_length r <= length w /\ made_of (in_class r) w /\
      k pv t g' = Some res.
Proof.
  induction r as [p | greedy lo p | r1 IH1 r2 IH2 | n r1 IH1 | n | m | m];
    intros Hno prev s g k res H; cbn [Re.rmatch] in H.
  - destruct s as [|c s]; [discriminate|]. destruct (p c) eqn:Hp; [|discriminate].
    exists [c], s, (Some c), g. splits; auto.
    constructor; [exact Hp | constructor].
  - destruct (Re.rep_min p lo prev s) as [[pv s']|] eqn:E; [|discriminate].
    destruct (rep_min_sound _ _ _ _ E) as (w1 & -> & Hlen & Hw1).
    assert (Hstar : exists w2 t pv2, s' = w2 ++ t /\ made_of p w2 /\
                                     k pv2 t g = Some res).
    { destruct greedy.
      - exact (star_greedy_sound _ _ _ _ H).
      - exact (star_lazy_sound _ _ _ _ H). }
    destruct Hstar as (w2 & t & pv2 & -> & Hw2 & Hk).
    exists (w1 ++ w2), t, pv2, g. splits.
    + now rewrite app_assoc.
    + rewrite length_app. cbn [min_length]. lia.
    + unfold made_of in *. apply Forall_app. now split.
    + exact Hk.
  - cbn [no_ref] in Hno. apply andb_true_iff in Hno as [Hno1 Hno2].
    destruct (IH1 Hno1 _ _ _ _ _ H) as (w1 & t1 & pv1 & g1 & -> & Hl1 & Hw1 & Hk1).
    destruct (IH2 Hno2 _ _ _ _ _ Hk1) as (w2 & t & pv & g' & -> & Hl2 & Hw2 & Hk).
    exists (w1 ++ w2), t, pv, g'. splits.
    + now rewrite app_assoc.
    + rewrite length_app. cbn [min_length]. lia.
    + unfold made_of in *. apply Forall_app. split.
      * eapply Forall_impl; [|exact Hw1]. intros c Hc. cbn [in_class]. now rewrite Hc.
      * eapply Forall_impl; [|exact Hw2]. intros c Hc. cbn [in_class].
        rewrite Hc. apply orb_true_r.
    + exact Hk.
  - cbn [no_ref] in Hno.
    destruct (IH1 Hno _ _ _ _ _ H) as (w & t & pv & g' & -> & Hl & Hw & Hk).
    exists w, t, pv, ((n, firstn (length (w ++ t) - length t) (w ++ t)) :: g').
    splits; auto.
  - discriminate.
  - exists [], s, prev, g. splits; [reflexivity | cbn; lia | constructor|].
    destruct prev as [c|]; [|exact H].
    destruct (m && Ascii.eqb c LF); [exact H | discriminate].
  - exists [], s, prev, g. splits; [reflexivity | cbn; lia | constructor|].
    destruct s as [|c s']; [exact H|].
    destruct (Ascii.eqb c LF && (m || match s' with [] => true | _ :: _ => false end));
      [exact H | discriminate].
Qed.

Lemma firstn_matched (w t : str) : firstn (length (w ++ t) - length t) (w ++ t) = w.
Proof.
  rewrite length_app, Nat.add_sub, firstn_app, Nat.sub_diag, firstn_all.
  cbn [firstn]. now rewrite app_nil_r.
Qed.

(** The text of a match at the head of a subject. *)
Lemma match_text (r : Re.regex) (prev : option ascii) (s t : str) (g : Re.groups) :
  no_ref r = true ->
  Re.rmatch r prev s [] Re.stop = Some (t, g) ->
  exists w,
    s = w ++ t /\ firstn (length s - length t) s = w /\
    min_length r <= length w /\ made_of (in_class r) w.
Proof.
  intros Hno H.
  destruct (rmatch_sound r Hno _ _ _ _ H) as (w & t' & pv & g' & -> & Hl & Hw & Hk).
  unfold Re.stop in Hk. inversion Hk; subst.
  exists w. splits; auto. apply firstn_matched.
Qed.

Lemma search_sound (r : Re.regex) (s w : str) (g : Re.groups) :
  no_ref r = true ->
  Regex.search r s = Some (w, g) ->
  Substring w s /\ min_length r <= length w /\ made_of (in_class r) w.
Proof.
  intros Hno. unfold Regex.search. generalize (@None ascii) as prev.
  induction s as [|c s IH]; intros prev H; cbn [Regex.search_go] in H.
  - destruct (Re.rmatch r prev [] [] Re.stop) as [[t g']|] eqn:E; [|discriminate].
    destruct (match_text r _ _ Hno E) as (w0 & Hs & Hf & Hl & Hw).
    assert (Hw' : w0 = w) by (rewrite <- Hf; congruence). clear Hf. subst w0. splits; auto.
    exists [], t. now rewrite <- Hs.
  - destruct (Re.rmatch r prev (c :: s) [] Re.stop) as [[t g']|] eqn:E.
    + destruct (match_text r _ _ Hno E) as (w0 & Hs & Hf & Hl & Hw).
      assert (Hw' : w0 = w) by (rewrite <- Hf; congruence). clear Hf. subst w0. splits; auto.
      exists [], t. now rewrite <- Hs.
    + destruct (IH _ H) as (Hsub & Hl & Hw). splits; auto.
      now apply substring_cons.
Qed.

(** The matches that the scan reports lie in the subject. *)
Lemma pieces_inside (r : Re.regex) (s : str) :
  no_ref r = true ->
  forall (skip : nat) (prev : option ascii) (w : str) (g : Re.groups),
    In (inr (w, g)) (Re.pieces r skip prev s) ->
    Substring w s /\ min_length r <= length w /\ made_of (in_class r) w.
Proof.
  intros Hno. induction s as [|c s IH]; intros skip prev w g Hin; [destruct Hin|].
  cbn [Re.pieces] in Hin.
  assert (Hrec : forall sk pv, In (inr (w, g)) (Re.pieces r sk pv s) ->
                               Substring w (c :: s) /\ min_length r <= length w /\
                               made_of (in_class r) w).
  { intros sk pv H. destruct (IH _ _ _ _ H) as (Hsub & Hl & Hw). splits; auto.
    now apply substring_cons. }
  destruct skip as [|k]; [|exact (Hrec _ _ Hin)].
  destruct (Re.rmatch r prev (c :: s) [] Re.stop) as [[t g']|] eqn:E.
  - destruct (length (c :: s) - length t) as [|k] eqn:El.
    + destruct Hin as [Hin | Hin]; [discriminate | exact (Hrec _ _ Hin)].
    + destruct Hin as [Hin | Hin]; [|exact (Hrec _ _ Hin)].
      destruct (match_text r _ _ Hno E) as (w0 & Hs & Hf & Hl & Hw).
      rewrite El in Hf. assert (Hw' : w0 = w) by (rewrite <- Hf; congruence). clear Hf. subst w0.
      splits; auto. exists [], t. now rewrite <- Hs.
  - destruct Hin as [Hin | Hin]; [discriminate | exact (Hrec _ _ Hin)].
Qed.

Lemma findall_inside (r : Re.regex) (s w : str) (g : Re.groups) :
  no_ref r = true ->
  In (w, g) (Re.findall r s) ->
  Substring w s /\ min_length r <= length w /\ made_of (in_class r) w.
Proof.
  intros Hno Hin. unfold Re.findall in Hin.
  apply in_flat_map in Hin as (x & Hx & Hin).
  destruct x as [c | m]; [destruct Hin|]. destruct Hin as [-> | []].
  exact (pieces_inside r s Hno _ _ _ _ Hx).
Qed.

Lemma alnum_token_char (c : ascii) :
  Str.is_ascii_alnum c = true -> Candidate.is_token_char c = true.
Proof. unfold Candidate.is_token_char. now intros ->. Qed.

Lemma alnum_dash_token_char (c : ascii) :
  Candidate.is_alnum_dash c = true -> Candidate.is_token_char c = true.
Proof. unfold Candidate.is_token_char, Candidate.is_alnum_dash. now intros ->. Qed.

Lemma upper_digit_token_char (c : ascii) :
  Candidate.is_upper_digit c = true -> Candidate.is_token_char c = true.
Proof.
  unfold Candidate.is_token_char, Candidate.is_upper_digit, Str.is_ascii_alnum.
  intros H. apply orb_true_iff in H as [-> | ->]; now rewrite ?orb_true_r.
Qed.

Ltac token_class :=
  let c := fresh "c" in
  let H := fresh "H" in
  intros c H;
  cbn [in_class Re.lit Re.chr_eq py list_ascii_of_string Regex.times Regex.empty] in H;
  repeat match type of H with
         | (_ || _ = true) => apply orb_true_iff in H; destruct H as [H | H]
         end;
  first [ discriminate H
        | apply Ascii.eqb_eq in H; subst c; reflexivity
        | exact (alnum_token_char _ H)
        | exact (alnum_dash_token_char _ H)
        | exact (upper_digit_token_char _ H)
        | exact H
        | unfold Candidate.is_baprs in H; cbn [existsb py list_ascii_of_string] in H;
          repeat match type of H with
                 | (_ || _ = true) => apply orb_true_iff in H; destruct H as [H | H]
                 end;
          first [discriminate H | apply Ascii.eqb_eq in H; subst c; reflexivity] ].

(** Every pattern of [token_patterns] matches runs of at least twenty
    token characters only. *)
Lemma token_patterns_runs :
  Forall (fun r => no_ref r = true /\ 20 <= min_length r /\
                   forall c, in_class r c = true -> Candidate.is_token_char c = true)
         Candidate.token_patterns.
Proof.
  unfold Candidate.token_patterns.
  repeat (constructor; [split; [reflexivity | split; [cbn; lia | token_class]]|]).
  constructor.
Qed.

Lemma chunk_runs :
  no_ref Candidate.chunk = true /\ 20 <= min_length Candidate.chunk /\
  forall c, in_class Candidate.chunk c = true -> Candidate.is_token_char c = true.
Proof. split; [reflexivity|]. split; [cbn; lia | intros c H; exact H]. Qed.

Lemma first_match_sound (patterns : list Re.regex) (ev m : str) :
  Forall (fun r => no_ref r = true /\ 20 <= min_length r /\
                   forall c, in_class r c = true -> Candidate.is_token_char c = true)
         patterns ->
  Candidate.first_match patterns ev = Some m ->
  token_run m /\ Substring m ev.
Proof.
  induction 1 as [|r rs (Hno & Hmin & Hcls) _ IH]; intros H; cbn in H; [discriminate|].
  destruct (Regex.search r ev) as [[w g]|] eqn:E; [|now apply IH].
  cbn in H. inversion H; subst.
  destruct (search_sound r ev Hno E) as (Hsub & Hl & Hw).
  split; [split; [lia | exact (@made_of_weaken _ _ _ Hcls Hw)] | exact Hsub].
Qed.

Lemma first_pass_sound (evs : list str) (m : str) :
  Candidate.first_pass evs = Some m ->
  token_run m /\ exists ev, In ev evs /\ Substring m ev.
Proof.
  induction evs as [|ev evs IH]; intros H; cbn [Candidate.first_pass] in H;
    [discriminate|].
  destruct (Candidate.first_match Candidate.token_patterns ev) as [m'|] eqn:E.
  - inversion H; subst.
    destruct (first_match_sound _ token_patterns_runs E) as [Hr Hs].
    split; [exact Hr|]. exists ev. split; [now left | exact Hs].
  - destruct (IH H) as (Hr & ev' & Hin & Hs). split; [exact Hr|].
    exists ev'. split; [now right | exact Hs].
Qed.

Lemma longer_fold (ms : list str) :
  forall best : option str,
    (best <> None \/ ms <> [] -> fold_left Candidate.longer ms best <> None) /\
    (forall b, fold_left Candidate.longer ms best = Some b -> best = Some b \/ In b ms).
Proof.
  induction ms as [|m ms IH]; intros best.
  - cbn. split; [intros [H | H]; congruence | intros b H; now left].
  - cbn [fold_left]. destruct (IH (Candidate.longer best m)) as [IH1 IH2]. split.
    + intros _. apply IH1. left. unfold Candidate.longer.
      destruct best as [b|]; [|discriminate].
      destruct (length b <? length m); discriminate.
    + intros b H. destruct (IH2 b H) as [Hb | Hb]; [|right; now right].
      unfold Candidate.longer in Hb. destruct best as [b0|].
      * destruct (length b0 <? length m); inversion Hb; subst;
          [right; now left | now left].
      * inversion Hb; subst. right. now left.
Qed.

Lemma second_pass_fold (evs : list str) :
  forall best : option str,
    (forall b,
        fold_left (fun best ev =>
                     fold_left Candidate.longer
                               (map fst (Re.findall Candidate.chunk ev)) best)
                  evs best = Some b ->
        best = Some b \/
        exists ev g, In ev evs /\ In (b, g) (Re.findall Candidate.chunk ev)) /\
    (best <> None \/ (exists ev, In ev evs /\ Re.findall Candidate.chunk ev <> []) ->
     fold_left (fun best ev =>
                  fold_left Candidate.longer
                            (map fst (Re.findall Candidate.chunk ev)) best)
               evs best <> None).
Proof.
  induction evs as [|ev evs IH]; intros best.
  - cbn. split; [intros b H; now left|].
    intros [H | (ev & [] & _)]. exact H.
  - cbn [fold_left].
    destruct (IH (fold_left Candidate.longer
                    (map fst (Re.findall Candidate.chunk ev)) best)) as [IH1 IH2].
    destruct (longer_fold (map fst (Re.findall Candidate.chunk ev)) best) as [L1 L2].
    split.
    + intros b H. destruct (IH1 b H) as [Hb | (ev' & g & Hin & Hm)].
      * destruct (L2 b Hb) as [Hbest | Hin]; [now left|].
        apply in_map_iff in Hin as ([w g] & Hw & Hin). cbn in Hw. subst w.
        right. exists ev, g. split; [now left | exact Hin].
      * right. exists ev', g. split; [now right | exact Hm].
    + intros [Hbest | (ev' & [<- | Hin] & Hne)]; apply IH2.
      * left. apply L1. now left.
      * left. apply L1. right.
        destruct (Re.findall Candidate.chunk ev); [congruence | discriminate].
      * right. exists ev'. now split.
Qed.

Lemma rep_min_complete (p : ascii -> bool) (lo : nat) :
  forall (prev : option ascii) (w t : str),
    made_of p w -> lo <= length w ->
    exists pv, Re.rep_min p lo prev (w ++ t) = Some (pv, skipn lo (w ++ t)).
Proof.
  induction lo as [|n IH]; intros prev w t Hw Hlen.
  - exists prev. reflexivity.
  - destruct w as [|c w]; [cbn in Hlen; lia|].
    inversion Hw as [|? ? Hc Hw']; subst.
    cbn [app Re.rep_min skipn]. rewrite Hc. apply IH; [exact Hw' | cbn in Hlen; lia].
Qed.

(** A text that holds a run holds a chunk. *)
Lemma findall_chunk_complete (s w : str) :
  token_run w -> Substring w s -> Re.findall Candidate.chunk s <> [].
Proof.
  intros [Hlen Hw] (l & t & ->). unfold Re.findall.
  generalize (@None ascii) as prev.
  induction l as [|c l IH]; intros prev.
  - cbn [app]. destruct w as [|c w]; [cbn in Hlen; lia|].
    cbn [app Re.pieces]. unfold Candidate.chunk. cbn [Re.rmatch].
    destruct (@rep_min_complete Candidate.is_token_char 20 prev (c :: w) t Hw Hlen)
      as (pv & E).
    cbn [app] in E. rewrite E, star_greedy_stop.
    assert (Hpos : exists k,
               length (c :: w ++ t)
               - length (dropwhile Candidate.is_token_char (skipn 20 (c :: w ++ t)))
               = S k).
    { assert (Hd : length (dropwhile Candidate.is_token_char (skipn 20 (c :: w ++ t)))
                   <= length (skipn 20 (c :: w ++ t))).
      { pose proof (take_drop_length Candidate.is_token_char
                      (skipn 20 (c :: w ++ t))). lia. }
      rewrite length_skipn in Hd.
      assert (Hl : 20 <= length (c :: w ++ t)).
      { change (c :: w ++ t) with ((c :: w) ++ t). rewrite length_app. lia. }
      exists (length (c :: w ++ t)
              - length (dropwhile Candidate.is_token_char (skipn 20 (c :: w ++ t))) - 1).
      lia. }
    destruct Hpos as (k & ->). cbn [flat_map app]. discriminate.
  - cbn [app Re.pieces].
    destruct (Re.rmatch Candidate.chunk prev (c :: l ++ w ++ t) [] Re.stop)
      as [[t' g]|].
    + destruct (length (c :: l ++ w ++ t) - length t') as [|k].
      * cbn [flat_map app]. apply IH.
      * cbn [flat_map app]. discriminate.
    + cbn [flat_map app]. apply IH.
Qed.

(** X23.  [_extract_candidate_token] returns a value exactly when one of
    the evidence strings holds a run of at least twenty characters of
    [[A-Za-z0-9_-]]; the value it returns is such a run, taken from one
    of the evidence strings: it is never shorter than twenty characters
    and never holds a character outside the class.  On the empty list it
    returns [None]. *)
Theorem X23_candidate_token_is_a_run :
  Candidate._extract_candidate_token [] = None /\
  (forall evidence_strings token,
      Candidate._extract_candidate_token evidence_strings = Some token ->
      token_run token /\
      exists ev, In ev evidence_strings /\ Substring token ev) /\
  (forall evidence_strings,
      Candidate._extract_candidate_token evidence_strings = None <->
      forall ev w, In ev evidence_strings -> Substring w ev -> ~ token_run w).
Proof.
  assert (Hsound : forall evs token,
             Candidate._extract_candidate_token evs = Some token ->
             token_run token /\ exists ev, In ev evs /\ Substring token ev).
  { intros evs token H. unfold Candidate._extract_candidate_token in H.
    destruct (Candidate.first_pass evs) as [m|] eqn:E.
    - inversion H; subst. now apply first_pass_sound.
    - unfold Candidate.second_pass in H.
      destruct (proj1 (second_pass_fold evs None) token H)
        as [Hb | (ev & g & Hin & Hm)]; [discriminate|].
      destruct chunk_runs as (Hno & Hmin & Hcls).
      destruct (@findall_inside _ _ _ _ Hno Hm) as (Hsub & Hl & Hw).
      split; [split; [lia | exact (@made_of_weaken _ _ _ Hcls Hw)]|].
      exists ev. now split. }
  splits.
  - reflexivity.
  - exact Hsound.
  - intros evs. split.
    + intros Hnone ev w Hin Hsub Hrun.
      unfold Candidate._extract_candidate_token in Hnone.
      destruct (Candidate.first_pass evs); [discriminate|].
      unfold Candidate.second_pass in Hnone.
      apply (proj2 (second_pass_fold evs None)); [|exact Hnone].
      right. exists ev. split; [exact Hin|].
      exact (findall_chunk_complete Hrun Hsub).
    + intros Hno.
      destruct (Candidate._extract_candidate_token evs) as [token|] eqn:E;
        [|reflexivity].
      destruct (Hsound _ _ E) as (Hrun & ev & Hin & Hsub).
      now destruct (Hno ev token Hin Hsub).
Qed.

Lemma X23_witness :
  Candidate._extract_candidate_token
    [py "key: short"; py "token=ghp_0123456789abcdefghij0123;"]
  = Some (py "ghp_0123456789abcdefghij0123") /\
  token_run (py "ghp_0123456789abcdefghij0123").
Proof.
  split; [vm_compute; reflexivity|].
  apply (proj1 (proj2 X23_candidate_token_is_a_run)
           [py "key: short"; py "token=ghp_0123456789abcdefghij0123;"]).
  vm_compute. reflexivity.
Defined.
